(** * bundle_adjust/ba_utils.py: a shallow embedding and its checked properties

    The Python functions of [ba_utils.py] that carry the geospatial data
    layer are transcribed below as Rocq functions:

    - [get_predefined_pairs]       (pair ordering loader)
    - [read_point_cloud_ply], [read_point_cloud_txt], [write_point_cloud_ply]
                                   (ASCII point clouds)
    - [save_geotiff]               (raster writer)
    - [build_connectivity_graph]   (camera connectivity analysis)
    - [compute_sift_order]         (pair ordering writer)
    - [rpc_rpcm_to_geotiff_format] (RPC metadata)
    - [run_plyflatten]             (raster grid and layer handling)

    Conventions.  The floats of the raster grid of [run_plyflatten] are
    binary64 numbers with the operations of IEEE 754, rounded to nearest
    even ([SpecFloat] of the standard library).  The coordinates read from a
    point cloud and the anchor of [save_geotiff] are exact rationals [Q]:
    what is proved of them does not depend on rounding.  An entry of the
    observation matrix is a [cell], which may be [NaN].  A Python exception
    is the [Raise] branch of [result].  Text is [string], a character being
    a code point below 256.  Files are passed explicitly: a text file is the
    list of its lines or the text written to it, written rasters are
    collected in a log; a file that is opened is taken to exist or to be
    creatable. *)

From Stdlib Require Import ZArith QArith Qround String Ascii.
From Stdlib Require Import Floats.SpecFloat.
From stdpp Require Import base numbers list sorting gmap strings relations.

Open Scope Z_scope.

(* ===================================================================== *)
(** * Python runtime: exceptions, strings, paths                          *)
(* ===================================================================== *)

Inductive exn : Type :=
  | IndexError
  | ValueError
  | AssertionError
  | OverflowError
  | FileNotFoundError.

(** Outcome of a call: a value, an exception, or a loop that used up the
    iteration bound given to it. *)
Inductive result (A : Type) : Type :=
  | Ok (a : A)
  | Raise (e : exn)
  | OutOfFuel.
Arguments Ok {A} a.
Arguments Raise {A} e.
Arguments OutOfFuel {A}.

(** Sequencing: the first exception raised ends the computation. *)
#[global] Instance result_ret : MRet result := λ A a, Ok a.
#[global] Instance result_bind : MBind result := λ A B k r,
  match r with
  | Ok a => k a
  | Raise e => Raise e
  | OutOfFuel => OutOfFuel
  end.

(** [xs[i]] on a Python list. *)
Definition py_getitem {A : Type} (xs : list A) (i : nat) : result A :=
  match xs !! i with
  | Some x => Ok x
  | None => Raise IndexError
  end.

(** The decimal digits: what [\d] matches and what [int] and [float]
    read. *)
Definition is_digit (c : ascii) : bool :=
  let n := nat_of_ascii c in ((48 <=? n) && (n <=? 57))%nat.

(** Characters for which [str.isdigit] holds: the decimal digits and the
    superscripts two, three and one. *)
Definition is_digit_char (c : ascii) : bool :=
  let n := nat_of_ascii c in
  (is_digit c || (n =? 178) || (n =? 179) || (n =? 185))%nat.

(** Characters for which [str.isspace] holds: tab to carriage return, the
    four separators, the space, next line and the no-break space. *)
Definition is_space (c : ascii) : bool :=
  let n := nat_of_ascii c in
  (((9 <=? n) && (n <=? 13)) || ((28 <=? n) && (n <=? 32))
   || (n =? 133) || (n =? 160))%nat.

Definition snoc_char (s : string) (c : ascii) : string := (s +:+ String c "")%string.

(** [s.split()]: fields separated by runs of white space, none empty.
    [cur] is the field being read. *)
Fixpoint split_ws_from (cur : string) (s : string) : list string :=
  match s with
  | EmptyString => if String.eqb cur "" then [] else [cur]
  | String c s' =>
      if is_space c
      then (if String.eqb cur "" then split_ws_from "" s'
            else cur :: split_ws_from "" s')
      else split_ws_from (snoc_char cur c) s'
  end.

Definition py_split (s : string) : list string := split_ws_from "" s.

(** [s.split(sep)] for a one-character separator: empty fields are kept. *)
Fixpoint split_on_from (sep : ascii) (cur : string) (s : string) : list string :=
  match s with
  | EmptyString => [cur]
  | String c s' =>
      if Ascii.eqb c sep
      then cur :: split_on_from sep "" s'
      else split_on_from sep (snoc_char cur c) s'
  end.

Definition py_split_on (sep : ascii) (s : string) : list string :=
  split_on_from sep "" s.

Fixpoint all_chars (P : ascii → bool) (s : string) : bool :=
  match s with
  | EmptyString => true
  | String c s' => P c && all_chars P s'
  end.

(** [s.isdigit()] *)
Definition py_isdigit (s : string) : bool :=
  negb (String.eqb s "") && all_chars is_digit_char s.

Definition digit_val (c : ascii) : Z := Z.of_nat (nat_of_ascii c) - 48.

Fixpoint digits_value (acc : Z) (s : string) : Z :=
  match s with
  | EmptyString => acc
  | String c s' => digits_value (10 * acc + digit_val c) s'
  end.

(** [int(s)] for a string [s] without sign, blanks or underscores: its
    value when it is a non-empty string of decimal digits. *)
Definition py_int (s : string) : result Z :=
  if negb (String.eqb s "") && all_chars is_digit s
  then Ok (digits_value 0 s)
  else Raise ValueError.

(** [s.strip()] *)
Fixpoint lstrip (s : string) : string :=
  match s with
  | EmptyString => EmptyString
  | String c s' => if is_space c then lstrip s' else s
  end.

Fixpoint rstrip (s : string) : string :=
  match s with
  | EmptyString => EmptyString
  | String c s' =>
      let t := rstrip s' in
      if is_space c && String.eqb t "" then EmptyString else String c t
  end.

Definition py_strip (s : string) : string := rstrip (lstrip s).

(** [os.path.basename(p)]: what follows the last slash. *)
Definition basename (p : string) : string :=
  List.last (py_split_on "/" p) EmptyString.

(** [os.path.dirname(p)]: what precedes the last slash, without trailing
    slashes unless it consists of slashes only. *)
Fixpoint all_slashes (s : string) : bool :=
  match s with
  | EmptyString => true
  | String c s' => Ascii.eqb c "/" && all_slashes s'
  end.

Fixpoint rstrip_slash (s : string) : string :=
  match s with
  | EmptyString => EmptyString
  | String c s' =>
      let t := rstrip_slash s' in
      if Ascii.eqb c "/" && String.eqb t "" then EmptyString else String c t
  end.

Fixpoint join_with_slash (fields : list string) : string :=
  match fields with
  | [] => EmptyString
  | f :: fs => (f +:+ "/" +:+ join_with_slash fs)%string
  end.

Definition dirname (p : string) : string :=
  let fields := py_split_on "/" p in
  let head := join_with_slash (removelast fields) in
  if all_slashes head then head else rstrip_slash head.

(** [os.path.join(a, b)] *)
Definition path_join (a b : string) : string :=
  match b with
  | String "/" _ => b
  | _ =>
      if String.eqb a "" then b
      else if Ascii.eqb (List.last (list_ascii_of_string a) "/"%char) "/"
           then (a +:+ b)%string
           else (a +:+ "/" +:+ b)%string
  end.

(** [x in xs] and [xs.index(x)] on a list of strings. *)
Definition py_in (x : string) (xs : list string) : bool :=
  existsb (String.eqb x) xs.

Fixpoint py_index (x : string) (xs : list string) : result nat :=
  match xs with
  | [] => Raise ValueError
  | y :: ys => if String.eqb x y then Ok O else (i ← py_index x ys; Ok (S i))
  end.

(** [c in s] for a character. *)
Fixpoint has_char (c : ascii) (s : string) : bool :=
  match s with
  | EmptyString => false
  | String c' s' => Ascii.eqb c' c || has_char c s'
  end.

(** [os.makedirs(path, exist_ok=True)]: the empty path is refused with
    [FileNotFoundError]; the file system is taken to allow the creation of
    any other directory. *)
Definition os_makedirs (path : string) : result unit :=
  if String.eqb path "" then Raise FileNotFoundError else Ok ().

(** [int(x)] on the number that a float stands for: truncation towards
    zero. *)
Definition int_of_float (q : Q) : Z := Z.quot (Qnum q) (Zpos (Qden q)).

(* ===================================================================== *)
(** * binary64                                                             *)
(* ===================================================================== *)

(** A Python or numpy float: sign, mantissa and exponent, the two zeros,
    the infinities and NaN. *)
Abbreviation float := spec_float.

Definition prec : Z := 53.
Definition emax : Z := 1024.

(** [x / y], [x * y], [x + y], [x - y], each rounded to nearest even.
    Division by zero gives an infinity or NaN, as it does for numpy floats
    (for two Python floats it raises); nothing below is stated of a zero
    divisor. *)
Definition float_div : float → float → float := SFdiv prec emax.
Definition float_mul : float → float → float := SFmul prec emax.
Definition float_add : float → float → float := SFadd prec emax.
Definition float_sub : float → float → float := SFsub prec emax.

Definition is_finite (x : float) : bool :=
  match x with
  | S754_zero _ | S754_finite _ _ _ => true
  | _ => false
  end.

(** The number that a finite float stands for. *)
Definition float_value (x : float) : Q :=
  match x with
  | S754_finite s m e =>
      let mag := if bool_decide (0 ≤ e) then inject_Z (Zpos m * 2 ^ e)
                 else (Zpos m # Z.to_pos (2 ^ (- e)))%Q in
      if s then (- mag)%Q else mag
  | _ => 0%Q
  end.

(** The float of an integer below [2 ^ 53] in magnitude, which it stands
    for exactly; [szero] is the sign given to zero. *)
Definition float_of_pos (s : bool) (p : positive) : float :=
  let '(m, e) := shl_align p 0 (fexp prec emax (Zpos (digits2_pos p))) in
  S754_finite s m e.

Definition float_of_Z (szero : bool) (z : Z) : float :=
  match z with
  | Z0 => S754_zero szero
  | Zpos p => float_of_pos false p
  | Zneg p => float_of_pos true p
  end.

(** The float denoted by a decimal literal [n / d], as [9.5] is [95 / 10]:
    the nearest to the quotient. *)
Definition float_of_decimal (n d : Z) : float :=
  float_div (float_of_Z false n) (float_of_Z false d).

(** [np.floor(x)] and [np.ceil(x)]: a float of exponent zero or more is an
    integer already; zeros, infinities and NaN are returned as they are. *)
Definition np_floor (x : float) : float :=
  match x with
  | S754_finite s m e =>
      if bool_decide (0 ≤ e) then x else float_of_Z s (Qfloor (float_value x))
  | _ => x
  end.

Definition np_ceil (x : float) : float :=
  match x with
  | S754_finite s m e =>
      if bool_decide (0 ≤ e) then x else float_of_Z s (Qceiling (float_value x))
  | _ => x
  end.

(** [int(x)] on a float: [ValueError] for NaN, [OverflowError] for an
    infinity. *)
Definition float_to_int (x : float) : result Z :=
  match x with
  | S754_nan => Raise ValueError
  | S754_infinity _ => Raise OverflowError
  | _ => Ok (int_of_float (float_value x))
  end.

(* ===================================================================== *)
(** * get_predefined_pairs                                                 *)
(* ===================================================================== *)

(** An open text file: the lines that remain to be read.  [readline]
    returns the next line, or the empty string once the file is exhausted. *)
Abbreviation file := (list string).

Definition readline (f : file) : string * file :=
  match f with
  | [] => (EmptyString, [])
  | l :: rest => (l, rest)
  end.

Definition pair := (Z * Z)%type.

(** Number of pairs the loader collects. *)
Definition n_pairs : nat := 50.

(** [[int(s) for s in tokens]] *)
Fixpoint ints_of (tokens : list string) : result (list Z) :=
  match tokens with
  | [] => Ok []
  | s :: rest => n ← py_int s; ns ← ints_of rest; Ok (n :: ns)
  end.

(** Body of [for i in range(50)] in the 'oracle' / 'sift' branch. *)
Definition index_line (current_str : string) : result pair :=
  a ← ints_of (filter (λ s, py_isdigit s = true) (py_split current_str));
  a0 ← py_getitem a 0;
  a1 ← py_getitem a 1;
  Ok (a0 - 1, a1 - 1).

Fixpoint index_loop (n : nat) (f : file) (pairs : list pair) : result (list pair) :=
  match n with
  | O => Ok pairs
  | S n' =>
      let '(current_str, f') := readline f in
      pq ← index_line current_str;
      index_loop n' f' (pairs ++ [pq])
  end.

(** Body of [while len(pairs) < 50] in the heuristics branches; [suffix] is
    the empty string for site 'IARPA' and '.tif' otherwise.  [None] when
    the line names an unknown image and is skipped. *)
Definition filename_line (suffix : string) (myimages_fn : list string)
    (line : string) : result (option pair) :=
  let current_str := py_split_on " " line in
  s0 ← py_getitem current_str 0;
  s1 ← py_getitem current_str 1;
  let im1_fn := basename (s0 +:+ suffix) in
  let im2_fn := basename (s1 +:+ suffix) in
  if py_in im1_fn myimages_fn && py_in im2_fn myimages_fn
  then p ← py_index im1_fn myimages_fn;
       q ← py_index im2_fn myimages_fn;
       Ok (Some (Z.of_nat p, Z.of_nat q))
  else Ok None.

(** The [while] loop, with [fuel] bounding the number of iterations. *)
Fixpoint filename_loop (suffix : string) (myimages_fn : list string)
    (fuel : nat) (f : file) (pairs : list pair) : result (list pair) :=
  match fuel with
  | O => OutOfFuel
  | S fuel' =>
      if bool_decide (length pairs < n_pairs)%nat
      then let '(line, f') := readline f in
           r ← filename_line suffix myimages_fn line;
           match r with
           | Some pq => filename_loop suffix myimages_fn fuel' f' (pairs ++ [pq])
           | None => filename_loop suffix myimages_fn fuel' f' pairs
           end
      else Ok pairs
  end.

(** [get_predefined_pairs(fname, site, order, myimages)], the file [fname]
    being given by its lines.  The [while] loops get two more iterations
    than the file has lines, which is always enough
    (lemma [filename_loop_terminates]). *)
Definition get_predefined_pairs (f : file) (site order : string)
    (myimages : list string) : result (list pair) :=
  if py_in order ["oracle"; "sift"]%string
  then index_loop n_pairs f []
  else
    let myimages_fn := basename <$> myimages in
    if String.eqb site "IARPA"
    then filename_loop "" myimages_fn (length f + 2) f []
    else filename_loop ".tif" myimages_fn (length f + 2) f [].

(** The lines that yield a pair, as each branch decides it. *)
Definition index_ok (line : string) : bool :=
  match index_line line with Ok _ => true | _ => false end.

Definition filename_ok (suffix : string) (fns : list string) (line : string) : bool :=
  match filename_line suffix fns line with Ok (Some _) => true | _ => false end.

Definition valid_pair_line (site order : string) (myimages : list string)
    (line : string) : bool :=
  if py_in order ["oracle"; "sift"]%string
  then index_ok line
  else filename_ok (if String.eqb site "IARPA" then "" else ".tif")
                   (basename <$> myimages) line.

Definition count_valid (site order : string) (myimages : list string) (f : file) : nat :=
  length (filter (λ l, valid_pair_line site order myimages l = true) f).

(* ===================================================================== *)
(** * read_point_cloud_ply                                                 *)
(* ===================================================================== *)

(** The longest prefix of decimal digits, and what follows it. *)
Fixpoint span_digits (s : string) : string * string :=
  match s with
  | EmptyString => (EmptyString, EmptyString)
  | String c s' =>
      if is_digit c
      then let '(d, rest) := span_digits s' in (String c d, rest)
      else (EmptyString, s)
  end.

Definition is_sign (c : ascii) : bool := Ascii.eqb c "-" || Ascii.eqb c "+".

(** First alternative of the pattern, [[-+]?\d*\.\d+], anchored at the
    start of [s]: the matched text and the remainder.  The greedy choices
    are the only ones that can succeed: a shorter digit run is followed by
    a digit, not by the dot. *)
Definition match_decimal (s : string) : option (string * string) :=
  let '(sign, s1) :=
    match s with
    | String c s' => if is_sign c then (String c "", s') else (EmptyString, s)
    | EmptyString => (EmptyString, s)
    end in
  let '(d1, s2) := span_digits s1 in
  match s2 with
  | String "." s3 =>
      let '(d2, s4) := span_digits s3 in
      if String.eqb d2 "" then None
      else Some ((sign +:+ d1 +:+ "." +:+ d2)%string, s4)
  | _ => None
  end.

(** Second alternative, [\d+]. *)
Definition match_integer (s : string) : option (string * string) :=
  let '(d, rest) := span_digits s in
  if String.eqb d "" then None else Some (d, rest).

Definition match_number (s : string) : option (string * string) :=
  match match_decimal s with
  | Some m => Some m
  | None => match_integer s
  end.

(** [re.findall(r"[-+]?\d*\.\d+|\d+", s)]: leftmost matches, scanning on
    after each one.  [fuel] bounds the scanning steps; the length of [s]
    plus one is enough. *)
Fixpoint findall_from (fuel : nat) (s : string) : list string :=
  match fuel with
  | O => []
  | S fuel' =>
      match s with
      | EmptyString => []
      | String _ s' =>
          match match_number s with
          | Some (m, rest) => m :: findall_from fuel' rest
          | None => findall_from fuel' s'
          end
      end
  end.

Definition findall_numbers (s : string) : list string :=
  findall_from (S (String.length s)) s.

(** [float(s)] on a text matched by the pattern, as an exact decimal. *)
Definition float_of_match (s : string) : Q :=
  let '(neg, body) :=
    match s with
    | String c s' => if is_sign c then (Ascii.eqb c "-", s') else (false, s)
    | EmptyString => (false, s)
    end in
  let '(d1, rest) := span_digits body in
  let d2 := match rest with String "." s3 => s3 | _ => EmptyString end in
  let mag :=
    (digits_value 0 (d1 +:+ d2) # Pos.pow 10 (Pos.of_nat (String.length d2)))%Q in
  let mag := if String.eqb d2 "" then inject_Z (digits_value 0 d1) else mag in
  if neg then Qopp mag else mag.

Definition point3 := (Q * Q * Q)%type.

(** Number of header lines skipped. *)
Definition ply_header_lines : nat := 7.

(** Body of the loop over the data rows: row [i] of the cloud is read
    from line [i + 7]. *)
Definition parse_point (line : string) : result point3 :=
  let coords := findall_numbers line in
  c0 ← py_getitem coords 0;
  c1 ← py_getitem coords 1;
  c2 ← py_getitem coords 2;
  Ok (float_of_match c0, float_of_match c1, float_of_match c2).

Fixpoint ply_rows_loop (content : list string) (idxs : list nat)
    (pt_cloud : list point3) : result (list point3) :=
  match idxs with
  | [] => Ok pt_cloud
  | i :: idxs' =>
      line ← py_getitem content (i + ply_header_lines);
      pt ← parse_point line;
      ply_rows_loop content idxs' (<[i := pt]> pt_cloud)
  end.

(** [read_point_cloud_ply(filename)], the file being given by its lines.
    [np.zeros((n_pts, 3))] raises [ValueError] for a negative [n_pts]. *)
Definition read_point_cloud_ply (lines : list string) : result (list point3) :=
  let content := py_strip <$> lines in
  let n_pts := Z.of_nat (length content) - 7 in
  if bool_decide (n_pts < 0) then Raise ValueError
  else
    let pt_cloud := replicate (Z.to_nat n_pts) (0%Q, 0%Q, 0%Q) in
    ply_rows_loop content (seq 0 (Z.to_nat n_pts)) pt_cloud.

(* ===================================================================== *)
(** * Rasters: save_geotiff and run_plyflatten                             *)
(* ===================================================================== *)

(** [affine.Affine(a, b, c, d, e, f)] *)
Record affine : Type := Affine {
  af_a : Q; af_b : Q; af_c : Q;
  af_d : Q; af_e : Q; af_f : Q }.

(** [rasterio.transform.from_origin(west, north, xsize, ysize)] *)
Definition from_origin (west north xsize ysize : Q) : affine :=
  Affine xsize 0 west 0 (- ysize) north.

(** The keyword arguments given to [rasterio.open(..., 'w', **profile)]. *)
Record profile : Type := Profile {
  p_driver : string;
  p_count : Z;
  p_width : nat;
  p_height : nat;
  p_dtype : string;
  p_crs : string;
  p_transform : affine }.

(** [utm_bbx], a dictionary with the four keys below. *)
Record utm_bbx : Type := UtmBbx {
  xmin : float; xmax : float; ymin : float; ymax : float }.

(** [roi = (xoff, yoff, xsize, ysize)] *)
Record roi : Type := Roi {
  xoff : float; yoff : float; xsize : Z; ysize : Z }.

(** "compute roi from utm bounding box", the first lines of
    [run_plyflatten]. *)
Definition compute_roi (bbx : utm_bbx) (resolution : float) : result roi :=
  let xoff := float_mul (np_floor (float_div (xmin bbx) resolution)) resolution in
  xsize ← float_to_int
             (float_add (np_floor (float_div (float_sub (xmax bbx) (xmin bbx)) resolution))
                        (float_of_Z false 1));
  let yoff := float_mul (np_ceil (float_div (ymax bbx) resolution)) resolution in
  ysize ← float_to_int
             (float_add (np_floor (float_div (float_sub (ymax bbx) (ymin bbx)) resolution))
                        (float_of_Z false 1));
  Ok (Roi xoff yoff xsize ysize).

Section Rasters.

(** Type of a pixel value. *)
Context {pixel : Type}.

(** A 2-D array, by rows. *)
Definition image : Type := list (list pixel).

Definition image_shape (im : image) : nat * nat :=
  (length im, length (List.hd [] im)).

(** An [H x W x L] array, as the list of its [L] layers [raster[:, :, k]]. *)
Record raster : Type := Raster {
  r_height : nat;
  r_width : nat;
  r_dtype : string;
  r_layers : list image }.

(** A file written through rasterio: its path, profile and single band. *)
Record raster_file : Type := RasterFile {
  rf_path : string;
  rf_profile : profile;
  rf_band : image }.

(** [save_geotiff(filename, input_im, epsg_code, x, y, r)]: the file that
    is written. *)
Definition save_geotiff (filename : string) (input_im : image)
    (epsg_code : Z) (x y r : Q) : raster_file :=
  let '(h, w) := image_shape input_im in
  let profile :=
    {| p_driver := "GTiff";
       p_count := 1;
       p_width := w;
       p_height := h;
       p_dtype := "float64";
       p_crs := "epsg:32614";
       p_transform := from_origin (x - r / 2)%Q (y + r / 2)%Q r r |} in
  RasterFile filename profile input_im.

(** What [run_plyflatten] calls and [ba_utils.py] does not define: the
    aggregation routine of the plyflatten package, and the masking
    helpers of [bundle_adjust.data_loader]. *)
Context {mask aoi : Type}.
Variable plyflatten_from_plyfiles_list :
  list string → float → roi → bool → raster * profile.
Variable apply_mask_to_raster : image → mask → image.
Variable get_binary_mask_from_aoi_lonlat_within_utm_bbx :
  utm_bbx → float → aoi → mask.
Variable np_ones : nat * nat → mask.

(** [raster[:, :, k]] *)
Definition layer (ls : list image) (k : nat) : result image := py_getitem ls k.

(** The mask applied to every band that is written: all ones without an
    area of interest. *)
Definition mask_of (r : raster) (bbx : utm_bbx) (resolution : float)
    (aoi_lonlat : option aoi) : mask :=
  match aoi_lonlat with
  | None => np_ones (r_height r, r_width r)
  | Some a => get_binary_mask_from_aoi_lonlat_within_utm_bbx bbx resolution a
  end.

(** [run_plyflatten(ply_list, resolution, utm_bbx, output_file, aoi_lonlat,
    std, cnt)]: the files written, in order, and how the call ends. *)
Definition run_plyflatten (ply_list : list string) (resolution : float)
    (bbx : utm_bbx) (output_file : string) (aoi_lonlat : option aoi)
    (std cnt : bool) : list raster_file * result unit :=
  match compute_roi bbx resolution with
  | Ok roi =>
      let '(raster, profile) :=
        plyflatten_from_plyfiles_list ply_list resolution roi std in
      let mask := mask_of raster bbx resolution aoi_lonlat in
      let profile :=
        {| p_driver := "GTiff";
           p_count := 1;
           p_width := r_width raster;
           p_height := r_height raster;
           p_dtype := r_dtype raster;
           p_crs := p_crs profile;
           p_transform := p_transform profile |} in
      let write path im := RasterFile path profile (apply_mask_to_raster im mask) in
      match os_makedirs (dirname output_file) with
      | Ok _ =>
          match layer (r_layers raster) 0 with
          | Ok dsm =>
              let written := [write output_file dsm] in
              if std then
                let odd := bool_decide (length (r_layers raster) `mod` 2 = 1)%nat in
                let cnt_path :=
                  path_join (dirname output_file) ("cnt/" +:+ basename output_file) in
                match (if odd && cnt then os_makedirs (dirname cnt_path) else Ok ()) with
                | Ok _ =>
                    let '(written, layers) :=
                      if odd
                      then
                        ((if cnt
                          then written
                               ++ [write cnt_path (List.last (r_layers raster) dsm)]
                          else written),
                         removelast (r_layers raster))
                      else (written, r_layers raster) in
                    let std_path :=
                      path_join (dirname output_file) ("std/" +:+ basename output_file) in
                    match os_makedirs (dirname std_path) with
                    | Ok _ =>
                        let n := length layers in
                        if bool_decide (n `mod` 2 = 0)%nat
                        then match layer layers (n / 2) with
                             | Ok s => (written ++ [write std_path s], Ok ())
                             | Raise e => (written, Raise e)
                             | OutOfFuel => (written, OutOfFuel)
                             end
                        else (written, Raise AssertionError)
                    | Raise e => (written, Raise e)
                    | OutOfFuel => (written, OutOfFuel)
                    end
                | Raise e => (written, Raise e)
                | OutOfFuel => (written, OutOfFuel)
                end
              else (written, Ok ())
          | Raise e => ([], Raise e)
          | OutOfFuel => ([], OutOfFuel)
          end
      | Raise e => ([], Raise e)
      | OutOfFuel => ([], OutOfFuel)
      end
  | Raise e => ([], Raise e)
  | OutOfFuel => ([], OutOfFuel)
  end.

End Rasters.

Arguments image : clear implicits.
Arguments raster : clear implicits.
Arguments raster_file : clear implicits.

(* ===================================================================== *)
(** * networkx: Graph, add_edge, connected_components                      *)
(* ===================================================================== *)

(** [nx.Graph]: the nodes in insertion order and the neighbours of each. *)
Record Graph : Type := MkGraph {
  g_nodes : list nat;
  g_adj : gmap nat (gset nat) }.

Definition empty_graph : Graph := MkGraph [] ∅.

Definition neighbours (G : Graph) (v : nat) : gset nat :=
  default ∅ (g_adj G !! v).

Definition add_node (u : nat) (G : Graph) : Graph :=
  if decide (u ∈ g_nodes G) then G
  else MkGraph (g_nodes G ++ [u]) (<[u := ∅]> (g_adj G)).

(** [G.add_edge(u, v)] *)
Definition add_edge (u v : nat) (G : Graph) : Graph :=
  let G := add_node v (add_node u G) in
  let adj := <[u := {[v]} ∪ neighbours G u]> (g_adj G) in
  let adj := <[v := {[u]} ∪ default ∅ (adj !! v)]> adj in
  MkGraph (g_nodes G) adj.

(** One pass of [for v in thislevel] in [_plain_bfs]: the state is
    [(seen, nextlevel)]. *)
Definition bfs_visit (G : Graph) (v : nat) (st : gset nat * gset nat)
    : gset nat * gset nat :=
  if decide (v ∈ st.1) then st
  else ({[v]} ∪ st.1, st.2 ∪ neighbours G v).

Definition bfs_level (G : Graph) (seen thislevel : gset nat)
    : gset nat * gset nat :=
  set_fold (bfs_visit G) (seen, ∅) thislevel.

(** [while nextlevel:] of [_plain_bfs], at most [fuel] levels. *)
Fixpoint bfs_loop (fuel : nat) (G : Graph) (seen nextlevel : gset nat)
    : result (gset nat) :=
  match fuel with
  | O => OutOfFuel
  | S fuel' =>
      if decide (nextlevel = ∅) then Ok seen
      else let '(seen', nextlevel') := bfs_level G seen nextlevel in
           bfs_loop fuel' G seen' nextlevel'
  end.

(** [_plain_bfs(G, source)]: each level but the last adds a node, so two
    levels more than there are nodes are enough. *)
Definition plain_bfs (G : Graph) (source : nat) : result (gset nat) :=
  bfs_loop (length (g_nodes G) + 2) G ∅ {[source]}.

(** [for v in G: if v not in seen: c = _plain_bfs(G, v); seen.update(c);
    yield c] *)
Fixpoint components_from (G : Graph) (nodes : list nat) (seen : gset nat)
    : result (list (gset nat)) :=
  match nodes with
  | [] => Ok []
  | v :: nodes' =>
      if decide (v ∈ seen) then components_from G nodes' seen
      else c ← plain_bfs G v;
           cs ← components_from G nodes' (seen ∪ c);
           Ok (c :: cs)
  end.

(** [list(nx.connected_components(G))] *)
Definition connected_components (G : Graph) : result (list (gset nat)) :=
  components_from G (g_nodes G) ∅.

(* ===================================================================== *)
(** * build_connectivity_graph                                             *)
(* ===================================================================== *)

(** An entry of the observation matrix. *)
Inductive cell : Type :=
  | NaN
  | Num (v : Q).

Definition np_isnan (c : cell) : bool :=
  match c with
  | NaN => true
  | Num _ => false
  end.

(** The observation matrix [C], by rows. *)
Abbreviation matrix := (list (list cell)).

(** [C[k, :]] *)
Definition row (C : matrix) (k : nat) : list cell := default [] (C !! k).

(** [int(C.shape[0]/2)] *)
Definition n_cam (C : matrix) : nat :=
  Z.to_nat (int_of_float (inject_Z (Z.of_nat (length C)) / 2)%Q).

(** [1*~np.isnan(r)] *)
Definition observed (r : list cell) : list Z :=
  (λ c, 1 * Z.b2z (negb (np_isnan c))) <$> r.

Definition np_logical_and (xs ys : list Z) : list bool :=
  zip_with (λ x y, negb (x =? 0) && negb (y =? 0)) xs ys.

Definition np_sum (xs : list Z) : Z := foldr Z.add 0 xs.

(** [np.sum(1*np.logical_and(1*~np.isnan(C[2*im1, :]),
                              1*~np.isnan(C[2*im2, :])))] *)
Definition n_matches (C : matrix) (im1 im2 : nat) : Z :=
  np_sum ((λ b : bool, 1 * Z.b2z b) <$>
          np_logical_and (observed (row C (2 * im1))) (observed (row C (2 * im2)))).

(** [A[i, j] = v] and [A[i, j]] on a matrix stored by rows. *)
Definition set2 (A : list (list Z)) (i j : nat) (v : Z) : list (list Z) :=
  alter (λ r, <[j := v]> r) i A.

Definition get2 (A : list (list Z)) (i j : nat) : option Z :=
  r ← A !! i; r !! j.

(** The variables of step (1). *)
Record matches_state : Type := MatchesState {
  st_A : list (list Z);
  st_n_correspondences_filt : list Z;
  st_tmp_pairs : list (nat * nat) }.

Definition matches_body (C : matrix) (im1 im2 : nat) (st : matches_state)
    : matches_state :=
  let n := n_matches C im1 im2 in
  {| st_n_correspondences_filt := st_n_correspondences_filt st ++ [n];
     st_tmp_pairs := st_tmp_pairs st ++ [(im1, im2)];
     st_A := set2 (set2 (st_A st) im1 im2 n) im2 im1 n |}.

(** [range(a, b)] *)
Definition py_range (a b : nat) : list nat := seq a (b - a).

(** [A, n_correspondences_filt, tmp_pairs = np.zeros((n_cam,n_cam)), [], []] *)
Definition initial_state (n : nat) : matches_state :=
  {| st_A := replicate n (replicate n 0);
     st_n_correspondences_filt := [];
     st_tmp_pairs := [] |}.

(** Step (1): the two nested [for] loops. *)
Definition matches_loop (C : matrix) : matches_state :=
  let n_cam := n_cam C in
  foldl (λ st im1,
           foldl (λ st im2, matches_body C im1 im2 st) st
                 (py_range (im1 + 1) n_cam))
        (initial_state n_cam)
        (py_range 0 n_cam).

(** The matrix [A] held by [build_connectivity_graph] after step (1). *)
Definition connectivity_matrix (C : matrix) : list (list Z) :=
  st_A (matches_loop C).

(** Step (2): [for i in range(len(tmp_pairs))], keeping the pairs whose
    count is above the threshold. *)
Fixpoint filter_loop (min_matches : Z) (tmp_pairs : list (nat * nat))
    (n_correspondences_filt : list Z) (idxs : list nat)
    (acc : list (nat * nat) * list Z) : result (list (nat * nat) * list Z) :=
  match idxs with
  | [] => Ok acc
  | i :: idxs' =>
      n ← py_getitem n_correspondences_filt i;
      if bool_decide (n > min_matches)
      then p ← py_getitem tmp_pairs i;
           filter_loop min_matches tmp_pairs n_correspondences_filt idxs'
             (acc.1 ++ [p], acc.2 ++ [n])
      else filter_loop min_matches tmp_pairs n_correspondences_filt idxs' acc
  end.

Definition filter_edges (C : matrix) (min_matches : Z)
    : result (list (nat * nat) * list Z) :=
  let st := matches_loop C in
  filter_loop min_matches (st_tmp_pairs st) (st_n_correspondences_filt st)
    (py_range 0 (length (st_tmp_pairs st))) ([], []).

(** Step (3), first part: [G = nx.Graph()] and the [add_edge] loop. *)
Definition graph_of_pairs (pairs_to_draw : list (nat * nat)) : Graph :=
  foldl (λ G edge, add_edge edge.1 edge.2 G) empty_graph pairs_to_draw.

(** What the function returns: [G, n_cc, pairs_to_draw, matches_per_pair,
    missing_cams]; [missing_cams] is kept as the set it is built from. *)
Record connectivity : Type := Connectivity {
  c_G : Graph;
  c_n_cc : nat;
  c_pairs_to_draw : list (nat * nat);
  c_matches_per_pair : list Z;
  c_missing_cams : gset nat }.

(** [min(xs)] *)
Definition py_min (xs : list Z) : result Z :=
  match xs with
  | [] => Raise ValueError
  | x :: xs' => Ok (foldl Z.min x xs')
  end.

(** [build_connectivity_graph(C, min_matches, verbose)]; printing is left
    out, but not the evaluation of what is printed. *)
Definition build_connectivity_graph (C : matrix) (min_matches : Z)
    (verbose : bool) : result connectivity :=
  '(pairs_to_draw, matches_per_pair) ← filter_edges C min_matches;
  let G := graph_of_pairs pairs_to_draw in
  G_cc ← connected_components G;
  let n_cc := length G_cc in
  main ← py_getitem G_cc 0;
  let missing_cams := list_to_set (py_range 0 (n_cam C)) ∖ main in
  _ ← (if verbose then py_min matches_per_pair else Ok 0);
  Ok (Connectivity G n_cc pairs_to_draw matches_per_pair missing_cams).

(* ===================================================================== *)
(** * The quantities the specification speaks of                           *)
(* ===================================================================== *)

(** RasterGrid derived from a bounding box, in the words of the data model
    and over the numbers themselves:
    [xoff = floor(xmin/res)·res], [yoff = ceil(ymax/res)·res],
    [width = floor((xmax-xmin)/res) + 1], [height = floor((ymax-ymin)/res) + 1]. *)
Definition grid_xoff (xmin res : Q) : Q :=
  (inject_Z (Qfloor (xmin / res)) * res)%Q.
Definition grid_yoff (ymax res : Q) : Q :=
  (inject_Z (Qceiling (ymax / res)) * res)%Q.
Definition grid_width (xmin xmax res : Q) : Z :=
  Qfloor ((xmax - xmin) / res) + 1.
Definition grid_height (ymin ymax res : Q) : Z :=
  Qfloor ((ymax - ymin) / res) + 1.

(** The float [r] is finite and stands for the number [q]: the operation
    that gave it did not round. *)
Definition exact (r : float) (q : Q) : bool :=
  is_finite r && Qeq_bool (float_value r) q.

(** None of the operations of [compute_roi] rounds on this input. *)
Definition no_rounding (bbx : utm_bbx) (resolution : float) : bool :=
  let v := float_value in
  let one := float_of_Z false 1 in
  let qx := float_div (xmin bbx) resolution in
  let dx := float_sub (xmax bbx) (xmin bbx) in
  let wx := float_div dx resolution in
  let qy := float_div (ymax bbx) resolution in
  let dy := float_sub (ymax bbx) (ymin bbx) in
  let wy := float_div dy resolution in
  exact qx (v (xmin bbx) / v resolution)
  && exact (float_mul (np_floor qx) resolution) (v (np_floor qx) * v resolution)
  && exact dx (v (xmax bbx) - v (xmin bbx))
  && exact wx (v dx / v resolution)
  && exact (float_add (np_floor wx) one) (v (np_floor wx) + 1)
  && exact qy (v (ymax bbx) / v resolution)
  && exact (float_mul (np_ceil qy) resolution) (v (np_ceil qy) * v resolution)
  && exact dy (v (ymax bbx) - v (ymin bbx))
  && exact wy (v dy / v resolution)
  && exact (float_add (np_floor wy) one) (v (np_floor wy) + 1).

(** The points of a headerless listing, one per line, first error first. *)
Fixpoint parse_rows (rows : list string) : result (list point3) :=
  match rows with
  | [] => Ok []
  | r :: rs => p ← parse_point r; ps ← parse_rows rs; Ok (p :: ps)
  end.

(** [C.shape[1]], the number of track columns. *)
Definition n_tracks (C : matrix) : nat := length (row C 0).

(** [C] has shape [(2·n_cameras, n_tracks)]. *)
Definition has_shape (C : matrix) (n_cameras n_trk : nat) : Prop :=
  length C = (2 * n_cameras)%nat ∧ Forall (λ r, length r = n_trk) C.

(** Column [t] of the row [r] holds a number. *)
Definition is_num (r : list cell) (t : nat) : bool :=
  match r !! t with
  | Some c => negb (np_isnan c)
  | None => false
  end.

(** Entry [(k, t)] of [C] holds a number. *)
Definition not_nan_at (C : matrix) (k t : nat) : bool := is_num (row C k) t.

(** Number of the columns [t < n] that satisfy [P]. *)
Definition count_columns (P : nat → bool) (n : nat) : Z :=
  Z.of_nat (length (filter (λ t, P t = true) (seq 0 n))).

(** Tracks in which rows [2i] and [2j] (the x coordinates of cameras [i]
    and [j]) are both observed. *)
Definition joint_x_rows (C : matrix) (i j : nat) : Z :=
  count_columns (λ t, not_nan_at C (2 * i) t && not_nan_at C (2 * j) t) (n_tracks C).

(** Tracks in which the row pairs [(2i, 2i+1)] and [(2j, 2j+1)] are both
    entirely observed. *)
Definition joint_row_pairs (C : matrix) (i j : nat) : Z :=
  count_columns (λ t, (not_nan_at C (2 * i) t && not_nan_at C (2 * i + 1) t)
                      && (not_nan_at C (2 * j) t && not_nan_at C (2 * j + 1) t))
                (n_tracks C).

(** Camera [i] has a coordinate pair or none in each track: row [2i+1] is
    NaN exactly where row [2i] is. *)
Definition paired_rows (C : matrix) (i : nat) : Prop :=
  ∀ t, (t < n_tracks C)%nat → not_nan_at C (2 * i + 1) t = not_nan_at C (2 * i) t.

(** The pair [(i, j)] is examined by step (1) and passes the threshold. *)
Definition surviving (C : matrix) (min_matches : Z) (i j : nat) : Prop :=
  (i < j < n_cam C)%nat ∧ n_matches C i j > min_matches.

(** Cameras joined by an edge of the filtered graph, and by a path. *)
Definition linked (C : matrix) (min_matches : Z) (a b : nat) : Prop :=
  surviving C min_matches a b ∨ surviving C min_matches b a.

Definition connected (C : matrix) (min_matches : Z) : relation nat :=
  rtc (linked C min_matches).

(** A component with the most nodes (the first such). *)
Fixpoint largest_component (cs : list (gset nat)) : option (gset nat) :=
  match cs with
  | [] => None
  | c :: cs' =>
      match largest_component cs' with
      | Some c' => if bool_decide (size c < size c')%nat then Some c' else Some c
      | None => Some c
      end
  end.

(* ===================================================================== *)
(** * Auxiliary notions of the proofs                                      *)
(* ===================================================================== *)

(** The pairs visited by the two nested loops of step (1), in order. *)
Definition camera_pairs (n : nat) : list (nat * nat) :=
  i ← py_range 0 n; (λ j, (i, j)) <$> py_range (i + 1) n.

(** The pairs that step (2) keeps. *)
Definition kept_pairs (C : matrix) (min_matches : Z) : list (nat * nat) :=
  filter (λ p, n_matches C p.1 p.2 > min_matches) (camera_pairs (n_cam C)).

(** A list of [n] rows of [n] entries. *)
Definition square (n : nat) (A : list (list Z)) : Prop :=
  length A = n ∧ Forall (λ r, length r = n) A.

(** Ordering of pairs by their first camera. *)
Definition first_le (p q : nat * nat) : Prop := (p.1 ≤ q.1)%nat.

(** Nodes joined by an edge of [G]. *)
Definition adjacent (G : Graph) (a b : nat) : Prop := b ∈ neighbours G a.

(** What [add_edge] maintains: the nodes are listed once, only nodes have
    neighbours, and neighbours are nodes. *)
Record graph_wf (G : Graph) : Prop := GraphWf {
  wf_nodup : NoDup (g_nodes G);
  wf_source : ∀ a b, adjacent G a b → a ∈ g_nodes G;
  wf_target : ∀ a b, adjacent G a b → b ∈ g_nodes G }.

(* ===================================================================== *)
(** * Concrete inputs                                                      *)
(* ===================================================================== *)

(** Pair files with three valid lines, in index form and in filename form. *)
Definition file_three_indices : file :=
  ["1 2
"; "2 3
"; "1 3
"]%string.

Definition file_three_names : file :=
  ["a.tif b.tif 
"; "b.tif a.tif 
"; "a.tif a.tif 
"]%string.

(** Seven lines that are no PLY header. *)
Definition ply_bad_header : list string :=
  ["not"; "a"; "ply"; "header"; "at"; "all"; "1 2 3"]%string.

(** A point cloud of 2 points whose header lacks the format line. *)
Definition ply_six_line_header : list string :=
  ["ply
"; "element vertex 2
"; "property float x
"; "property float y
"; "property float z
"; "end_header
"; "1 2 3
"; "4 5 6
"]%string.

(** The grid example of the specification: bbox (0, 9.5, 0, 4.5). *)
Definition example_bbx : utm_bbx :=
  UtmBbx (float_of_decimal 0 1) (float_of_decimal 95 10)
         (float_of_decimal 0 1) (float_of_decimal 45 10).

(** The square from 1 to 2, and the square from 0.3 to 0.6. *)
Definition one_two_bbx : utm_bbx :=
  UtmBbx (float_of_decimal 1 1) (float_of_decimal 2 1)
         (float_of_decimal 1 1) (float_of_decimal 2 1).

Definition tenths_bbx : utm_bbx :=
  UtmBbx (float_of_decimal 3 10) (float_of_decimal 6 10)
         (float_of_decimal 3 10) (float_of_decimal 6 10).

(** A raster of one value layer, one deviation layer and the count. *)
Definition example_raster : raster Q :=
  Raster 1 1 "float32" [ [[10%Q]]; [[2%Q]]; [[7%Q]] ].

Definition example_profile : profile :=
  Profile "GTiff" 3 1 1 "float32" "epsg:32614" (from_origin 0 0 1 1).

(** The end-to-end example of the specification: 2 cameras, 4 tracks;
    tracks 0, 2, 3 are seen by both cameras, track 1 by camera 0 only. *)
Definition example_C : matrix :=
  [ [Num 10; Num 11; Num 12; Num 13];
    [Num 20; Num 21; Num 22; Num 23];
    [Num 30; NaN;    Num 32; Num 33];
    [Num 40; NaN;    Num 42; Num 43] ].

(** Five cameras: 0 and 1 share track 0; 2, 3 and 4 share a track two by
    two. *)
Definition two_groups_C : matrix :=
  [ [Num 1; NaN; NaN; NaN]; [Num 1; NaN; NaN; NaN];
    [Num 1; NaN; NaN; NaN]; [Num 1; NaN; NaN; NaN];
    [NaN; Num 1; Num 1; NaN]; [NaN; Num 1; Num 1; NaN];
    [NaN; Num 1; NaN; Num 1]; [NaN; Num 1; NaN; Num 1];
    [NaN; NaN; Num 1; Num 1]; [NaN; NaN; Num 1; Num 1] ].

(* ===================================================================== *)
(** * Further notions and inputs                                           *)
(* ===================================================================== *)


(** The pair [pq] was read from a line of [f]: its members are the first
    positions, in the list of known names, of the names formed from the
    first two fields of the line. *)
Definition read_from (suffix : string) (fns : list string) (f : file)
    (pq : pair) : Prop :=
  ∃ line s0 s1 tl (p q : nat),
    line ∈ f
    ∧ py_split_on " " line = s0 :: s1 :: tl
    ∧ pq = (Z.of_nat p, Z.of_nat q)
    ∧ fns !! p = Some (basename (s0 +:+ suffix))
    ∧ fns !! q = Some (basename (s1 +:+ suffix))
    ∧ (∀ j, (j < p)%nat → fns !! j ≠ Some (basename (s0 +:+ suffix)))
    ∧ (∀ j, (j < q)%nat → fns !! j ≠ Some (basename (s1 +:+ suffix))).

(** A pair file of fifty lines in index form. *)
Definition file_fifty_indices : file := replicate 50 "3 1
"%string.

(** A pair file in filename form whose lines have a third field. *)
Definition file_fifty_names : file := replicate 50 "b.tif a.tif 0.5
"%string.

(** The line feed. *)
Definition LF : ascii := ascii_of_nat 10.

(** A pair file in filename form with two fields a line. *)
Definition file_two_columns : file :=
  ["a.tif b.tif
"; "b.tif a.tif
"]%string.

(* ===================================================================== *)
(** * read_point_cloud_txt and write_point_cloud_ply                       *)
(* ===================================================================== *)

Fixpoint txt_rows_loop (content : list string) (idxs : list nat)
    (pt_cloud : list point3) : result (list point3) :=
  match idxs with
  | [] => Ok pt_cloud
  | i :: idxs' =>
      line ← py_getitem content i;
      pt ← parse_point line;
      txt_rows_loop content idxs' (<[i := pt]> pt_cloud)
  end.

(** [read_point_cloud_txt(filename)], the file being given by its lines. *)
Definition read_point_cloud_txt (lines : list string) : result (list point3) :=
  let content := py_strip <$> lines in
  let n_pts := length content in
  let pt_cloud := replicate n_pts (0%Q, 0%Q, 0%Q) in
  txt_rows_loop content (seq 0 n_pts) pt_cloud.

(** The carriage return. *)
Definition CR : ascii := ascii_of_nat 13.

(** [f.readlines()] on a file opened in text mode, given the characters of
    the file: a line ends after a line feed, after a carriage return
    followed by a line feed, or after a carriage return alone, and is
    returned with a line feed at its end; the last line may lack one.
    [cur] is the line being read. *)
Fixpoint readlines_from (cur : string) (s : string) : list string :=
  match s with
  | EmptyString => if String.eqb cur "" then [] else [cur]
  | String c s' =>
      if Ascii.eqb c LF then snoc_char cur LF :: readlines_from "" s'
      else if Ascii.eqb c CR then
        match s' with
        | String c' s'' =>
            if Ascii.eqb c' LF then snoc_char cur LF :: readlines_from "" s''
            else snoc_char cur LF :: readlines_from "" s'
        | EmptyString => [snoc_char cur LF]
        end
      else readlines_from (snoc_char cur c) s'
  end.

Definition py_readlines (s : string) : list string := readlines_from "" s.

(** [str(n)] for an integer that is not negative: its decimal digits.
    [fuel] bounds the number of digits. *)
Definition digit_char (d : nat) : ascii := ascii_of_nat (48 + d).

Fixpoint str_digits (fuel n : nat) (acc : string) : string :=
  match fuel with
  | O => acc
  | S fuel' =>
      let acc' := String (digit_char (n `mod` 10)) acc in
      if (n `div` 10 =? 0)%nat then acc' else str_digits fuel' (n `div` 10) acc'
  end.

Definition py_str_nat (n : nat) : string := str_digits (S n) n "".

(** [str(z)] for an integer. *)
Definition py_str_int (z : Z) : string :=
  if bool_decide (z < 0) then ("-" +:+ py_str_nat (Z.to_nat (- z)))%string
  else py_str_nat (Z.to_nat z).

(** Concatenation of the texts written to a file, in order. *)
Definition written (texts : list string) : string :=
  foldr String.append EmptyString texts.

Section Writer.

(** ['{}'.format(x)] for a float [x]: the formatting of floats is Python's. *)
Variable format_float : Q → string.

(** [color[0] == 255 and color[1] == 255 and color[2] == 255] *)
Definition is_white (color : Z * Z * Z) : bool :=
  bool_decide (color.1.1 = 255) && bool_decide (color.1.2 = 255)
  && bool_decide (color.2 = 255).

(** What the body of the loop over the points writes for one point. *)
Definition point_text (color : Z * Z * Z) (p_3d : point3) : string :=
  written
    ([ (format_float p_3d.1.1 +:+ " " +:+ format_float p_3d.1.2 +:+ " "
        +:+ format_float p_3d.2)%string ]
     ++ (if negb (is_white color)
         then [ (" " +:+ py_str_int color.1.1 +:+ " " +:+ py_str_int color.1.2
                 +:+ " " +:+ py_str_int color.2 +:+ " 255")%string ]
         else [])
     ++ [ String LF "" ]).

(** [write_point_cloud_ply(filename, point_cloud, color)]: the characters
    written to the file. *)
Definition write_point_cloud_ply (point_cloud : list point3)
    (color : Z * Z * Z) : string :=
  let n_points := length point_cloud in
  written
    ([ "ply
"%string;
       "format ascii 1.0
"%string;
       ("element vertex " +:+ py_str_nat n_points +:+ String LF "")%string;
       "property float x
property float y
property float z
"%string ]
     ++ (if negb (is_white color)
         then [ "property uchar red
property uchar green
property uchar blue
property uchar alpha
"%string;
                "element face 0
property list uchar int vertex_indices
"%string ]
         else [])
     ++ [ "end_header
"%string ]
     ++ (point_text color <$> point_cloud)).

End Writer.

(** A formatting of the two floats of the example cloud. *)
Definition format_example (q : Q) : string :=
  if Qeq_bool q (15 # 10) then "1.5"%string else "-2.25"%string.

Definition example_cloud : list point3 :=
  [ ((15 # 10)%Q, (-225 # 100)%Q, (15 # 10)%Q);
    ((-225 # 100)%Q, (-225 # 100)%Q, (15 # 10)%Q) ].

(** A non-empty text of decimal digits. *)
Definition is_decimal (s : string) : bool :=
  negb (String.eqb s "") && all_chars is_digit s.

(** A text within one line: it holds no line feed and no carriage return. *)
Definition one_line (s : string) : bool :=
  negb (has_char LF s) && negb (has_char CR s).

(** The text does not go on with a digit or a decimal point. *)
Definition number_ends (s : string) : bool :=
  match s with
  | EmptyString => true
  | String c _ => negb (is_digit c) && negb (Ascii.eqb c ".")
  end.

(** A line of the file: a text within one line, and the line feed. *)
Definition is_line (l : string) : Prop :=
  ∃ body, l = (body +:+ String LF "")%string ∧ one_line body = true.

(** The lines of the header, by colour. *)
Definition header_lines (n : nat) (white : bool) : list string :=
  [ "ply
"%string; "format ascii 1.0
"%string; ("element vertex " +:+ py_str_nat n +:+ String LF "")%string;
    "property float x
"%string; "property float y
"%string; "property float z
"%string ]
  ++ (if white then []
      else [ "property uchar red
"%string; "property uchar green
"%string; "property uchar blue
"%string; "property uchar alpha
"%string; "element face 0
"%string; "property list uchar int vertex_indices
"%string ])
  ++ [ "end_header
"%string ].

(* ===================================================================== *)
(** * compute_sift_order                                                   *)
(* ===================================================================== *)

(** [np.sum(np.sum(np.vstack((obs_im1, obs_im2)), axis=0) == 2)] *)
Definition sift_n_matches (C : matrix) (im1 im2 : nat) : Z :=
  let obs_im1 := observed (row C (2 * im1)) in
  let obs_im2 := observed (row C (2 * im2)) in
  np_sum ((λ s, Z.b2z (s =? 2)) <$> zip_with Z.add obs_im1 obs_im2).

(** The two nested [for] loops; the state is [n_correspondences_filt] and
    [tmp_pairs]. *)
Definition sift_body (C : matrix) (im1 im2 : nat)
    (st : list Z * list (nat * nat)) : list Z * list (nat * nat) :=
  (st.1 ++ [sift_n_matches C im1 im2], st.2 ++ [(im1, im2)]).

Definition sift_loop (C : matrix) : list Z * list (nat * nat) :=
  let n_cam := n_cam C in
  foldl (λ st im1,
           foldl (λ st im2, sift_body C im1 im2 st) st
                 (py_range (im1 + 1) n_cam))
        ([], [])
        (py_range 0 n_cam).

(** ['{} {}\n'.format(p[0]+1, p[1]+1)] *)
Definition sift_line (p : nat * nat) : string :=
  (py_str_nat (p.1 + 1) +:+ " " +:+ py_str_nat (p.2 + 1) +:+ String LF "")%string.

(** [for index in sorted_indices]: the texts written, in order. *)
Fixpoint sift_write_loop (tmp_pairs : list (nat * nat)) (idxs : list nat)
    : result (list string) :=
  match idxs with
  | [] => Ok []
  | index :: idxs' =>
      p ← py_getitem tmp_pairs index;
      texts ← sift_write_loop tmp_pairs idxs';
      Ok (sift_line p :: texts)
  end.

Section Sift.

(** [np.argsort]: numpy does not fix the order among equal values. *)
Variable np_argsort : list Z → list nat.

(** [compute_sift_order(C, output_dir)]: the name of the file written and
    its characters; printing is left out. *)
Definition compute_sift_order (C : matrix) (output_dir : string)
    : result (string * string) :=
  let '(n_correspondences_filt, tmp_pairs) := sift_loop C in
  let sorted_indices := reverse (np_argsort n_correspondences_filt) in
  let output_fname := path_join output_dir "sift_order.txt" in
  texts ← sift_write_loop tmp_pairs sorted_indices;
  Ok (output_fname, written texts).

End Sift.

(** What [np.argsort] returns on [xs]: the positions of [xs], each once, in
    an order along which the values do not decrease. *)
Definition is_argsort (xs : list Z) (idxs : list nat) : Prop :=
  idxs ≡ₚ seq 0 (length xs)
  ∧ ∀ a b ia ib va vb, (a ≤ b)%nat →
      idxs !! a = Some ia → idxs !! b = Some ib →
      xs !! ia = Some va → xs !! ib = Some vb → va ≤ vb.

(** The pair of camera indices as [get_predefined_pairs] returns it. *)
Definition pair_of_cameras (p : nat * nat) : pair := (Z.of_nat p.1, Z.of_nat p.2).

(** Twelve cameras that observe nothing, and the positions in order: an
    argsort of equal counts. *)
Definition twelve_blind_cameras : matrix := replicate 24 [NaN; NaN].

Definition argsort_of_equal (xs : list Z) : list nat := seq 0 (length xs).

(* ===================================================================== *)
(** * rpc_rpcm_to_geotiff_format                                           *)
(* ===================================================================== *)

(** Outcome of code that reads a dict: a value, or [KeyError] with the key
    that is missing. *)
Inductive keyed (A : Type) : Type :=
  | Got (a : A)
  | KeyError (key : string).
Arguments Got {A} a.
Arguments KeyError {A} key.

#[global] Instance keyed_ret : MRet keyed := λ A a, Got a.
#[global] Instance keyed_bind : MBind keyed := λ A B k r,
  match r with
  | Got a => k a
  | KeyError key => KeyError key
  end.

(** [s[1:-1]] *)
Fixpoint drop_last (s : string) : string :=
  match s with
  | EmptyString => EmptyString
  | String c EmptyString => EmptyString
  | String c s' => String c (drop_last s')
  end.

Definition slice_1_m1 (s : string) : string :=
  match s with
  | EmptyString => EmptyString
  | String _ s' => drop_last s'
  end.

(** [s.replace(',', '')] *)
Fixpoint remove_commas (s : string) : string :=
  match s with
  | EmptyString => EmptyString
  | String c s' =>
      if Ascii.eqb c "," then remove_commas s' else String c (remove_commas s')
  end.

Section Rpc.

(** The values of the dict and their [str]: numbers and lists of numbers,
    printed by Python. *)
Variable value : Type.
Variable py_str : value → string.

(** [d[key]] *)
Definition dict_get (d : gmap string value) (key : string) : keyed value :=
  match d !! key with
  | Some v => Got v
  | None => KeyError key
  end.

(** [output_dict[k_out] = str(input_dict[k_in])] *)
Definition copy_scalar (input_dict : gmap string value) (k_out k_in : string)
    (output_dict : gmap string string) : keyed (gmap string string) :=
  v ← dict_get input_dict k_in;
  Got (<[k_out := py_str v]> output_dict).

(** [output_dict[k_out] = str(input_dict[k_in])[1:-1].replace(',', '')] *)
Definition copy_coeffs (input_dict : gmap string value) (k_out k_in : string)
    (output_dict : gmap string string) : keyed (gmap string string) :=
  v ← dict_get input_dict k_in;
  Got (<[k_out := remove_commas (slice_1_m1 (py_str v))]> output_dict).

Definition rpc_rpcm_to_geotiff_format (input_dict : gmap string value)
    : keyed (gmap string string) :=
  let output_dict : gmap string string := ∅ in
  output_dict ← copy_scalar input_dict "LINE_OFF" "row_offset" output_dict;
  output_dict ← copy_scalar input_dict "SAMP_OFF" "col_offset" output_dict;
  output_dict ← copy_scalar input_dict "LAT_OFF" "lat_offset" output_dict;
  output_dict ← copy_scalar input_dict "LONG_OFF" "lon_offset" output_dict;
  output_dict ← copy_scalar input_dict "HEIGHT_OFF" "alt_offset" output_dict;
  output_dict ← copy_scalar input_dict "LINE_SCALE" "row_scale" output_dict;
  output_dict ← copy_scalar input_dict "SAMP_SCALE" "col_scale" output_dict;
  output_dict ← copy_scalar input_dict "LAT_SCALE" "lat_scale" output_dict;
  output_dict ← copy_scalar input_dict "LONG_SCALE" "lon_scale" output_dict;
  output_dict ← copy_scalar input_dict "HEIGHT_SCALE" "alt_scale" output_dict;
  output_dict ← copy_coeffs input_dict "LINE_NUM_COEFF" "row_num" output_dict;
  output_dict ← copy_coeffs input_dict "LINE_DEN_COEFF" "row_den" output_dict;
  output_dict ← copy_coeffs input_dict "SAMP_NUM_COEFF" "col_num" output_dict;
  output_dict ← copy_coeffs input_dict "SAMP_DEN_COEFF" "col_den" output_dict;
  if bool_decide (is_Some (input_dict !! "lon_num"))
  then
    output_dict ← copy_coeffs input_dict "LON_NUM_COEFF" "lon_num" output_dict;
    output_dict ← copy_coeffs input_dict "LON_DEN_COEFF" "lon_den" output_dict;
    output_dict ← copy_coeffs input_dict "LAT_NUM_COEFF" "lat_num" output_dict;
    output_dict ← copy_coeffs input_dict "LAT_DEN_COEFF" "lat_den" output_dict;
    Got output_dict
  else Got output_dict.

End Rpc.

(** The keys read, in the order of reading, and the keys written. *)
Definition rpc_keys_read (with_lon : bool) : list string :=
  [ "row_offset"; "col_offset"; "lat_offset"; "lon_offset"; "alt_offset";
    "row_scale"; "col_scale"; "lat_scale"; "lon_scale"; "alt_scale";
    "row_num"; "row_den"; "col_num"; "col_den" ]%string
  ++ (if with_lon then [ "lon_num"; "lon_den"; "lat_num"; "lat_den" ]%string else []).

Definition rpc_coeff_keys : list string :=
  [ "LINE_NUM_COEFF"; "LINE_DEN_COEFF"; "SAMP_NUM_COEFF"; "SAMP_DEN_COEFF";
    "LON_NUM_COEFF"; "LON_DEN_COEFF"; "LAT_NUM_COEFF"; "LAT_DEN_COEFF" ]%string.

Definition rpc_keys_written (with_lon : bool) : list string :=
  [ "LINE_OFF"; "SAMP_OFF"; "LAT_OFF"; "LONG_OFF"; "HEIGHT_OFF";
    "LINE_SCALE"; "SAMP_SCALE"; "LAT_SCALE"; "LONG_SCALE"; "HEIGHT_SCALE";
    "LINE_NUM_COEFF"; "LINE_DEN_COEFF"; "SAMP_NUM_COEFF"; "SAMP_DEN_COEFF" ]%string
  ++ (if with_lon
      then [ "LON_NUM_COEFF"; "LON_DEN_COEFF"; "LAT_NUM_COEFF"; "LAT_DEN_COEFF" ]%string
      else []).

(** An rpc without the inverse model, the values given by their [str]. *)
Definition example_rpc : gmap string string :=
  list_to_map ((λ k, (k, "[1.0, 0.5, 0.0]"%string)) <$> rpc_keys_read false).

(** The texts of the coefficients hold no comma. *)
Definition comma_free (out : gmap string string) : Prop :=
  ∀ k s, k ∈ rpc_coeff_keys → out !! k = Some s → has_char "," s = false.

(* ===================================================================== *)
(** * Properties                                                           *)
(* ===================================================================== *)

(** The helpers on the strings and numbers of a few inputs. *)
Example python_helpers_examples :
  py_split "  12 ab  7
" = ["12"; "ab"; "7"]%string
  ∧ py_split_on " " "a  b" = ["a"; ""; "b"]%string
  ∧ py_split_on " " "" = [""]%string
  ∧ basename "dir/sub/im.tif" = "im.tif"%string
  ∧ basename "im" = "im"%string
  ∧ dirname "/a/b/c.tif" = "/a/b"%string
  ∧ dirname "c.tif" = ""%string
  ∧ dirname "/c.tif" = "/"%string
  ∧ dirname "a//c.tif" = "a"%string
  ∧ path_join "/a/b" "std/c.tif" = "/a/b/std/c.tif"%string
  ∧ path_join "" "std/c.tif" = "std/c.tif"%string
  ∧ py_strip "  a b 
" = "a b"%string
  ∧ py_int "0123" = Ok 123
  ∧ py_isdigit (String "1" (String (ascii_of_nat 178) "")) = true
  ∧ py_int (String "1" (String (ascii_of_nat 178) "")) = Raise ValueError
  ∧ index_line "7 x 12 3
" = Ok (6, 11)
  ∧ int_of_float (-7 # 2) = -3.
Proof. vm_compute. repeat split. Qed.

Example ply_parsing_examples :
  findall_numbers "1.5 -2.25 3" = ["1.5"; "-2.25"; "3"]%string
  ∧ findall_numbers "-5 +.5 12. 1e5 1.2.3" = ["5"; "+.5"; "12"; "1"; "5"; "1.2"; ".3"]%string
  ∧ findall_numbers "element vertex 541636" = ["541636"]%string
  ∧ findall_numbers "end_header" = []
  ∧ float_of_match "-2.25" = (-225 # 100)%Q
  ∧ float_of_match "+.5" = (5 # 10)%Q
  ∧ float_of_match "12" = 12%Q
  ∧ read_point_cloud_ply ["a";"b";"c";"d";"e";"f";"g";"1 2 3
"; "4.5 5 6"]%string = Ok [(1%Q,2%Q,3%Q); ((45#10)%Q,5%Q,6%Q)].
Proof. vm_compute. repeat split. Qed.

(* --------------------------------------------------------------------- *)
(** ** save_geotiff                                                        *)
(* --------------------------------------------------------------------- *)

(** C10. Two calls of [save_geotiff] that differ only in [epsg_code] write
    the same file with the same profile, and the coordinate reference
    system recorded is the constant ['epsg:32614']. *)
Theorem save_geotiff_ignores_epsg_code {pixel : Type}
    (filename : string) (input_im : image pixel) (e1 e2 : Z) (x y r : Q) :
  save_geotiff filename input_im e1 x y r = save_geotiff filename input_im e2 x y r
  ∧ rf_profile (save_geotiff filename input_im e1 x y r)
    = rf_profile (save_geotiff filename input_im e2 x y r)
  ∧ p_crs (rf_profile (save_geotiff filename input_im e1 x y r)) = "epsg:32614"%string.
Proof.
  unfold save_geotiff. destruct (image_shape input_im) as [h w]. done.
Qed.

(* --------------------------------------------------------------------- *)
(** ** binary64: floor, ceil and int are exact                             *)
(* --------------------------------------------------------------------- *)

Lemma iter_xO_pow (p d : positive) :
  Zpos (Pos.iter xO p d) = Zpos p * 2 ^ Zpos d.
Proof.
  induction d as [|d IH] using Pos.peano_ind.
  - simpl. lia.
  - rewrite Pos.iter_succ, Pos2Z.inj_succ, Z.pow_succ_r by lia.
    rewrite Pos2Z.inj_xO, IH. lia.
Qed.

(** Aligning a mantissa keeps the number. *)
Lemma shl_align_value (p m : positive) (e' e : Z) :
  shl_align p 0 e' = (m, e) → e ≤ 0 ∧ Zpos m = Zpos p * 2 ^ (- e).
Proof.
  unfold shl_align. rewrite Z.sub_0_r. destruct e' as [|q|q].
  - intros [= <- <-]. simpl. lia.
  - intros [= <- <-]. simpl. lia.
  - intros [= <- <-]. split; [lia|]. rewrite iter_xO_pow. done.
Qed.

Lemma float_value_of_pos (s : bool) (p : positive) :
  (float_value (float_of_pos s p) == inject_Z (if s then Zneg p else Zpos p))%Q.
Proof.
  unfold float_of_pos.
  destruct (shl_align p 0 _) as [m e] eqn:E.
  apply shl_align_value in E as [He Hm]. unfold float_value.
  assert ((if bool_decide (0 ≤ e) then inject_Z (Z.pos m * 2 ^ e)
           else Z.pos m # Z.to_pos (2 ^ (- e))) == inject_Z (Zpos p))%Q as Hmag.
  { case_bool_decide as H0.
    - assert (e = 0) as -> by lia. simpl in Hm. rewrite Hm. simpl.
      unfold Qeq. simpl. lia.
    - unfold Qeq. cbn [Qnum Qden inject_Z].
      rewrite Z2Pos.id by (apply Z.pow_pos_nonneg; lia). lia. }
  destruct s; [|exact Hmag]. rewrite Hmag. unfold Qeq. simpl. lia.
Qed.

Lemma float_value_of_Z (szero : bool) (z : Z) :
  (float_value (float_of_Z szero z) == inject_Z z)%Q.
Proof.
  destruct z as [|p|p]; [done|apply (float_value_of_pos false)
                             |apply (float_value_of_pos true)].
Qed.

Lemma is_finite_of_Z (szero : bool) (z : Z) : is_finite (float_of_Z szero z) = true.
Proof.
  destruct z as [|p|p]; [done|..]; unfold float_of_Z, float_of_pos;
    by destruct (shl_align _ _ _).
Qed.

(** A float of exponent zero or more stands for an integer. *)
Lemma float_value_integer (s : bool) (m : positive) (e : Z) :
  0 ≤ e →
  float_value (S754_finite s m e)
  = inject_Z (if s then - (Zpos m * 2 ^ e) else Zpos m * 2 ^ e).
Proof.
  intros He. unfold float_value. rewrite bool_decide_eq_true_2 by done.
  by destruct s.
Qed.

Lemma Qfloor_inject_Z (z : Z) : Qfloor (inject_Z z) = z.
Proof. unfold Qfloor, inject_Z. apply Z.div_1_r. Qed.

Lemma Qceiling_inject_Z (z : Z) : Qceiling (inject_Z z) = z.
Proof. unfold Qceiling. change (- inject_Z z)%Q with (inject_Z (- z)).
  rewrite Qfloor_inject_Z. lia. Qed.

(** [np.floor] and [np.ceil] do not round and keep a float finite. *)
Lemma np_floor_exact (x : float) :
  is_finite x = true →
  is_finite (np_floor x) = true
  ∧ (float_value (np_floor x) == inject_Z (Qfloor (float_value x)))%Q.
Proof.
  destruct x as [s|s| |s m e]; try done.
  intros _. unfold np_floor. case_bool_decide as He.
  - split; [done|]. rewrite float_value_integer by done.
    by rewrite Qfloor_inject_Z.
  - split; [apply is_finite_of_Z|apply float_value_of_Z].
Qed.

Lemma np_ceil_exact (x : float) :
  is_finite x = true →
  is_finite (np_ceil x) = true
  ∧ (float_value (np_ceil x) == inject_Z (Qceiling (float_value x)))%Q.
Proof.
  destruct x as [s|s| |s m e]; try done.
  intros _. unfold np_ceil. case_bool_decide as He.
  - split; [done|]. rewrite float_value_integer by done.
    by rewrite Qceiling_inject_Z.
  - split; [apply is_finite_of_Z|apply float_value_of_Z].
Qed.

(** [int()] gives back an integer held in a float. *)
Lemma int_of_float_integer (q : Q) (z : Z) :
  (q == inject_Z z)%Q → int_of_float q = z.
Proof.
  unfold Qeq, int_of_float. destruct q as [n d]. simpl. intros H.
  rewrite Z.mul_1_r in H. subst n. apply Z.quot_mul. lia.
Qed.

Lemma float_to_int_integer (x : float) (z : Z) :
  is_finite x = true → (float_value x == inject_Z z)%Q → float_to_int x = Ok z.
Proof.
  intros Hfin Hx. destruct x as [s|s| |s m e]; try done.
  - simpl in *. by rewrite (int_of_float_integer _ _ Hx).
  - unfold float_to_int. by rewrite (int_of_float_integer _ _ Hx).
Qed.

Lemma exact_spec (r : float) (q : Q) :
  exact r q = true → is_finite r = true ∧ (float_value r == q)%Q.
Proof.
  unfold exact. intros H. apply andb_true_iff in H as [H1 H2].
  split; [done|]. by apply Qeq_bool_iff.
Qed.

(* --------------------------------------------------------------------- *)
(** ** run_plyflatten: grid                                                *)
(* --------------------------------------------------------------------- *)

(** C7, as the code has it.  The region of interest is computed in
    binary64, each division, subtraction, multiplication and addition
    rounded.  On an input on which none of them rounds, it is the grid of
    the data model: xoff = floor(xmin/res)·res, yoff = ceil(ymax/res)·res,
    width = floor((xmax-xmin)/res) + 1, height = floor((ymax-ymin)/res) + 1;
    floor, ceil and int never round. *)
Theorem compute_roi_without_rounding (bbx : utm_bbx) (res : float) :
  no_rounding bbx res = true →
  ∃ r, compute_roi bbx res = Ok r
    ∧ (float_value (xoff r) == grid_xoff (float_value (xmin bbx)) (float_value res))%Q
    ∧ (float_value (yoff r) == grid_yoff (float_value (ymax bbx)) (float_value res))%Q
    ∧ xsize r
      = grid_width (float_value (xmin bbx)) (float_value (xmax bbx)) (float_value res)
    ∧ ysize r
      = grid_height (float_value (ymin bbx)) (float_value (ymax bbx)) (float_value res).
Proof.
  unfold no_rounding. cbv zeta. intros H.
  repeat match type of H with
         | (_ && exact _ _)%bool = true =>
             let E := fresh "E" in apply andb_true_iff in H as [H E];
             apply exact_spec in E as [? E]
         end.
  apply exact_spec in H as [? Eqx].
  rename E into Eay, E0 into Ewy, E1 into Edy, E2 into Emy, E3 into Eqy,
         E4 into Eax, E5 into Ewx, E6 into Edx, E7 into Emx.
  destruct (np_floor_exact (float_div (xmin bbx) res)) as [_ Hqx]; [done|].
  destruct (np_ceil_exact (float_div (ymax bbx) res)) as [_ Hqy]; [done|].
  destruct (np_floor_exact (float_div (float_sub (xmax bbx) (xmin bbx)) res))
    as [_ Hwx]; [done|].
  destruct (np_floor_exact (float_div (float_sub (ymax bbx) (ymin bbx)) res))
    as [_ Hwy]; [done|].
  unfold compute_roi.
  rewrite (float_to_int_integer
             (float_add (np_floor (float_div (float_sub (xmax bbx) (xmin bbx)) res))
                        (float_of_Z false 1))
             (grid_width (float_value (xmin bbx)) (float_value (xmax bbx))
                         (float_value res))).
  2: done.
  2: { unfold grid_width. rewrite inject_Z_plus, Eax, Hwx, Ewx, Edx. reflexivity. }
  cbn [mbind result_bind].
  rewrite (float_to_int_integer
             (float_add (np_floor (float_div (float_sub (ymax bbx) (ymin bbx)) res))
                        (float_of_Z false 1))
             (grid_height (float_value (ymin bbx)) (float_value (ymax bbx))
                          (float_value res))).
  2: done.
  2: { unfold grid_height. rewrite inject_Z_plus, Eay, Hwy, Ewy, Edy. reflexivity. }
  cbn [mbind result_bind]. eexists. split; [reflexivity|].
  cbn [xoff yoff xsize ysize]. unfold grid_xoff, grid_yoff.
  split; [|split; [|done]].
  - rewrite Emx, Hqx, Eqx. reflexivity.
  - rewrite Emy, Hqy, Eqy. reflexivity.
Qed.

Lemma compute_roi_without_rounding_witness :
  no_rounding example_bbx (float_of_decimal 1 1) = true
  ∧ (∃ r, compute_roi example_bbx (float_of_decimal 1 1) = Ok r
       ∧ (float_value (xoff r)
          == grid_xoff (float_value (xmin example_bbx))
                       (float_value (float_of_decimal 1 1)))%Q
       ∧ (float_value (yoff r)
          == grid_yoff (float_value (ymax example_bbx))
                       (float_value (float_of_decimal 1 1)))%Q
       ∧ xsize r
         = grid_width (float_value (xmin example_bbx)) (float_value (xmax example_bbx))
                      (float_value (float_of_decimal 1 1))
       ∧ ysize r
         = grid_height (float_value (ymin example_bbx)) (float_value (ymax example_bbx))
                       (float_value (float_of_decimal 1 1)))
  ∧ compute_roi example_bbx (float_of_decimal 1 1)
    = Ok (Roi (float_of_decimal 0 1) (float_of_decimal 5 1) 10 5).
Proof.
  split; [vm_compute; reflexivity|]. split; [|vm_compute; reflexivity].
  apply (compute_roi_without_rounding example_bbx (float_of_decimal 1 1)).
  vm_compute. reflexivity.
Defined.

(** C7, as stated, fails.  With the resolution 0.1 (the float nearest to
    it) and the box from 1 to 2, the quotient 1 / 0.1 rounds up to 10: the
    code gives the origin 1 and 11 cells, where the formulas give an origin
    below 1 and 10 cells.  With the box from 0.3 to 0.6 the quotient
    0.3 / 0.1 rounds below 3: the code gives 3 cells, where the formula on
    the decimal numbers gives 4. *)
Lemma compute_roi_rounds :
  (∃ r, compute_roi one_two_bbx (float_of_decimal 1 10) = Ok r
     ∧ xoff r = float_of_decimal 1 1 ∧ xsize r = 11 ∧ ysize r = 11
     ∧ ¬ (float_value (xoff r)
          == grid_xoff (float_value (xmin one_two_bbx))
                       (float_value (float_of_decimal 1 10)))%Q
     ∧ xsize r ≠ grid_width (float_value (xmin one_two_bbx))
                            (float_value (xmax one_two_bbx))
                            (float_value (float_of_decimal 1 10)))
  ∧ grid_width (float_value (xmin one_two_bbx)) (float_value (xmax one_two_bbx))
               (float_value (float_of_decimal 1 10)) = 10
  ∧ (∃ r, compute_roi tenths_bbx (float_of_decimal 1 10) = Ok r ∧ xsize r = 3)
  ∧ grid_width (3 # 10) (6 # 10) (1 # 10) = 4.
Proof.
  split; [|split; [vm_compute; reflexivity|split; [|vm_compute; reflexivity]]].
  - eexists. split; [vm_compute; reflexivity|]. cbn [xoff xsize ysize].
    split; [vm_compute; reflexivity|]. split; [reflexivity|]. split; [reflexivity|].
    split; [|vm_compute; discriminate].
    intros H. vm_compute in H. discriminate.
  - eexists. split; [vm_compute; reflexivity|]. reflexivity.
Qed.

(* --------------------------------------------------------------------- *)
(** ** Strings and paths                                                   *)
(* --------------------------------------------------------------------- *)

Lemma append_cons (x : ascii) (a b : string) :
  (String x a +:+ b = String x (a +:+ b))%string.
Proof. reflexivity. Qed.

Lemma append_nil_l (b : string) : ("" +:+ b = b)%string.
Proof. reflexivity. Qed.

Lemma append_assoc (a b c : string) : ((a +:+ b) +:+ c = a +:+ (b +:+ c))%string.
Proof.
  induction a as [|x a IH]; [done|]. rewrite !append_cons. by rewrite IH.
Qed.

Lemma append_nil_r (a : string) : (a +:+ "" = a)%string.
Proof. induction a as [|x a IH]; [done|]. rewrite append_cons. by rewrite IH. Qed.

Lemma has_char_append (c : ascii) (a b : string) :
  has_char c (a +:+ b) = has_char c a || has_char c b.
Proof.
  induction a as [|x a IH]; [done|]. rewrite append_cons. simpl.
  rewrite IH. by rewrite orb_assoc.
Qed.

Lemma split_on_from_nonempty (sep : ascii) (cur s : string) :
  split_on_from sep cur s ≠ [].
Proof.
  revert cur. induction s as [|c s IH]; intros cur; simpl; [done|].
  destruct (Ascii.eqb c sep); [done|apply IH].
Qed.






(* --------------------------------------------------------------------- *)
(** ** run_plyflatten: layers                                              *)
(* --------------------------------------------------------------------- *)

Section Layers.

Context {pixel mask aoi : Type}.
Variable plyflatten_from_plyfiles_list :
  list string → float → roi → bool → raster pixel * profile.
Variable apply_mask_to_raster : image pixel → mask → image pixel.
Variable get_binary_mask_from_aoi_lonlat_within_utm_bbx :
  utm_bbx → float → aoi → mask.
Variable np_ones : nat * nat → mask.




End Layers.


(* --------------------------------------------------------------------- *)
(** ** get_predefined_pairs                                                *)
(* --------------------------------------------------------------------- *)

Lemma py_getitem_raise {A : Type} (xs : list A) (i : nat) (e : exn) :
  py_getitem xs i = Raise e → e = IndexError.
Proof. unfold py_getitem. destruct (xs !! i); congruence. Qed.

Lemma py_getitem_fuel {A : Type} (xs : list A) (i : nat) :
  py_getitem xs i ≠ OutOfFuel.
Proof. unfold py_getitem. destruct (xs !! i); congruence. Qed.

(** [xs.index(x)] succeeds when [x in xs]. *)
Lemma py_index_in (x : string) (xs : list string) :
  py_in x xs = true → ∃ i, py_index x xs = Ok i.
Proof.
  induction xs as [|y ys IH]; simpl; [done|].
  destruct (String.eqb x y); simpl; [eauto|].
  intros H. destruct (IH H) as [i ->]. simpl. eauto.
Qed.

(** What a call raises in the loader: a field is lacking, or [int]
    rejects a digit. *)
Definition raises_index_or_value {A : Type} (r : result A) : Prop :=
  r = Raise IndexError ∨ r = Raise ValueError.

Lemma ints_of_cases (tokens : list string) :
  (∃ a, ints_of tokens = Ok a) ∨ ints_of tokens = Raise ValueError.
Proof.
  induction tokens as [|s tokens IH]; simpl; [eauto|].
  unfold py_int. destruct (negb _ && _); simpl; [|by right].
  destruct IH as [[a ->]| ->]; simpl; eauto.
Qed.

Lemma index_line_cases (line : string) :
  (∃ pq, index_line line = Ok pq) ∨ raises_index_or_value (index_line line).
Proof.
  unfold index_line, raises_index_or_value.
  destruct (ints_of_cases (filter (λ s, py_isdigit s = true) (py_split line)))
    as [[a ->]| ->]; simpl; [|right; by right].
  unfold py_getitem. destruct (a !! 0%nat); simpl; [|right; by left].
  destruct (a !! 1%nat); simpl; [left; eauto | right; by left].
Qed.

Lemma filename_line_cases (suffix : string) (fns : list string) (line : string) :
  (∃ r, filename_line suffix fns line = Ok r)
  ∨ filename_line suffix fns line = Raise IndexError.
Proof.
  unfold filename_line.
  set (cs := py_split_on _ _).
  unfold py_getitem. destruct (cs !! 0%nat); simpl; [|by right].
  destruct (cs !! 1%nat); simpl; [|by right].
  destruct (py_in _ fns && py_in _ fns) eqn:Hin; [|left; eauto].
  apply andb_true_iff in Hin as [H1 H2].
  destruct (py_index_in _ _ H1) as [p ->], (py_index_in _ _ H2) as [q ->].
  simpl. left; eauto.
Qed.

(** Past the end of the file [readline] gives the empty string, which has
    no second field. *)
Lemma index_line_eof : index_line "" = Raise IndexError.
Proof. reflexivity. Qed.

Lemma filename_line_eof (suffix : string) (fns : list string) :
  filename_line suffix fns "" = Raise IndexError.
Proof. reflexivity. Qed.

(** The [for] loop needs [n] lines that yield a pair. *)
Lemma index_loop_short (n : nat) (f : file) (pairs : list pair) :
  (length (filter (λ l, index_ok l = true) f) < n)%nat →
  raises_index_or_value (index_loop n f pairs).
Proof.
  revert f pairs. induction n as [|n IH]; intros f pairs Hlt; [lia|].
  destruct f as [|l f]; cbn [index_loop readline].
  - rewrite index_line_eof. by left.
  - destruct (index_line_cases l) as [[pq Hl]| [Hl|Hl]]; rewrite Hl; simpl;
      [|by left|by right].
    assert (index_ok l = true) as Hok by (unfold index_ok; by rewrite Hl).
    apply IH. rewrite filter_cons, decide_True in Hlt by done. simpl in Hlt. lia.
Qed.

Lemma index_loop_length (n : nat) (f : file) (pairs ps : list pair) :
  index_loop n f pairs = Ok ps → length ps = (length pairs + n)%nat.
Proof.
  revert f pairs. induction n as [|n IH]; intros f pairs; cbn [index_loop].
  - intros [= <-]. lia.
  - destruct (readline f) as [l f'].
    destruct (index_line l) as [pq| |]; simpl; [|done..].
    intros H. apply IH in H. rewrite length_app in H. simpl in H. lia.
Qed.

Lemma index_loop_fuel (n : nat) (f : file) (pairs : list pair) :
  index_loop n f pairs ≠ OutOfFuel.
Proof.
  revert f pairs. induction n as [|n IH]; intros f pairs; cbn [index_loop]; [done|].
  destruct (readline f) as [l f'].
  destruct (index_line_cases l) as [[pq Hl]| [Hl|Hl]]; rewrite Hl; simpl;
    [apply IH|done..].
Qed.

(** The [while] loop stops within one iteration per line and one more:
    at the end of the file the next [readline] raises. *)
Lemma filename_loop_terminates (suffix : string) (fns : list string)
    (fuel : nat) (f : file) (pairs : list pair) :
  (length f < fuel)%nat →
  filename_loop suffix fns fuel f pairs ≠ OutOfFuel.
Proof.
  revert fuel pairs. induction f as [|l f IH]; intros fuel pairs Hlt;
    (destruct fuel as [|fuel]; [simpl in Hlt; lia|]); cbn [filename_loop readline];
    (case_bool_decide; [|done]).
  - by rewrite filename_line_eof.
  - destruct (filename_line_cases suffix fns l) as [[r Hl]| Hl]; rewrite Hl; simpl; [|done].
    simpl in Hlt. destruct r; apply IH; lia.
Qed.

Lemma filename_loop_short (suffix : string) (fns : list string)
    (fuel : nat) (f : file) (pairs : list pair) :
  (length f < fuel)%nat →
  (length pairs + length (filter (λ l, filename_ok suffix fns l = true) f) < n_pairs)%nat →
  filename_loop suffix fns fuel f pairs = Raise IndexError.
Proof.
  revert fuel pairs. induction f as [|l f IH]; intros fuel pairs Hfuel Hlt;
    (destruct fuel as [|fuel]; [simpl in Hfuel; lia|]); cbn [filename_loop readline].
  - rewrite bool_decide_eq_true_2 by (simpl in Hlt; lia).
    by rewrite filename_line_eof.
  - rewrite bool_decide_eq_true_2 by lia.
    simpl in Hfuel. rewrite filter_cons in Hlt.
    destruct (filename_line_cases suffix fns l) as [[r Hl]| Hl];
      rewrite Hl; simpl; [|done].
    destruct r as [pq|].
    + assert (filename_ok suffix fns l = true) as Hok
        by (unfold filename_ok; by rewrite Hl).
      rewrite decide_True in Hlt by done. simpl in Hlt.
      apply IH; [lia|]. rewrite length_app. simpl. lia.
    + assert (filename_ok suffix fns l ≠ true) as Hok
        by (unfold filename_ok; by rewrite Hl).
      rewrite decide_False in Hlt by done. apply IH; [lia|done].
Qed.

Lemma filename_loop_length (suffix : string) (fns : list string)
    (fuel : nat) (f : file) (pairs ps : list pair) :
  (length pairs ≤ n_pairs)%nat →
  filename_loop suffix fns fuel f pairs = Ok ps → length ps = n_pairs.
Proof.
  revert f pairs. induction fuel as [|fuel IH]; intros f pairs Hle;
    cbn [filename_loop]; [done|].
  case_bool_decide as Hlt.
  - destruct (readline f) as [l f'].
    destruct (filename_line suffix fns l) as [[pq|]| |]; simpl; try done.
    + apply IH. rewrite length_app. simpl. lia.
    + by apply IH.
  - intros [= <-]. lia.
Qed.

(** The call always ends: with a list or with an exception. *)
Lemma get_predefined_pairs_terminates (f : file) (site order : string)
    (myimages : list string) :
  get_predefined_pairs f site order myimages ≠ OutOfFuel.
Proof.
  unfold get_predefined_pairs.
  destruct (py_in order _); [apply index_loop_fuel|].
  destruct (String.eqb site _); apply filename_loop_terminates; lia.
Qed.

(** A list that is returned has the full number of pairs. *)
Lemma get_predefined_pairs_length (f : file) (site order : string)
    (myimages : list string) (ps : list pair) :
  get_predefined_pairs f site order myimages = Ok ps → length ps = n_pairs.
Proof.
  unfold get_predefined_pairs.
  destruct (py_in order _).
  - intros H. by apply index_loop_length in H.
  - destruct (String.eqb site _); apply filename_loop_length; simpl; lia.
Qed.

(** C3, as the code has it.  Whatever the mode, a pair file with fewer than
    50 valid pair lines makes [get_predefined_pairs] raise: no partial list
    is returned.  The exception is [IndexError], raised at the first line
    that lacks a field or at the end of the file; in the index modes it is
    [ValueError] when [int] rejects a digit of that line. *)
Theorem get_predefined_pairs_short_file (f : file) (site order : string)
    (myimages : list string) :
  (count_valid site order myimages f < n_pairs)%nat →
  raises_index_or_value (get_predefined_pairs f site order myimages)
  ∧ (py_in order ["oracle"; "sift"]%string = false →
     get_predefined_pairs f site order myimages = Raise IndexError).
Proof.
  unfold count_valid, valid_pair_line, get_predefined_pairs.
  destruct (py_in order _).
  - intros H. split; [by apply index_loop_short|done].
  - assert (∀ suffix,
              (length (filter (λ l, filename_ok suffix (basename <$> myimages) l = true) f)
               < n_pairs)%nat →
              filename_loop suffix (basename <$> myimages) (length f + 2) f []
              = Raise IndexError) as Hloop.
    { intros suffix H. apply filename_loop_short; simpl; done || lia. }
    destruct (String.eqb site _); intros H; rewrite (Hloop _ H);
      (split; [by left|done]).
Qed.

Lemma get_predefined_pairs_short_file_witness :
  (count_valid "IARPA" "heuristic" ["/data/a.tif"; "/data/b.tif"]
     file_three_names < n_pairs)%nat
  ∧ raises_index_or_value
      (get_predefined_pairs file_three_names "IARPA" "heuristic"
         ["/data/a.tif"; "/data/b.tif"]).
Proof.
  split; [vm_compute; lia|].
  apply (get_predefined_pairs_short_file file_three_names "IARPA" "heuristic"
           ["/data/a.tif"; "/data/b.tif"]).
  vm_compute. lia.
Defined.

(** C3, as stated, fails: a file with three valid lines does not return
    three pairs, it raises. *)
Lemma get_predefined_pairs_three_lines :
  count_valid "JAX" "oracle" [] file_three_indices = 3%nat
  ∧ get_predefined_pairs file_three_indices "JAX" "oracle" [] = Raise IndexError
  ∧ ¬ (∃ ps, get_predefined_pairs file_three_indices "JAX" "oracle" [] = Ok ps
             ∧ length ps = 3%nat).
Proof.
  split; [reflexivity|]. split; [reflexivity|].
  intros (ps & H & _). vm_compute in H. discriminate.
Qed.

(* --------------------------------------------------------------------- *)
(** ** read_point_cloud_ply                                                *)
(* --------------------------------------------------------------------- *)

Lemma span_digits_length (s d rest : string) :
  span_digits s = (d, rest) →
  String.length s = (String.length d + String.length rest)%nat.
Proof.
  revert d rest. induction s as [|c s IH]; intros d rest; simpl.
  - by intros [= <- <-].
  - destruct (is_digit c).
    + destruct (span_digits s) as [d' rest'] eqn:E. intros [= <- <-].
      simpl. by rewrite (IH d' rest').
    + by intros [= <- <-].
Qed.

Lemma string_eqb_empty_false (s : string) :
  String.eqb s "" = false → (0 < String.length s)%nat.
Proof. destruct s; simpl; [done|lia]. Qed.

(** A match is never empty: scanning goes on in a shorter text. *)
Lemma match_number_shorter (s m rest : string) :
  match_number s = Some (m, rest) → (String.length rest < String.length s)%nat.
Proof.
  unfold match_number, match_decimal, match_integer.
  destruct (span_digits s) as [d r] eqn:Ed.
  set (sg := match s with
             | String c s' => if is_sign c then (String c "", s') else (EmptyString, s)
             | EmptyString => (EmptyString, s)
             end).
  assert (String.length sg.2 ≤ String.length s)%nat as Hsg.
  { subst sg. destruct s as [|c s']; simpl; [lia|]. destruct (is_sign c); simpl; lia. }
  destruct sg as [sign s1]. simpl in Hsg.
  destruct (span_digits s1) as [d1 s2] eqn:E1.
  apply span_digits_length in E1. apply span_digits_length in Ed.
  assert (∀ m' rest', (if String.eqb d "" then None else Some (d, r)) = Some (m', rest') →
          (String.length rest' < String.length s)%nat) as Hint.
  { intros m' rest'. destruct (String.eqb d "") eqn:E; [done|].
    intros [= <- <-]. apply string_eqb_empty_false in E. lia. }
  destruct s2 as [|c s3]; [apply Hint|].
  destruct (Ascii.eqb_spec c ".") as [->|Hne].
  2: { destruct c as [[] [] [] [] [] [] [] []]; try apply Hint; by destruct Hne. }
  destruct (span_digits s3) as [d2 s4] eqn:E3. apply span_digits_length in E3.
  destruct (String.eqb d2 ""); [apply Hint|].
  intros [= <- <-]. simpl in E1. lia.
Qed.

(** The scanning bound in [findall_numbers] is never reached. *)
Lemma findall_from_fuel (fuel : nat) (s : string) :
  (String.length s < fuel)%nat → findall_from fuel s = findall_numbers s.
Proof.
  unfold findall_numbers.
  assert (∀ n s f1 f2, (String.length s < n)%nat → (String.length s < f1)%nat →
            (String.length s < f2)%nat → findall_from f1 s = findall_from f2 s) as H.
  { clear. induction n as [|n IH]; intros s f1 f2 Hn H1 H2; [lia|].
    destruct f1 as [|f1]; [lia|]. destruct f2 as [|f2]; [lia|].
    destruct s as [|c s]; [done|]. cbn [findall_from].
    destruct (match_number (String c s)) as [[m rest]|] eqn:E.
    - apply match_number_shorter in E. f_equal. apply IH; lia.
    - simpl in *. apply IH; lia. }
  intros Hlt. apply (H (S (String.length s))); lia.
Qed.

Lemma parse_point_cases (line : string) :
  (∃ p, parse_point line = Ok p) ∨ parse_point line = Raise IndexError.
Proof.
  unfold parse_point. set (cs := findall_numbers line). unfold py_getitem.
  destruct (cs !! 0%nat); simpl; [|by right].
  destruct (cs !! 1%nat); simpl; [|by right].
  destruct (cs !! 2%nat); simpl; [left; eauto | by right].
Qed.

(** The loop over the rows fills the cloud with the points read from line
    [7] on, one after the other. *)
Lemma ply_rows_loop_spec (content : list string) (k i : nat) (pts : list point3) :
  length content = (i + k + ply_header_lines)%nat →
  length pts = i →
  ply_rows_loop content (seq i k) (pts ++ replicate k (0%Q, 0%Q, 0%Q))
  = (ps ← parse_rows (drop (i + ply_header_lines) content); Ok (pts ++ ps)).
Proof.
  revert i pts. induction k as [|k IH]; intros i pts Hlen Hpts.
  - rewrite drop_ge by lia. simpl. done.
  - cbn [seq ply_rows_loop].
    destruct (lookup_lt_is_Some_2 content (i + ply_header_lines)) as [line Hline]; [lia|].
    rewrite (drop_S _ _ _ Hline). unfold py_getitem at 1. rewrite Hline.
    cbn [parse_rows]. simpl mbind at 1.
    destruct (parse_point_cases line) as [[p Hp]|Hp]; rewrite Hp; [|done].
    simpl mbind at 1.
    replace (<[i:=p]> (pts ++ replicate (S k) (0%Q, 0%Q, 0%Q)))
      with ((pts ++ [p]) ++ replicate k (0%Q, 0%Q, 0%Q)).
    2: { rewrite insert_app_r_alt by lia. rewrite Hpts, Nat.sub_diag.
         simpl. by rewrite <- app_assoc. }
    rewrite IH by (rewrite ?length_app; simpl; lia).
    replace (S i + ply_header_lines)%nat with (S (i + ply_header_lines)) by lia.
    destruct (parse_rows _) as [ps| |]; simpl; [|done..].
    by rewrite <- app_assoc.
Qed.

Lemma parse_rows_cases (rows : list string) :
  (∃ pts, parse_rows rows = Ok pts ∧ length pts = length rows)
  ∨ parse_rows rows = Raise IndexError.
Proof.
  induction rows as [|r rows IH]; simpl; [left; eauto|].
  destruct (parse_point_cases r) as [[p ->]| ->]; simpl; [|by right].
  destruct IH as [(pts & -> & Hlen)| ->]; simpl; [|by right].
  left. exists (p :: pts). simpl. by rewrite Hlen.
Qed.

Lemma read_point_cloud_ply_rows (header rows : list string) :
  length header = ply_header_lines →
  read_point_cloud_ply (header ++ rows) = parse_rows (py_strip <$> rows).
Proof.
  intros Hh. unfold read_point_cloud_ply.
  rewrite fmap_app, length_app, !length_fmap, Hh.
  rewrite bool_decide_eq_false_2 by (unfold ply_header_lines; lia).
  replace (Z.to_nat _) with (length rows) by (unfold ply_header_lines; lia).
  rewrite (ply_rows_loop_spec _ (length rows) 0 []).
  - simpl drop. rewrite drop_app_length' by (by rewrite length_fmap).
    by destruct (parse_rows _).
  - rewrite length_app, !length_fmap, Hh. lia.
  - done.
Qed.

(** C9, as the code has it.  [read_point_cloud_ply] does not look at the
    header: the first 7 lines are skipped whatever they hold, and every
    line after them is read as a point.  The result is that of reading the
    lines that follow as a headerless listing: one point per line, or
    [IndexError] at the first of them that holds fewer than three numbers. *)
Theorem read_point_cloud_ply_skips_seven (header rows : list string) :
  length header = ply_header_lines →
  read_point_cloud_ply (header ++ rows) = parse_rows (py_strip <$> rows)
  ∧ (∀ pts, read_point_cloud_ply (header ++ rows) = Ok pts →
            length pts = length rows)
  ∧ (∀ e, read_point_cloud_ply (header ++ rows) = Raise e → e = IndexError)
  ∧ read_point_cloud_ply (header ++ rows) ≠ OutOfFuel.
Proof.
  intros Hh. rewrite (read_point_cloud_ply_rows header rows Hh).
  split; [done|].
  destruct (parse_rows_cases (py_strip <$> rows)) as [(pts & -> & Hlen)| ->].
  - rewrite length_fmap in Hlen. split; [by intros ? [= <-]|]. done.
  - split; [done|]. split; [by intros e [= <-]|done].
Qed.

Lemma read_point_cloud_ply_skips_seven_witness :
  read_point_cloud_ply (ply_bad_header ++ ["1.5 -2.25 3"]%string)
  = parse_rows (py_strip <$> ["1.5 -2.25 3"]%string)
  ∧ (∀ pts, read_point_cloud_ply (ply_bad_header ++ ["1.5 -2.25 3"]%string) = Ok pts →
            length pts = length ["1.5 -2.25 3"]%string)
  ∧ (∀ e, read_point_cloud_ply (ply_bad_header ++ ["1.5 -2.25 3"]%string) = Raise e →
          e = IndexError)
  ∧ read_point_cloud_ply (ply_bad_header ++ ["1.5 -2.25 3"]%string) ≠ OutOfFuel.
Proof.
  apply (read_point_cloud_ply_skips_seven ply_bad_header ["1.5 -2.25 3"]%string).
  reflexivity.
Defined.

Lemma read_point_cloud_ply_too_short (lines : list string) :
  (length lines < ply_header_lines)%nat → read_point_cloud_ply lines = Raise ValueError.
Proof.
  intros H. unfold read_point_cloud_ply. rewrite length_fmap.
  rewrite bool_decide_eq_true_2; [done|]. unfold ply_header_lines in H. lia.
Qed.

(** C9, as stated, fails: a file whose header has 6 lines (the format line
    is missing) and which holds 2 points is read without any error, and 1
    point is returned. *)
Lemma read_point_cloud_ply_header_mismatch :
  read_point_cloud_ply ply_six_line_header = Ok [(4%Q, 5%Q, 6%Q)]
  ∧ ¬ (∃ e, read_point_cloud_ply ply_six_line_header = Raise e).
Proof.
  split; [vm_compute; reflexivity|].
  intros [e H]. vm_compute in H. discriminate.
Qed.

(* --------------------------------------------------------------------- *)
(** ** build_connectivity_graph: the match counts                          *)
(* --------------------------------------------------------------------- *)

Lemma n_cam_half (C : matrix) : n_cam C = (length C / 2)%nat.
Proof.
  unfold n_cam, int_of_float.
  change (Qnum _) with (Z.of_nat (length C) * 1).
  change (Z.pos (Qden _)) with (Z.of_nat 2).
  rewrite Z.mul_1_r, Z.quot_div_nonneg by lia.
  rewrite <- Nat2Z.inj_div. apply Nat2Z.id.
Qed.

Lemma n_cam_shape (C : matrix) (n_cameras n_trk : nat) :
  has_shape C n_cameras n_trk → n_cam C = n_cameras.
Proof.
  intros [Hlen _]. rewrite n_cam_half, Hlen.
  rewrite Nat.mul_comm. apply Nat.div_mul. lia.
Qed.

(** Row [2·im] exists for every camera [im < n_cam]. *)
Lemma row_in_range (C : matrix) (im : nat) :
  (im < n_cam C)%nat → is_Some (C !! (2 * im)%nat).
Proof.
  rewrite n_cam_half. intros H. apply lookup_lt_is_Some.
  pose proof (Nat.Div0.mul_div_le (length C) 2). lia.
Qed.

Lemma row_length (C : matrix) (n_cameras n_trk k : nat) :
  has_shape C n_cameras n_trk → (k < 2 * n_cameras)%nat → length (row C k) = n_trk.
Proof.
  intros [Hlen Hrows] Hk. unfold row.
  destruct (lookup_lt_is_Some_2 C k) as [r Hr]; [lia|]. rewrite Hr. simpl.
  by eapply (Forall_lookup_1 _ _ _ _ Hrows).
Qed.

Lemma np_sum_snoc (xs : list Z) (x : Z) : np_sum (xs ++ [x]) = np_sum xs + x.
Proof. unfold np_sum. induction xs as [|y xs IH]; simpl; lia. Qed.

Lemma snoc_inv {A : Type} (l : list A) (n : nat) :
  length l = S n → ∃ l' x, l = l' ++ [x] ∧ length l' = n.
Proof.
  intros Hlen. destruct l as [|a l] using rev_ind; [done|].
  rewrite length_app in Hlen. simpl in Hlen. exists l, a. split; [done|lia].
Qed.

Lemma filter_ext_in {A : Type} (P Q : A → Prop)
    `{!∀ x, Decision (P x)} `{!∀ x, Decision (Q x)} (l : list A) :
  (∀ x, x ∈ l → P x ↔ Q x) → filter P l = filter Q l.
Proof.
  induction l as [|a l IH]; intros Hext; [done|].
  rewrite !filter_cons. rewrite IH by (intros x Hx; apply Hext; by right).
  pose proof (Hext a (list_elem_of_here a l)) as Ha.
  destruct (decide (P a)) as [HP|HP], (decide (Q a)) as [HQ|HQ]; tauto || done.
Qed.

Lemma count_columns_ext (P Q : nat → bool) (n : nat) :
  (∀ t, (t < n)%nat → P t = Q t) → count_columns P n = count_columns Q n.
Proof.
  intros H. unfold count_columns. f_equal. f_equal.
  apply filter_ext_in. intros t Ht. apply elem_of_seq in Ht. rewrite H; [done|lia].
Qed.

Lemma count_columns_S (P : nat → bool) (n : nat) :
  count_columns P (S n) = count_columns P n + Z.b2z (P n).
Proof.
  unfold count_columns. rewrite seq_S, filter_app, length_app, Nat.add_0_l.
  rewrite filter_cons, filter_nil.
  destruct (decide (P n = true)) as [->|Hn]; simpl; [lia|].
  apply not_true_is_false in Hn. rewrite Hn. simpl. lia.
Qed.

(** The vectorised count is the number of columns where both rows hold a
    number. *)
Lemma np_sum_logical_and (n : nat) (r1 r2 : list cell) :
  length r1 = n → length r2 = n →
  np_sum ((λ b : bool, 1 * Z.b2z b) <$> np_logical_and (observed r1) (observed r2))
  = count_columns (λ t, is_num r1 t && is_num r2 t) n.
Proof.
  revert r1 r2. induction n as [|n IH]; intros r1 r2 H1 H2.
  - destruct r1, r2; done.
  - destruct (snoc_inv r1 n H1) as (r1' & a & -> & H1').
    destruct (snoc_inv r2 n H2) as (r2' & b & -> & H2').
    unfold observed, np_logical_and.
    rewrite !fmap_app, zip_with_app by (by rewrite !length_fmap, H1', H2').
    rewrite fmap_app.
    change ((λ b0 : bool, 1 * Z.b2z b0) <$> zip_with _ (_ <$> [a]) (_ <$> [b]))
      with [1 * Z.b2z (negb (1 * Z.b2z (negb (np_isnan a)) =? 0)
                       && negb (1 * Z.b2z (negb (np_isnan b)) =? 0))].
    rewrite np_sum_snoc. fold (observed r1') (observed r2').
    fold (np_logical_and (observed r1') (observed r2')).
    rewrite IH by done. rewrite count_columns_S.
    f_equal.
    + apply count_columns_ext. intros t Ht. unfold is_num.
      by rewrite !lookup_app_l by lia.
    + unfold is_num. rewrite !lookup_app_r by lia.
      rewrite H1', H2', Nat.sub_diag. simpl.
      by destruct a, b.
Qed.

Lemma n_matches_joint_x_rows (C : matrix) (n_cameras n_trk i j : nat) :
  has_shape C n_cameras n_trk → (i < n_cameras)%nat → (j < n_cameras)%nat →
  n_matches C i j = joint_x_rows C i j.
Proof.
  intros Hshape Hi Hj. unfold n_matches, joint_x_rows, n_tracks.
  rewrite (row_length C n_cameras n_trk 0 Hshape) by lia.
  apply np_sum_logical_and; eapply row_length; done || lia.
Qed.

Lemma n_matches_sym (C : matrix) (i j : nat) : n_matches C i j = n_matches C j i.
Proof.
  unfold n_matches, np_logical_and. f_equal. f_equal.
  generalize (observed (row C (2 * i))) (observed (row C (2 * j))).
  induction l as [|x xs IH]; intros [|y ys]; simpl; try done.
  f_equal; [apply andb_comm|apply IH].
Qed.

Lemma elem_of_camera_pairs (n i j : nat) :
  (i, j) ∈ camera_pairs n ↔ (i < j < n)%nat.
Proof.
  unfold camera_pairs, py_range. rewrite list_elem_of_bind. split.
  - intros (i' & Hj & Hi). apply list_elem_of_fmap in Hj as (j' & [= -> ->] & Hj).
    apply elem_of_seq in Hi, Hj. lia.
  - intros H. exists i. split.
    + apply list_elem_of_fmap. exists j. split; [done|]. apply elem_of_seq. lia.
    + apply elem_of_seq. lia.
Qed.

Lemma foldl_bind {A B S' : Type} (f : S' → B → S') (g : A → list B)
    (l : list A) (s : S') :
  foldl f s (l ≫= g) = foldl (λ s x, foldl f s (g x)) s l.
Proof.
  revert s. induction l as [|x l IH]; intros s; [done|].
  rewrite bind_cons, foldl_app. apply IH.
Qed.

(** The nested loops visit [camera_pairs] in order. *)
Lemma matches_loop_flat (C : matrix) :
  matches_loop C
  = foldl (λ st p, matches_body C p.1 p.2 st) (initial_state (n_cam C))
          (camera_pairs (n_cam C)).
Proof.
  unfold matches_loop, camera_pairs. fold (initial_state (n_cam C)).
  rewrite foldl_bind.
  generalize (initial_state (n_cam C)).
  generalize (py_range 0 (n_cam C)). intros l.
  induction l as [|i l IH]; intros st; [done|].
  simpl. rewrite foldl_fmap. apply IH.
Qed.

Lemma matches_fold_lists (C : matrix) (l : list (nat * nat)) (st : matches_state) :
  let st' := foldl (λ st p, matches_body C p.1 p.2 st) st l in
  st_tmp_pairs st' = st_tmp_pairs st ++ l
  ∧ st_n_correspondences_filt st'
    = st_n_correspondences_filt st ++ ((λ p, n_matches C p.1 p.2) <$> l).
Proof.
  revert st. induction l as [|[i j] l IH]; intros st; simpl.
  - by rewrite !app_nil_r.
  - destruct (IH (matches_body C i j st)) as [-> ->]. simpl.
    by rewrite <- !app_assoc.
Qed.

Lemma matches_loop_tmp_pairs (C : matrix) :
  st_tmp_pairs (matches_loop C) = camera_pairs (n_cam C).
Proof. rewrite matches_loop_flat. apply matches_fold_lists. Qed.

Lemma matches_loop_counts (C : matrix) :
  st_n_correspondences_filt (matches_loop C)
  = (λ p, n_matches C p.1 p.2) <$> camera_pairs (n_cam C).
Proof. rewrite matches_loop_flat. apply matches_fold_lists. Qed.

(** Reading and writing a square matrix. *)
Lemma square_set2 (n : nat) (A : list (list Z)) (i j : nat) (v : Z) :
  square n A → square n (set2 A i j v).
Proof.
  intros [Hlen Hrows]. unfold set2. split; [by rewrite length_alter|].
  apply Forall_lookup. intros k r Hk.
  destruct (decide (k = i)) as [->|Hne].
  - rewrite list_lookup_alter_eq in Hk.
    destruct (A !! i) as [r'|] eqn:Hi; simpl in Hk; [|done].
    injection Hk as <-.
    rewrite length_insert. by eapply (Forall_lookup_1 _ _ _ _ Hrows).
  - rewrite list_lookup_alter_ne in Hk by done.
    by eapply (Forall_lookup_1 _ _ _ _ Hrows).
Qed.

Lemma get2_set2_eq (n : nat) (A : list (list Z)) (i j : nat) (v : Z) :
  square n A → (i < n)%nat → (j < n)%nat → get2 (set2 A i j v) i j = Some v.
Proof.
  intros [Hlen Hrows] Hi Hj. unfold get2, set2.
  rewrite list_lookup_alter_eq.
  destruct (lookup_lt_is_Some_2 A i) as [r Hr]; [lia|]. rewrite Hr. simpl.
  apply list_lookup_insert_eq.
  rewrite (Forall_lookup_1 _ _ _ _ Hrows Hr). done.
Qed.

Lemma get2_set2_ne (A : list (list Z)) (i j i' j' : nat) (v : Z) :
  (i, j) ≠ (i', j') → get2 (set2 A i j v) i' j' = get2 A i' j'.
Proof.
  intros Hne. unfold get2, set2.
  destruct (decide (i = i')) as [<-|Hi].
  - rewrite list_lookup_alter_eq. destruct (A !! i) as [r|]; simpl; [|done].
    apply list_lookup_insert_ne. congruence.
  - by rewrite list_lookup_alter_ne.
Qed.

Lemma square_zeros (n : nat) : square n (replicate n (replicate n 0)).
Proof.
  split; [apply length_replicate|].
  apply Forall_replicate. apply length_replicate.
Qed.

(** After the pairs of [l] have been visited, the entries of [A] on both
    sides of the diagonal hold the counts of these pairs, and the other
    entries are as before. *)
Lemma matches_fold_A (C : matrix) (n : nat) (l : list (nat * nat))
    (st : matches_state) :
  square n (st_A st) →
  (∀ p, p ∈ l → (p.1 < n)%nat ∧ (p.2 < n)%nat) →
  let A' := st_A (foldl (λ st p, matches_body C p.1 p.2 st) st l) in
  square n A'
  ∧ (∀ i j, (i, j) ∈ l ∨ (j, i) ∈ l → get2 A' i j = Some (n_matches C i j))
  ∧ (∀ i j, ¬ ((i, j) ∈ l ∨ (j, i) ∈ l) → get2 A' i j = get2 (st_A st) i j).
Proof.
  intros Hsq. induction l as [|[p q] l IH] using rev_ind; intros Hin.
  - simpl. split; [done|]. split; [|done].
    intros i j [H|H]; by apply elem_of_nil in H.
  - rewrite foldl_app. simpl.
    destruct IH as (Hsq' & Hset & Hkeep).
    { intros x Hx. apply Hin, elem_of_app. by left. }
    destruct (Hin (p, q)) as [Hp Hq]; [apply elem_of_app; right; by left|].
    simpl in Hp, Hq.
    set (A1 := st_A (foldl _ st l)) in *.
    split; [by do 2 apply square_set2|].
    assert (∀ i j, get2 (set2 (set2 A1 p q (n_matches C p q)) q p (n_matches C p q)) i j
                   = if decide ((i, j) = (p, q) ∨ (i, j) = (q, p))
                     then Some (n_matches C i j) else get2 A1 i j) as Hget.
    { intros i j. destruct (decide ((i, j) = (q, p))) as [[= -> ->]|Hqp].
      - rewrite decide_True by by right.
        rewrite (get2_set2_eq n) by (done || by apply square_set2).
        by rewrite n_matches_sym.
      - rewrite get2_set2_ne by done.
        destruct (decide ((i, j) = (p, q))) as [[= -> ->]|Hpq].
        + rewrite decide_True by by left. by rewrite (get2_set2_eq n).
        + rewrite get2_set2_ne by done. rewrite decide_False; [done|]. tauto. }
    split; intros i j Hij; rewrite Hget; case_decide as Hd; try done.
    + apply Hset. rewrite !elem_of_app, !list_elem_of_singleton in Hij.
      destruct Hij as [[?|Heq]|[?|Heq]]; [by left| |by right|];
        exfalso; apply Hd; [by left|]. right. congruence.
    + exfalso. apply Hij. rewrite !elem_of_app, !list_elem_of_singleton.
      destruct Hd as [Hd|Hd]; [left; by right|]. right. right. congruence.
    + apply Hkeep. intros [H|H]; apply Hij; [left|right]; apply elem_of_app; by left.
Qed.

(** Every entry [A[i,j]] and [A[j,i]] with [i < j] holds the count of the
    pair [(i, j)]. *)
Lemma connectivity_matrix_entry (C : matrix) (i j : nat) :
  (i < j < n_cam C)%nat →
  get2 (connectivity_matrix C) i j = Some (n_matches C i j)
  ∧ get2 (connectivity_matrix C) j i = Some (n_matches C i j).
Proof.
  intros Hij. unfold connectivity_matrix. rewrite matches_loop_flat.
  destruct (matches_fold_A C (n_cam C) (camera_pairs (n_cam C))
              (initial_state (n_cam C))) as (_ & Hset & _).
  - apply square_zeros.
  - intros [a b] Hab. apply elem_of_camera_pairs in Hab. simpl. lia.
  - split.
    + apply Hset. left. by apply elem_of_camera_pairs.
    + rewrite (n_matches_sym C i j). apply Hset. right. by apply elem_of_camera_pairs.
Qed.

(** Step (2) keeps, in order, the pairs whose count is above the threshold. *)
Lemma filter_loop_spec (min_matches : Z) (pairs : list (nat * nat)) (f : nat * nat → Z)
    (k a : nat) (acc : list (nat * nat) * list Z) :
  (a + k = length pairs)%nat →
  filter_loop min_matches pairs (f <$> pairs) (seq a k) acc
  = Ok (acc.1 ++ filter (λ p, f p > min_matches) (drop a pairs),
        acc.2 ++ (f <$> filter (λ p, f p > min_matches) (drop a pairs))).
Proof.
  revert a acc. induction k as [|k IH]; intros a acc Hlen.
  - rewrite drop_ge by lia. simpl. rewrite !app_nil_r. by destruct acc.
  - destruct (lookup_lt_is_Some_2 pairs a) as [p Hp]; [lia|].
    cbn [seq filter_loop]. unfold py_getitem.
    rewrite list_lookup_fmap, Hp. simpl.
    rewrite (drop_S _ _ _ Hp), filter_cons.
    case_bool_decide as Hgt.
    + rewrite decide_True by done. simpl. rewrite IH by lia. simpl.
      by rewrite <- !app_assoc.
    + rewrite decide_False by done. by rewrite IH by lia.
Qed.

Lemma filter_edges_spec (C : matrix) (min_matches : Z) :
  filter_edges C min_matches
  = Ok (kept_pairs C min_matches,
        (λ p, n_matches C p.1 p.2) <$> kept_pairs C min_matches).
Proof.
  unfold filter_edges, py_range.
  rewrite matches_loop_tmp_pairs, matches_loop_counts, Nat.sub_0_r.
  by rewrite filter_loop_spec.
Qed.

Lemma elem_of_kept_pairs (C : matrix) (min_matches : Z) (i j : nat) :
  (i, j) ∈ kept_pairs C min_matches ↔ surviving C min_matches i j.
Proof.
  unfold kept_pairs, surviving.
  rewrite list_elem_of_filter, elem_of_camera_pairs. simpl. tauto.
Qed.

(* --------------------------------------------------------------------- *)
(** ** The graph built by add_edge                                         *)
(* --------------------------------------------------------------------- *)

Lemma elem_of_add_node (u w : nat) (G : Graph) :
  w ∈ g_nodes (add_node u G) ↔ w ∈ g_nodes G ∨ w = u.
Proof.
  unfold add_node. case_decide as Hu; simpl.
  - split; [by left|]. intros [?| ->]; done.
  - rewrite elem_of_app, list_elem_of_singleton. done.
Qed.

Lemma NoDup_add_node (u : nat) (G : Graph) :
  NoDup (g_nodes G) → NoDup (g_nodes (add_node u G)).
Proof.
  intros Hnd. unfold add_node. case_decide as Hu; simpl; [done|].
  apply NoDup_app. split; [done|]. split; [|apply NoDup_singleton].
  intros x Hx Hxu. apply list_elem_of_singleton in Hxu as ->. done.
Qed.

Lemma adjacent_add_node (u a b : nat) (G : Graph) :
  (∀ c, adjacent G u c → u ∈ g_nodes G) →
  adjacent (add_node u G) a b ↔ adjacent G a b.
Proof.
  intros Hwf. unfold add_node. case_decide as Hu; [done|].
  unfold adjacent, neighbours. simpl.
  destruct (decide (u = a)) as [<-|Hne].
  - rewrite lookup_insert_eq. simpl. split; [intros Hb; by apply not_elem_of_empty in Hb|].
    intros Hb. exfalso. apply Hu. by eapply Hwf.
  - by rewrite lookup_insert_ne.
Qed.

Lemma elem_of_add_edge (u v w : nat) (G : Graph) :
  w ∈ g_nodes (add_edge u v G) ↔ w ∈ g_nodes G ∨ w = u ∨ w = v.
Proof.
  unfold add_edge. simpl. rewrite !elem_of_add_node. tauto.
Qed.

Lemma adjacent_add_edge (u v a b : nat) (G : Graph) :
  graph_wf G →
  adjacent (add_edge u v G) a b
  ↔ adjacent G a b ∨ (a = u ∧ b = v) ∨ (a = v ∧ b = u).
Proof.
  intros [Hnd Hsrc Htgt].
  assert (∀ x y, adjacent (add_node v (add_node u G)) x y ↔ adjacent G x y) as Hadd.
  { intros x y. rewrite adjacent_add_node.
    - apply adjacent_add_node. intros c. apply Hsrc.
    - intros c Hc. apply adjacent_add_node in Hc; [|intros c'; apply Hsrc].
      apply elem_of_add_node. left. by eapply Hsrc. }
  set (G2 := add_node v (add_node u G)) in *.
  unfold add_edge. fold G2. unfold adjacent at 1. unfold neighbours at 1. simpl.
  rewrite <- (Hadd a b). unfold adjacent, neighbours.
  destruct (decide (v = a)) as [<-|Hva].
  - rewrite lookup_insert_eq. simpl. rewrite elem_of_union, elem_of_singleton.
    destruct (decide (u = v)) as [<-|Huv].
    + rewrite lookup_insert_eq. simpl. rewrite elem_of_union, elem_of_singleton.
      tauto.
    + rewrite lookup_insert_ne by done. intuition congruence.
  - rewrite lookup_insert_ne by done.
    destruct (decide (u = a)) as [<-|Hua].
    + rewrite lookup_insert_eq. simpl. rewrite elem_of_union, elem_of_singleton.
      intuition congruence.
    + rewrite lookup_insert_ne by done. intuition congruence.
Qed.

Lemma graph_wf_add_edge (u v : nat) (G : Graph) :
  graph_wf G → graph_wf (add_edge u v G).
Proof.
  intros Hwf. split.
  - unfold add_edge. simpl. do 2 apply NoDup_add_node. apply Hwf.
  - intros a b Hab. apply adjacent_add_edge in Hab; [|done].
    apply elem_of_add_edge.
    destruct Hab as [Hab|[[-> _]|[-> _]]]; [|tauto..].
    left. by eapply wf_source.
  - intros a b Hab. apply adjacent_add_edge in Hab; [|done].
    apply elem_of_add_edge.
    destruct Hab as [Hab|[[_ ->]|[_ ->]]]; [|tauto..].
    left. by eapply wf_target.
Qed.

Lemma graph_wf_empty : graph_wf empty_graph.
Proof.
  split; [apply NoDup_nil_2|..]; intros a b Hab;
    unfold adjacent, neighbours in Hab; simpl in Hab;
    rewrite lookup_empty in Hab; by apply not_elem_of_empty in Hab.
Qed.

(** The graph has the edges of the list it is built from, in both
    directions, and their end points as nodes. *)
Lemma graph_of_pairs_spec (l : list (nat * nat)) :
  graph_wf (graph_of_pairs l)
  ∧ (∀ a b, adjacent (graph_of_pairs l) a b ↔ (a, b) ∈ l ∨ (b, a) ∈ l)
  ∧ (∀ w, w ∈ g_nodes (graph_of_pairs l) ↔ ∃ p, p ∈ l ∧ (w = p.1 ∨ w = p.2)).
Proof.
  unfold graph_of_pairs. induction l as [|[u v] l IH] using rev_ind.
  - simpl. split; [apply graph_wf_empty|]. split.
    + intros a b. split.
      * intros Hab. unfold adjacent, neighbours in Hab. simpl in Hab.
        rewrite lookup_empty in Hab. by apply not_elem_of_empty in Hab.
      * intros [H|H]; by apply elem_of_nil in H.
    + intros w. split; [intros H; by apply elem_of_nil in H|].
      intros (p & H & _). by apply elem_of_nil in H.
  - rewrite foldl_app. cbn [foldl fst snd]. destruct IH as (Hwf & Hadj & Hnodes).
    split; [by apply graph_wf_add_edge|]. split.
    + intros a b. rewrite adjacent_add_edge by done. rewrite Hadj.
      rewrite !elem_of_app, !list_elem_of_singleton.
      split.
      * intros [[?|?]|[[-> ->]|[-> ->]]]; tauto.
      * intros [[?|[= -> ->]]|[?|[= -> ->]]]; tauto.
    + intros w. rewrite elem_of_add_edge, Hnodes. split.
      * intros [(p & Hp & Hw)|Hw].
        -- exists p. split; [apply elem_of_app; by left|done].
        -- exists (u, v). split; [apply elem_of_app; right; by left|]. simpl. tauto.
      * intros (p & Hp & Hw). apply elem_of_app in Hp as [Hp|Hp].
        -- left. by exists p.
        -- apply list_elem_of_singleton in Hp as ->. simpl in Hw. tauto.
Qed.

(** The first node is the first end point of the first edge. *)
Lemma head_add_node (u : nat) (G : Graph) :
  g_nodes G ≠ [] → head (g_nodes (add_node u G)) = head (g_nodes G).
Proof.
  intros Hne. unfold add_node. case_decide; [done|]. simpl.
  destruct (g_nodes G); done.
Qed.

Lemma add_node_nonempty (u : nat) (G : Graph) :
  g_nodes G ≠ [] → g_nodes (add_node u G) ≠ [].
Proof.
  intros Hne. unfold add_node. case_decide; [done|]. simpl.
  destruct (g_nodes G); done.
Qed.

Lemma graph_of_pairs_head (u v : nat) (l : list (nat * nat)) :
  head (g_nodes (graph_of_pairs ((u, v) :: l))) = Some u.
Proof.
  unfold graph_of_pairs. simpl.
  assert (∀ G, head (g_nodes G) = Some u →
            head (g_nodes (foldl (λ G edge, add_edge edge.1 edge.2 G) G l)) = Some u) as H.
  { induction l as [|[a b] l IH]; intros G HG; [done|]. simpl. apply IH.
    unfold add_edge. simpl.
    assert (g_nodes G ≠ []) as Hne by (intros Heq; by rewrite Heq in HG).
    rewrite head_add_node by by apply add_node_nonempty.
    by rewrite head_add_node. }
  apply H. unfold add_edge. cbn [g_nodes].
  assert (g_nodes (add_node u empty_graph) = [u]) as Hu.
  { unfold add_node. rewrite decide_False; [done|]. apply not_elem_of_nil. }
  rewrite head_add_node; by rewrite Hu.
Qed.

(* --------------------------------------------------------------------- *)
(** ** Breadth-first search and connected components                       *)
(* --------------------------------------------------------------------- *)

Section Bfs.

Variable G : Graph.
Hypothesis G_wf : graph_wf G.

Local Abbreviation N := (list_to_set (g_nodes G) : gset nat).

(** One level: the whole level becomes seen, and the next level holds
    the neighbours of its nodes that were not seen before. *)
Lemma bfs_level_spec (seen thislevel : gset nat) :
  (bfs_level G seen thislevel).1 = seen ∪ thislevel
  ∧ (∀ w, w ∈ (bfs_level G seen thislevel).2
          ↔ (∃ v, v ∈ thislevel ∧ (v ∉ seen) ∧ adjacent G v w)).
Proof.
  unfold bfs_level.
  apply (set_fold_ind_L
           (λ st X, st.1 = seen ∪ X
                    ∧ (∀ w, w ∈ st.2 ↔ (∃ v, v ∈ X ∧ (v ∉ seen) ∧ adjacent G v w)))).
  - simpl. split; [by rewrite union_empty_r_L|].
    intros w. split; [intros H; by apply not_elem_of_empty in H|].
    intros (v & H & _). by apply not_elem_of_empty in H.
  - intros x X [s nx] Hx [Hs Hnx]. simpl in Hs, Hnx. subst s.
    unfold bfs_visit. simpl. case_decide as Hin; simpl.
    + assert (x ∈ seen) as Hseen.
      { apply elem_of_union in Hin as [?|?]; done. }
      split.
      * apply set_eq. intros w. rewrite !elem_of_union, elem_of_singleton.
        intuition congruence.
      * intros w. rewrite Hnx. split.
        -- intros (v & Hv & ?). exists v. rewrite elem_of_union. tauto.
        -- intros (v & Hv & Hvs & ?). exists v.
           apply elem_of_union in Hv as [Hv|Hv]; [|done].
           apply elem_of_singleton in Hv as ->. done.
    + assert (x ∉ seen) as Hseen.
      { intros H. apply Hin, elem_of_union. by left. }
      split.
      * apply set_eq. intros w. rewrite !elem_of_union, elem_of_singleton. tauto.
      * intros w. rewrite elem_of_union, Hnx. split.
        -- intros [(v & Hv & ?)|Hw].
           ++ exists v. rewrite elem_of_union. tauto.
           ++ exists x. rewrite elem_of_union, elem_of_singleton. tauto.
        -- intros (v & Hv & Hvs & Hw).
           apply elem_of_union in Hv as [Hv|Hv].
           ++ apply elem_of_singleton in Hv as ->. by right.
           ++ left. by exists v.
Qed.

(** A set that holds the source, only nodes reachable from it, and the
    neighbours of its members, is the set of the nodes reachable from the
    source. *)
Lemma closed_is_reachable (src : nat) (S' : gset nat) :
  src ∈ S' →
  (∀ w, w ∈ S' → rtc (adjacent G) src w) →
  (∀ a b, a ∈ S' → adjacent G a b → b ∈ S') →
  ∀ w, w ∈ S' ↔ rtc (adjacent G) src w.
Proof.
  intros Hsrc Hreach Hclosed w. split; [apply Hreach|].
  revert w. apply (rtc_ind_r (λ w, w ∈ S')); [done|].
  intros a b _ Hab Ha. by eapply Hclosed.
Qed.

(** The search returns, within the levels it is given, the set of the
    nodes reachable from the source. *)
Lemma bfs_loop_spec (src : nat) (fuel : nat) (seen nextlevel : gset nat) :
  (size (N ∖ seen) + 2 ≤ fuel)%nat →
  nextlevel ⊆ N →
  src ∈ seen ∪ nextlevel →
  (∀ w, w ∈ seen ∪ nextlevel → rtc (adjacent G) src w) →
  (∀ a b, a ∈ seen → adjacent G a b → b ∈ seen ∪ nextlevel) →
  ∃ S', bfs_loop fuel G seen nextlevel = Ok S'
        ∧ (∀ w, w ∈ S' ↔ rtc (adjacent G) src w).
Proof.
  revert seen nextlevel.
  induction fuel as [|fuel IH]; intros seen next Hfuel HN Hsrc Hreach Hclosed; [lia|].
  cbn [bfs_loop]. case_decide as Hempty.
  { subst next. exists seen. split; [done|].
    apply closed_is_reachable.
    - by rewrite union_empty_r_L in Hsrc.
    - intros w Hw. apply Hreach, elem_of_union. by left.
    - intros a b Ha Hab. specialize (Hclosed a b Ha Hab).
      by rewrite union_empty_r_L in Hclosed. }
  destruct (bfs_level_spec seen next) as [Hs Hnx].
  destruct (bfs_level G seen next) as [seen' next']. simpl in Hs, Hnx. subst seen'.
  assert (∀ a b, a ∈ seen ∪ next → adjacent G a b → b ∈ (seen ∪ next) ∪ next')
    as Hclosed'.
  { intros a b Ha Hab. destruct (decide (a ∈ seen)) as [Has|Has].
    - apply elem_of_union. left. by eapply Hclosed.
    - apply elem_of_union. right. apply Hnx. exists a.
      apply elem_of_union in Ha as [?|?]; done. }
  assert (∀ w, w ∈ (seen ∪ next) ∪ next' → rtc (adjacent G) src w) as Hreach'.
  { intros w Hw. apply elem_of_union in Hw as [Hw|Hw]; [by apply Hreach|].
    apply Hnx in Hw as (v & Hv & _ & Hvw).
    eapply rtc_r; [|done]. apply Hreach, elem_of_union. by right. }
  assert (next' ⊆ N) as HN'.
  { intros w Hw. apply Hnx in Hw as (v & _ & _ & Hvw).
    apply elem_of_list_to_set. by eapply wf_target. }
  destruct (set_choose_or_empty (next ∖ seen)) as [[v Hv]|Hnone].
  2: { (* nothing new in this level: the next one is empty *)
    assert (next ⊆ seen) as Hsub.
    { intros w Hw. destruct (decide (w ∈ seen)) as [|Hws]; [done|].
      exfalso. apply (not_elem_of_empty (C := gset nat) w). apply Hnone.
      by apply elem_of_difference. }
    assert (next' = ∅) as ->.
    { apply set_eq. intros w. split; [|intros H; by apply not_elem_of_empty in H].
      intros Hw. apply Hnx in Hw as (v & Hv & Hvs & _). exfalso. by apply Hvs, Hsub. }
    destruct fuel as [|fuel]; [lia|]. cbn [bfs_loop].
    rewrite decide_True by done. exists (seen ∪ next). split; [done|].
    apply closed_is_reachable.
    + apply elem_of_union in Hsrc as [?|?]; apply elem_of_union; tauto.
    + done.
    + intros a b Ha Hab. specialize (Hclosed' a b Ha Hab).
      by rewrite union_empty_r_L in Hclosed'. }
  - (* a node of this level is new: fewer nodes remain unseen *)
    apply elem_of_difference in Hv as [Hv Hvs].
    apply IH; try done.
    + assert (N ∖ (seen ∪ next) ⊂ N ∖ seen) as Hlt.
      { split.
        - intros w. rewrite !elem_of_difference, elem_of_union. tauto.
        - intros Hback. specialize (Hback v).
          rewrite !elem_of_difference, elem_of_union in Hback.
          destruct Hback as [_ Hback]; [|tauto]. split; [by apply HN|done]. }
      apply subset_size in Hlt. lia.
    + apply elem_of_union. by left.
Qed.

Lemma plain_bfs_spec (src : nat) :
  src ∈ g_nodes G →
  ∃ S', plain_bfs G src = Ok S' ∧ (∀ w, w ∈ S' ↔ rtc (adjacent G) src w).
Proof.
  intros Hsrc. unfold plain_bfs. apply bfs_loop_spec.
  - rewrite difference_empty_L.
    rewrite size_list_to_set by apply G_wf. lia.
  - intros w Hw. apply elem_of_singleton in Hw as ->. by apply elem_of_list_to_set.
  - apply elem_of_union. right. by apply elem_of_singleton.
  - intros w Hw. apply elem_of_union in Hw as [Hw|Hw];
      [by apply not_elem_of_empty in Hw|].
    apply elem_of_singleton in Hw as ->. done.
  - intros a b Ha. by apply not_elem_of_empty in Ha.
Qed.

(** Every search started by [connected_components] ends. *)
Lemma components_from_ok (nodes : list nat) (seen : gset nat) :
  (∀ v, v ∈ nodes → v ∈ g_nodes G) →
  ∃ cs, components_from G nodes seen = Ok cs.
Proof.
  revert seen. induction nodes as [|v nodes IH]; intros seen Hin; simpl; [eauto|].
  assert (∀ v', v' ∈ nodes → v' ∈ g_nodes G) as Hin'.
  { intros v' Hv'. apply Hin. by right. }
  case_decide; [by apply IH|].
  destruct (plain_bfs_spec v) as (c & -> & _); [apply Hin; by left|].
  simpl. destruct (IH (seen ∪ c) Hin') as [cs ->]. simpl. eauto.
Qed.

(** The first component is that of the first node. *)
Lemma connected_components_first (v0 : nat) :
  head (g_nodes G) = Some v0 →
  ∃ c cs, connected_components G = Ok (c :: cs)
          ∧ (∀ w, w ∈ c ↔ rtc (adjacent G) v0 w).
Proof.
  intros Hhead. unfold connected_components.
  destruct (g_nodes G) as [|v nodes] eqn:Hnodes; [done|].
  injection Hhead as ->. simpl.
  rewrite decide_False by apply not_elem_of_empty.
  destruct (plain_bfs_spec v0) as (c & -> & Hc); [rewrite Hnodes; by left|].
  simpl.
  destruct (components_from_ok nodes (∅ ∪ c)) as [cs ->].
  { intros v Hv. rewrite Hnodes. by right. }
  simpl. eauto.
Qed.

End Bfs.

Lemma connected_components_empty : connected_components empty_graph = Ok [].
Proof. reflexivity. Qed.

(* --------------------------------------------------------------------- *)
(** ** build_connectivity_graph: edges, components, missing cameras        *)
(* --------------------------------------------------------------------- *)

Lemma StronglySorted_same_first (c : nat) (l : list (nat * nat)) :
  Forall (λ p, p.1 = c) l → StronglySorted first_le l.
Proof.
  induction 1 as [|p l Hp Hl IH]; constructor; [done|].
  apply Forall_forall. intros q Hq. unfold first_le.
  rewrite Hp. by rewrite (proj1 (Forall_forall _ _) Hl q Hq).
Qed.

Lemma camera_pairs_from_sorted (n k start : nat) :
  StronglySorted first_le
    (seq start k ≫= λ i, (λ j, (i, j)) <$> py_range (i + 1) n)
  ∧ Forall (λ p, start ≤ p.1)%nat
      (seq start k ≫= λ i, (λ j, (i, j)) <$> py_range (i + 1) n).
Proof.
  revert start. induction k as [|k IH]; intros start.
  - split; constructor.
  - cbn [seq]. rewrite bind_cons. destruct (IH (S start)) as [Hs Hle].
    assert (Forall (λ p : nat * nat, p.1 = start)
              ((λ j, (start, j)) <$> py_range (start + 1) n)) as Hrow.
    { apply Forall_fmap, Forall_forall. done. }
    split.
    + apply StronglySorted_app_2; [|by eapply StronglySorted_same_first|done].
      intros p q Hp Hq. unfold first_le.
      rewrite (proj1 (Forall_forall _ _) Hrow p Hp).
      pose proof (proj1 (Forall_forall _ _) Hle q Hq) as H. simpl in H. lia.
    + apply Forall_app. split.
      * eapply Forall_impl; [exact Hrow|]. intros p ->. done.
      * eapply Forall_impl; [exact Hle|]. intros p Hp. simpl in *. lia.
Qed.

Lemma StronglySorted_filter {A : Type} (R : relation A) (P : A → Prop)
    `{!∀ x, Decision (P x)} (l : list A) :
  StronglySorted R l → StronglySorted R (filter P l).
Proof.
  induction 1 as [|x l Hl IH Hx]; [constructor|].
  rewrite filter_cons. case_decide; [|done].
  constructor; [done|].
  apply Forall_forall. intros y Hy. apply list_elem_of_filter in Hy as [_ Hy].
  by apply (proj1 (Forall_forall _ _) Hx).
Qed.

Lemma kept_pairs_sorted (C : matrix) (min_matches : Z) :
  StronglySorted first_le (kept_pairs C min_matches).
Proof.
  apply StronglySorted_filter. apply camera_pairs_from_sorted.
Qed.

(** Edges of the filtered graph and surviving pairs are the same thing. *)
Lemma adjacent_linked (C : matrix) (min_matches : Z) (a b : nat) :
  adjacent (graph_of_pairs (kept_pairs C min_matches)) a b ↔ linked C min_matches a b.
Proof.
  destruct (graph_of_pairs_spec (kept_pairs C min_matches)) as (_ & Hadj & _).
  rewrite Hadj. unfold linked. by rewrite !elem_of_kept_pairs.
Qed.

Lemma rtc_adjacent_connected (C : matrix) (min_matches : Z) (a b : nat) :
  rtc (adjacent (graph_of_pairs (kept_pairs C min_matches))) a b
  ↔ connected C min_matches a b.
Proof.
  unfold connected. split; apply rtc_subrel; intros x y; apply adjacent_linked.
Qed.

Lemma py_min_cons (x : Z) (xs : list Z) : ∃ m, py_min (x :: xs) = Ok m.
Proof. simpl. eauto. Qed.

(** Without a surviving pair the graph has no node, [G_cc] is empty and
    [G_cc[0]] raises. *)
Lemma build_connectivity_graph_no_edge (C : matrix) (min_matches : Z) (verbose : bool) :
  (∀ i j, ¬ surviving C min_matches i j) →
  build_connectivity_graph C min_matches verbose = Raise IndexError.
Proof.
  intros Hnone. unfold build_connectivity_graph. rewrite filter_edges_spec.
  assert (kept_pairs C min_matches = []) as ->.
  { destruct (kept_pairs C min_matches) as [|[i j] l] eqn:E; [done|].
    exfalso. apply (Hnone i j), elem_of_kept_pairs. rewrite E. by left. }
  reflexivity.
Qed.

(** With a surviving pair the call returns, and the cameras it reports
    missing are those not connected to [v0], the first camera of the first
    surviving pair, which is the least camera that has an edge. *)
Lemma build_connectivity_graph_some_edge (C : matrix) (min_matches : Z)
    (verbose : bool) (i j : nat) :
  surviving C min_matches i j →
  ∃ r v0 c cs,
    build_connectivity_graph C min_matches verbose = Ok r
    ∧ connected_components (c_G r) = Ok (c :: cs)
    ∧ c_missing_cams r = list_to_set (py_range 0 (n_cam C)) ∖ c
    ∧ (∀ w, w ∈ c ↔ connected C min_matches v0 w)
    ∧ (∃ b, linked C min_matches v0 b)
    ∧ (∀ a b, linked C min_matches a b → (v0 ≤ a)%nat)
    ∧ (∀ k, k ∈ c_missing_cams r
            ↔ (k < n_cam C)%nat ∧ ¬ connected C min_matches v0 k).
Proof.
  intros Hij. apply elem_of_kept_pairs in Hij.
  pose proof (kept_pairs_sorted C min_matches) as Hsorted.
  destruct (graph_of_pairs_spec (kept_pairs C min_matches)) as (Hwf & _ & _).
  pose proof (rtc_adjacent_connected C min_matches) as Hconn.
  pose proof (λ p, proj2 (elem_of_kept_pairs C min_matches p.1 p.2)) as Hsurv.
  pose proof (λ a b, proj1 (elem_of_kept_pairs C min_matches a b)) as Hkept.
  unfold build_connectivity_graph. rewrite filter_edges_spec.
  destruct (kept_pairs C min_matches) as [|[u v] l] eqn:E;
    [by apply elem_of_nil in Hij|].
  cbn [mbind result_bind].
  destruct (connected_components_first _ Hwf u (graph_of_pairs_head u v l))
    as (c & cs & Hcc & Hc). rewrite Hcc.
  cbn [mbind result_bind py_getitem lookup list_lookup].
  destruct (py_min_cons (n_matches C u v) ((λ p, n_matches C p.1 p.2) <$> l))
    as [m Hm].
  assert ((if verbose
           then py_min ((λ p, n_matches C p.1 p.2) <$> (u, v) :: l)
           else Ok 0) = Ok (if verbose then m else 0)) as ->.
  { destruct verbose; [exact Hm|done]. }
  eexists _, u, c, cs. split; [reflexivity|]. cbn [c_G c_missing_cams].
  split; [done|]. split; [done|].
  split; [intros w; by rewrite Hc, Hconn|].
  assert (surviving C min_matches u v) as Huv by (apply Hkept; by left).
  split; [exists v; by left|]. split.
  - apply StronglySorted_cons in Hsorted as [Hall _].
    assert (∀ q, q ∈ (u, v) :: l → (u ≤ q.1)%nat) as Hmin.
    { intros q Hq. apply elem_of_cons in Hq as [->|Hq]; [done|].
      apply (proj1 (Forall_forall _ _) Hall q Hq). }
    intros a b [Hab|Hba].
    + apply (Hmin (a, b)), (Hsurv (a, b)), Hab.
    + pose proof (Hmin (b, a) (Hsurv (b, a) Hba)) as Hle.
      destruct Hba as [Hlt _]. simpl in Hle. lia.
  - intros k. rewrite elem_of_difference, elem_of_list_to_set.
    unfold py_range. rewrite elem_of_seq, Hc, Hconn. split; intros [? ?]; split; lia || done.
Qed.

(** What is returned holds the pairs and counts kept by step (2). *)
Lemma build_connectivity_graph_pairs (C : matrix) (min_matches : Z)
    (verbose : bool) (r : connectivity) :
  build_connectivity_graph C min_matches verbose = Ok r →
  c_pairs_to_draw r = kept_pairs C min_matches
  ∧ c_matches_per_pair r = (λ p, n_matches C p.1 p.2) <$> kept_pairs C min_matches.
Proof.
  unfold build_connectivity_graph. rewrite filter_edges_spec.
  cbn [mbind result_bind].
  destruct (connected_components _) as [cs| |]; [|done..].
  cbn [mbind result_bind].
  destruct (py_getitem cs 0) as [c| |]; [|done..].
  cbn [mbind result_bind].
  destruct (if verbose then _ else _) as [m| |]; [|done..].
  cbn [mbind result_bind]. by intros [= <-].
Qed.

(** For a matrix of shape [(2·n_cameras, n_tracks)] and cameras [i < j],
    the adjacency matrix holds at [A[i,j]] and at [A[j,i]] the number of
    track columns in which rows [2i] and [2j] are both numbers, the only
    rows that are read.  When rows [2i+1] and [2j+1] are NaN exactly where
    rows [2i] and [2j] are, that number is the one of the columns in which
    both row pairs are numbers. *)
Lemma connectivity_matrix_counts_x_rows (C : matrix) (n_cameras n_trk i j : nat) :
  has_shape C n_cameras n_trk → (i < j < n_cameras)%nat →
  get2 (connectivity_matrix C) i j = Some (joint_x_rows C i j)
  ∧ get2 (connectivity_matrix C) j i = Some (joint_x_rows C i j)
  ∧ (paired_rows C i → paired_rows C j →
     joint_x_rows C i j = joint_row_pairs C i j).
Proof.
  intros Hshape Hij.
  rewrite <- (n_matches_joint_x_rows C n_cameras n_trk i j) by (done || lia).
  rewrite <- (n_cam_shape C n_cameras n_trk Hshape) in Hij.
  destruct (connectivity_matrix_entry C i j Hij) as [-> ->].
  split; [done|]. split; [done|].
  intros Hi Hj. rewrite (n_matches_joint_x_rows C n_cameras n_trk i j).
  2: done. 2, 3: rewrite <- (n_cam_shape C n_cameras n_trk Hshape); lia.
  apply count_columns_ext. intros t Ht.
  rewrite (Hi t Ht), (Hj t Ht).
  by destruct (not_nan_at C (2 * i) t), (not_nan_at C (2 * j) t).
Qed.

Lemma joint_row_pairs_sym (C : matrix) (i j : nat) :
  joint_row_pairs C i j = joint_row_pairs C j i.
Proof.
  apply count_columns_ext. intros t _. apply andb_comm.
Qed.

(** C2. For an observation matrix of shape [(2·n_cameras, n_tracks)], each
    camera having in every track a coordinate pair or none, and for every
    two distinct cameras [i] and [j], the adjacency matrix holds at
    [A[i,j]] and at [A[j,i]] the number of track columns in which the row
    pair [(2i, 2i+1)] and the row pair [(2j, 2j+1)] are both numbers. *)
Theorem connectivity_matrix_counts_joint_tracks (C : matrix)
    (n_cameras n_trk i j : nat) :
  has_shape C n_cameras n_trk →
  (∀ k, (k < n_cameras)%nat → paired_rows C k) →
  (i < n_cameras)%nat → (j < n_cameras)%nat → i ≠ j →
  get2 (connectivity_matrix C) i j = Some (joint_row_pairs C i j)
  ∧ get2 (connectivity_matrix C) j i = Some (joint_row_pairs C i j).
Proof.
  intros Hshape Hpaired Hi Hj Hne.
  destruct (decide (i < j)%nat) as [Hlt|Hge].
  - destruct (connectivity_matrix_counts_x_rows C n_cameras n_trk i j Hshape)
      as (H1 & H2 & H3); [lia|].
    rewrite H1, H2, H3 by (by apply Hpaired). done.
  - destruct (connectivity_matrix_counts_x_rows C n_cameras n_trk j i Hshape)
      as (H1 & H2 & H3); [lia|].
    rewrite H1, H2, H3 by (by apply Hpaired).
    by rewrite (joint_row_pairs_sym C i j).
Qed.

Lemma example_C_paired (k : nat) : (k < 2)%nat → paired_rows example_C k.
Proof.
  intros Hk t Ht. change (n_tracks example_C) with 4%nat in Ht.
  destruct k as [|[|k]]; [| |lia];
    (destruct t as [|[|[|[|t]]]]; [reflexivity..|lia]).
Qed.

Lemma connectivity_matrix_counts_joint_tracks_witness :
  get2 (connectivity_matrix example_C) 1 0 = Some (joint_row_pairs example_C 1 0)
  ∧ get2 (connectivity_matrix example_C) 0 1 = Some (joint_row_pairs example_C 1 0)
  ∧ joint_row_pairs example_C 1 0 = 3.
Proof.
  split; [|split; [|reflexivity]];
    apply (connectivity_matrix_counts_joint_tracks example_C 2 4 1 0);
    try (split; [reflexivity|repeat constructor]);
    try apply example_C_paired; lia.
Defined.

(** C4: the code at the failing input.  In the end-to-end example no pair
    has more than 3 matches; with [min_matches = 3] no edge survives and
    the call raises [IndexError] instead of reporting both cameras
    missing. *)
Theorem build_connectivity_graph_zero_edges_raises :
  filter_edges example_C 3 = Ok ([], [])
  ∧ build_connectivity_graph example_C 3 true = Raise IndexError
  ∧ build_connectivity_graph example_C 3 false = Raise IndexError.
Proof.
  split; [reflexivity|].
  assert (∀ i j, ¬ surviving example_C 3 i j) as Hnone.
  { intros i j [Hlt Hgt]. change (n_cam example_C) with 2%nat in Hlt.
    assert (i = 0%nat ∧ j = 1%nat) as [-> ->] by lia.
    vm_compute in Hgt. discriminate. }
  split; by apply build_connectivity_graph_no_edge.
Qed.

(** C5, as the code has it.  When at least one pair survives the
    threshold, the call returns, and the missing cameras are all cameras
    minus the nodes of [G_cc[0]], the first component listed: the
    component of the least camera that has a surviving edge.  [G_cc[0]]
    holds the cameras connected to that camera. *)
Theorem missing_cams_first_component (C : matrix) (min_matches : Z)
    (verbose : bool) (i j : nat) :
  surviving C min_matches i j →
  ∃ r v0 c cs,
    build_connectivity_graph C min_matches verbose = Ok r
    ∧ connected_components (c_G r) = Ok (c :: cs)
    ∧ c_missing_cams r = list_to_set (py_range 0 (n_cam C)) ∖ c
    ∧ (∀ w, w ∈ c ↔ connected C min_matches v0 w)
    ∧ (∃ b, linked C min_matches v0 b)
    ∧ (∀ a b, linked C min_matches a b → (v0 ≤ a)%nat)
    ∧ (∀ k, k ∈ c_missing_cams r
            ↔ (k < n_cam C)%nat ∧ ¬ connected C min_matches v0 k).
Proof. apply build_connectivity_graph_some_edge. Qed.

Lemma missing_cams_first_component_witness :
  ∃ r v0 c cs,
    build_connectivity_graph two_groups_C 0 true = Ok r
    ∧ connected_components (c_G r) = Ok (c :: cs)
    ∧ c_missing_cams r = list_to_set (py_range 0 (n_cam two_groups_C)) ∖ c
    ∧ (∀ w, w ∈ c ↔ connected two_groups_C 0 v0 w)
    ∧ (∃ b, linked two_groups_C 0 v0 b)
    ∧ (∀ a b, linked two_groups_C 0 a b → (v0 ≤ a)%nat)
    ∧ (∀ k, k ∈ c_missing_cams r
            ↔ (k < n_cam two_groups_C)%nat ∧ ¬ connected two_groups_C 0 v0 k).
Proof.
  apply (missing_cams_first_component two_groups_C 0 true 2 3).
  split; [vm_compute; lia|reflexivity].
Defined.

(** C5, as stated, fails: the first component listed is {0, 1}, the
    largest is {2, 3, 4}; the cameras reported missing are 2, 3 and 4, not
    the cameras outside the largest component. *)
Lemma missing_cams_not_largest :
  ∃ r,
    build_connectivity_graph two_groups_C 0 true = Ok r
    ∧ connected_components (c_G r) = Ok [ {[0; 1]}; {[2; 3; 4]} ]%nat
    ∧ largest_component [ {[0; 1]}; {[2; 3; 4]} ]%nat = Some {[2; 3; 4]}%nat
    ∧ c_missing_cams r = {[2; 3; 4]}%nat
    ∧ c_missing_cams r
      ≠ list_to_set (py_range 0 (n_cam two_groups_C)) ∖ {[2; 3; 4]}%nat.
Proof.
  exists {| c_G := graph_of_pairs [(0, 1); (2, 3); (2, 4); (3, 4)]%nat;
            c_n_cc := 2;
            c_pairs_to_draw := [(0, 1); (2, 3); (2, 4); (3, 4)]%nat;
            c_matches_per_pair := [1; 1; 1; 1];
            c_missing_cams := {[2; 3; 4]}%nat |}.
  split; [vm_compute; reflexivity|].
  split; [vm_compute; reflexivity|].
  split; [vm_compute; reflexivity|].
  split; [reflexivity|].
  cbn [c_missing_cams]. intros H.
  assert (2%nat ∈ ({[2; 3; 4]} : gset nat)%nat) as Hin.
  { rewrite !elem_of_union, !elem_of_singleton. tauto. }
  pose proof Hin as Hin'. rewrite H in Hin'.
  apply elem_of_difference in Hin' as [_ Hnot]. by apply Hnot.
Qed.

(** C6, as the code has it.  Step (2) keeps a pair [(i, j)], [i < j], if
    and only if its count [A[i,j]] is strictly greater than [min_matches]:
    a pair whose count equals [min_matches] is dropped; the pairs and
    counts kept are those returned.  In the example [A[0,1] = 3];
    [min_matches = 2] keeps the edge, [min_matches = 3] removes it, and the
    graph is then left without any node or component. *)
Theorem filter_edges_strict_threshold :
  (∀ (C : matrix) (min_matches : Z),
     ∃ pairs counts,
       filter_edges C min_matches = Ok (pairs, counts)
       ∧ (∀ i j, (i, j) ∈ pairs
                 ↔ (i < j < n_cam C)%nat
                   ∧ ∃ a, get2 (connectivity_matrix C) i j = Some a ∧ a > min_matches)
       ∧ (∀ i j, get2 (connectivity_matrix C) i j = Some min_matches → (i, j) ∉ pairs)
       ∧ (∀ verbose r, build_connectivity_graph C min_matches verbose = Ok r →
                       c_pairs_to_draw r = pairs ∧ c_matches_per_pair r = counts))
  ∧ get2 (connectivity_matrix example_C) 0 1 = Some 3
  ∧ filter_edges example_C 2 = Ok ([(0, 1)%nat], [3])
  ∧ filter_edges example_C 3 = Ok ([], [])
  ∧ g_nodes (graph_of_pairs []) = []
  ∧ connected_components (graph_of_pairs []) = Ok [].
Proof.
  split; [|repeat split; reflexivity].
  intros C min_matches. eexists _, _. split; [apply filter_edges_spec|].
  assert (∀ i j, (i, j) ∈ kept_pairs C min_matches
                 ↔ (i < j < n_cam C)%nat
                   ∧ ∃ a, get2 (connectivity_matrix C) i j = Some a ∧ a > min_matches)
    as Hiff.
  { intros i j. rewrite elem_of_kept_pairs. unfold surviving. split.
    - intros [Hlt Hgt]. split; [done|]. exists (n_matches C i j).
      split; [|done]. by apply connectivity_matrix_entry.
    - intros [Hlt (a & Ha & Hgt)]. split; [done|].
      destruct (connectivity_matrix_entry C i j Hlt) as [Hent _].
      rewrite Hent in Ha. by injection Ha as ->. }
  split; [exact Hiff|]. split.
  - intros i j Heq Hin. apply Hiff in Hin as [_ (a & Ha & Hgt)].
    rewrite Heq in Ha. injection Ha as <-. lia.
  - intros verbose r. apply build_connectivity_graph_pairs.
Qed.

(** C6, as stated, fails in its example: with [min_matches = 3] the graph
    has no node, so that no component is listed, where the claim has two
    singleton components; and the call raises. *)
Lemma filter_edges_no_singletons :
  filter_edges example_C 3 = Ok ([], [])
  ∧ connected_components (graph_of_pairs []) = Ok []
  ∧ ¬ (∃ G_cc, connected_components (graph_of_pairs []) = Ok G_cc
               ∧ length G_cc = 2%nat)
  ∧ ¬ (∃ r, build_connectivity_graph example_C 3 true = Ok r).
Proof.
  split; [reflexivity|]. split; [reflexivity|]. split.
  - intros (G_cc & H & Hlen). vm_compute in H. injection H as <-. done.
  - intros [r H]. vm_compute in H. discriminate.
Qed.

(* ===================================================================== *)
(** * Further properties                                                   *)
(* ===================================================================== *)

(* --------------------------------------------------------------------- *)
(** ** The adjacency matrix as a whole                                     *)
(* --------------------------------------------------------------------- *)

Lemma get2_zeros (n i j : nat) :
  get2 (replicate n (replicate n 0)) i j
  = if bool_decide (i < n ∧ j < n)%nat then Some 0 else None.
Proof.
  unfold get2. case_bool_decide as H.
  - destruct H as [Hi Hj]. rewrite lookup_replicate_2 by done. simpl.
    by apply lookup_replicate_2.
  - destruct (decide (i < n)%nat) as [Hi|Hi].
    + rewrite lookup_replicate_2 by done. simpl.
      apply lookup_ge_None_2. rewrite length_replicate. lia.
    + rewrite (lookup_ge_None_2 (replicate n (replicate n 0)) i); [done|].
      rewrite length_replicate. lia.
Qed.

(** The entries of [A]: the count of the pair off the diagonal, zero on
    it, nothing outside the matrix. *)
Lemma connectivity_matrix_get2 (C : matrix) (i j : nat) :
  get2 (connectivity_matrix C) i j
  = if bool_decide (i < n_cam C ∧ j < n_cam C)%nat
    then (if bool_decide (i = j) then Some 0 else Some (n_matches C i j))
    else None.
Proof.
  unfold connectivity_matrix. rewrite matches_loop_flat.
  destruct (matches_fold_A C (n_cam C) (camera_pairs (n_cam C))
              (initial_state (n_cam C))) as (_ & Hset & Hkeep).
  { apply square_zeros. }
  { intros [a b] Hab. apply elem_of_camera_pairs in Hab. simpl. lia. }
  destruct (decide ((i, j) ∈ camera_pairs (n_cam C) ∨ (j, i) ∈ camera_pairs (n_cam C)))
    as [Hin|Hout].
  - rewrite (Hset i j Hin). rewrite !elem_of_camera_pairs in Hin.
    rewrite bool_decide_eq_true_2 by lia. by rewrite bool_decide_eq_false_2 by lia.
  - rewrite (Hkeep i j Hout). rewrite !elem_of_camera_pairs in Hout.
    cbn [initial_state st_A]. rewrite get2_zeros.
    case_bool_decide as Hr; [|done]. rewrite bool_decide_eq_true_2; [done|]. lia.
Qed.

(** X1. The adjacency matrix built by step (1) is square of size [n_cam],
    symmetric, and zero on the diagonal: a camera is never counted as
    matching itself. *)
Theorem connectivity_matrix_symmetric (C : matrix) :
  square (n_cam C) (connectivity_matrix C)
  ∧ (∀ i j, get2 (connectivity_matrix C) i j = get2 (connectivity_matrix C) j i)
  ∧ (∀ i, (i < n_cam C)%nat → get2 (connectivity_matrix C) i i = Some 0).
Proof.
  split; [|split].
  - unfold connectivity_matrix. rewrite matches_loop_flat.
    apply (matches_fold_A C (n_cam C)); [apply square_zeros|].
    intros [a b] Hab. apply elem_of_camera_pairs in Hab. simpl. lia.
  - intros i j. rewrite !connectivity_matrix_get2.
    rewrite (n_matches_sym C i j).
    repeat case_bool_decide; try done; lia.
  - intros i Hi. rewrite connectivity_matrix_get2.
    rewrite bool_decide_eq_true_2 by lia. by rewrite bool_decide_eq_true_2.
Qed.

Lemma count_columns_bounds (P : nat → bool) (n : nat) :
  0 ≤ count_columns P n ≤ Z.of_nat n.
Proof.
  unfold count_columns. split; [lia|].
  apply inj_le. etrans; [apply length_filter|]. by rewrite length_seq.
Qed.

(** X2. For a matrix of shape [(2·n_cameras, n_tracks)] every entry of the
    adjacency matrix lies between 0 and the number of tracks. *)
Theorem connectivity_matrix_bounded (C : matrix) (n_cameras n_trk i j : nat) (a : Z) :
  has_shape C n_cameras n_trk →
  get2 (connectivity_matrix C) i j = Some a →
  0 ≤ a ≤ Z.of_nat n_trk.
Proof.
  intros Hshape. rewrite connectivity_matrix_get2.
  rewrite (n_cam_shape C n_cameras n_trk Hshape).
  case_bool_decide as Hr; [|done]. destruct Hr as [Hi Hj].
  case_bool_decide; [intros [= <-]; lia|]. intros [= <-].
  rewrite (n_matches_joint_x_rows C n_cameras n_trk i j) by done.
  unfold joint_x_rows, n_tracks.
  destruct (decide (n_cameras = 0)%nat) as [->|Hn]; [lia|].
  rewrite (row_length C n_cameras n_trk 0 Hshape) by lia.
  apply count_columns_bounds.
Qed.

Lemma connectivity_matrix_bounded_witness :
  has_shape example_C 2 4
  ∧ get2 (connectivity_matrix example_C) 0 1 = Some 3
  ∧ 0 ≤ 3 ≤ Z.of_nat 4.
Proof.
  assert (has_shape example_C 2 4) as Hshape
    by (split; [reflexivity|repeat constructor]).
  split; [exact Hshape|]. split; [reflexivity|].
  apply (connectivity_matrix_bounded example_C 2 4 0 1 3 Hshape). reflexivity.
Defined.

(* --------------------------------------------------------------------- *)
(** ** What build_connectivity_graph returns                               *)
(* --------------------------------------------------------------------- *)

(** A call that returns had a surviving pair. *)
Lemma build_connectivity_graph_ok_inv (C : matrix) (min_matches : Z)
    (verbose : bool) (r : connectivity) :
  build_connectivity_graph C min_matches verbose = Ok r →
  ∃ i j, surviving C min_matches i j.
Proof.
  intros Hr. destruct (kept_pairs C min_matches) as [|[i j] l] eqn:E.
  - rewrite build_connectivity_graph_no_edge in Hr; [done|].
    intros i j Hij. apply elem_of_kept_pairs in Hij. rewrite E in Hij.
    by apply elem_of_nil in Hij.
  - exists i, j. apply elem_of_kept_pairs. rewrite E. by left.
Qed.

(** X3. [verbose] only prints: the call returns the same value, or raises
    the same exception, with and without it.  In particular the minimum
    that is printed is never taken of an empty list. *)
Theorem build_connectivity_graph_verbose (C : matrix) (min_matches : Z) :
  build_connectivity_graph C min_matches true
  = build_connectivity_graph C min_matches false.
Proof.
  destruct (kept_pairs C min_matches) as [|[i j] l] eqn:E.
  - rewrite !build_connectivity_graph_no_edge; [done|..];
      intros a b Hab; apply elem_of_kept_pairs in Hab; rewrite E in Hab;
      by apply elem_of_nil in Hab.
  - unfold build_connectivity_graph. rewrite filter_edges_spec, E.
    cbn [mbind result_bind].
    destruct (connected_components _) as [cs| |]; [|done..].
    cbn [mbind result_bind].
    destruct (py_getitem cs 0) as [c| |]; done.
Qed.








(** X5. The cameras reported missing, when the call returns: they are
    cameras of [C]; an edge of the filtered graph never joins a missing
    camera to a camera that is not missing; and every camera without any
    surviving edge is missing. *)
Theorem missing_cams_closed (C : matrix) (min_matches : Z)
    (verbose : bool) (r : connectivity) :
  build_connectivity_graph C min_matches verbose = Ok r →
  (∀ k, k ∈ c_missing_cams r → (k < n_cam C)%nat)
  ∧ (∀ a b, linked C min_matches a b →
            (a ∈ c_missing_cams r ↔ b ∈ c_missing_cams r))
  ∧ (∀ k, (k < n_cam C)%nat → (∀ b, ¬ linked C min_matches k b) →
          k ∈ c_missing_cams r).
Proof.
  intros Hr. destruct (build_connectivity_graph_ok_inv _ _ _ _ Hr) as (i & j & Hij).
  destruct (build_connectivity_graph_some_edge C min_matches verbose i j Hij)
    as (r' & v0 & c & cs & Hr' & _ & _ & _ & [b0 Hv0] & _ & Hmiss).
  rewrite Hr in Hr'. injection Hr' as <-.
  assert (∀ a b, linked C min_matches a b → linked C min_matches b a) as Hsym.
  { intros a b [H|H]; [by right|by left]. }
  assert (∀ a b, linked C min_matches a b → (a < n_cam C)%nat ∧ (b < n_cam C)%nat)
    as Hrange.
  { intros a b [[? _]|[? _]]; lia. }
  split; [|split].
  - intros k Hk. by apply Hmiss in Hk as [? _].
  - intros a b Hab. destruct (Hrange a b Hab) as [Ha Hb].
    rewrite !Hmiss. split; intros [_ Hn]; (split; [done|]); intros Hc; apply Hn.
    + eapply rtc_r; [exact Hc|]. by apply Hsym.
    + eapply rtc_r; [exact Hc|]. done.
  - intros k Hk Hnone. apply Hmiss. split; [done|]. intros Hc.
    apply rtc_inv_r in Hc as [->|(y & _ & Hyk)].
    + by apply (Hnone b0).
    + by apply (Hnone y), Hsym.
Qed.

Lemma missing_cams_closed_witness :
  ∃ r, build_connectivity_graph two_groups_C 0 false = Ok r
       ∧ (∀ k, k ∈ c_missing_cams r → (k < n_cam two_groups_C)%nat)
       ∧ (∀ a b, linked two_groups_C 0 a b →
                 (a ∈ c_missing_cams r ↔ b ∈ c_missing_cams r))
       ∧ (∀ k, (k < n_cam two_groups_C)%nat → (∀ b, ¬ linked two_groups_C 0 k b) →
               k ∈ c_missing_cams r).
Proof.
  eexists. split; [vm_compute; reflexivity|].
  apply (missing_cams_closed two_groups_C 0 false). vm_compute. reflexivity.
Defined.

(** X6. Raising the threshold only removes edges: the pairs kept for a
    threshold are kept, in the same order, for every lower one. *)
Theorem filter_edges_monotone (C : matrix) (m1 m2 : Z) :
  m1 ≤ m2 →
  ∃ p1 c1 p2 c2,
    filter_edges C m1 = Ok (p1, c1)
    ∧ filter_edges C m2 = Ok (p2, c2)
    ∧ p2 `sublist_of` p1.
Proof.
  intros Hle. eexists _, _, _, _.
  split; [apply filter_edges_spec|]. split; [apply filter_edges_spec|].
  unfold kept_pairs.
  rewrite <- (list_filter_filter_l
                (λ p, n_matches C p.1 p.2 > m2) (λ p, n_matches C p.1 p.2 > m1)).
  - apply sublist_filter.
  - intros p. lia.
Qed.

Lemma filter_edges_monotone_witness :
  2 ≤ 3
  ∧ ∃ p1 c1 p2 c2,
      filter_edges example_C 2 = Ok (p1, c1)
      ∧ filter_edges example_C 3 = Ok (p2, c2)
      ∧ p2 `sublist_of` p1.
Proof.
  split; [lia|]. apply (filter_edges_monotone example_C 2 3). lia.
Defined.

(* --------------------------------------------------------------------- *)
(** ** run_plyflatten: how the call ends and what it writes                *)
(* --------------------------------------------------------------------- *)

(** A text without the separator is a single field. *)
Lemma split_on_from_nosep (sep : ascii) (cur s : string) :
  has_char sep s = false → split_on_from sep cur s = [(cur +:+ s)%string].
Proof.
  revert cur. induction s as [|c s IH]; intros cur; simpl.
  - by rewrite append_nil_r.
  - intros H. apply orb_false_iff in H as [Hc Hs]. rewrite Hc.
    rewrite IH by done. unfold snoc_char. by rewrite append_assoc, append_cons.
Qed.

(** A path without a slash has no directory part. *)
Lemma dirname_bare (p : string) : has_char "/" p = false → dirname p = EmptyString.
Proof.
  intros Hp. unfold dirname, py_split_on. by rewrite split_on_from_nosep.
Qed.

Section Outcome.

Context {pixel mask aoi : Type}.
Variable plyflatten_from_plyfiles_list :
  list string → float → roi → bool → raster pixel * profile.
Variable apply_mask_to_raster : image pixel → mask → image pixel.
Variable get_binary_mask_from_aoi_lonlat_within_utm_bbx :
  utm_bbx → float → aoi → mask.
Variable np_ones : nat * nat → mask.



(** X7. An [output_file] without any slash makes [run_plyflatten] raise
    [FileNotFoundError] once the grid is computed and the aggregation has
    run: the directory to create has the empty name, and nothing is
    written, whatever the layers are. *)
Theorem run_plyflatten_bare_file_name
    (ply_list : list string) (resolution : float) (bbx : utm_bbx)
    (output_file : string) (aoi_lonlat : option aoi) (std cnt : bool) (grid : roi) :
  compute_roi bbx resolution = Ok grid →
  has_char "/" output_file = false →
  run_plyflatten plyflatten_from_plyfiles_list apply_mask_to_raster
    get_binary_mask_from_aoi_lonlat_within_utm_bbx np_ones
    ply_list resolution bbx output_file aoi_lonlat std cnt
  = ([], Raise FileNotFoundError).
Proof.
  intros Hroi Hbare. unfold run_plyflatten. rewrite Hroi.
  destruct (plyflatten_from_plyfiles_list _ _ _ _) as [r prof].
  by rewrite (dirname_bare _ Hbare).
Qed.


(** X9. The files written by a call that returns, in order: the surface
    model at [output_file]; the count under [cnt/], only when [std] and
    [cnt] are set and the number of layers is odd; the deviation under
    [std/] when [std] is set.  Without [std] the flag [cnt] is ignored, and
    so it is for an even number of layers. *)
Theorem run_plyflatten_files
    (ply_list : list string) (resolution : float) (bbx : utm_bbx)
    (output_file : string) (aoi_lonlat : option aoi) (std cnt : bool)
    (written : list (raster_file pixel)) :
  run_plyflatten plyflatten_from_plyfiles_list apply_mask_to_raster
    get_binary_mask_from_aoi_lonlat_within_utm_bbx np_ones
    ply_list resolution bbx output_file aoi_lonlat std cnt = (written, Ok ()) →
  ∃ grid, compute_roi bbx resolution = Ok grid
    ∧ let layers :=
        r_layers (plyflatten_from_plyfiles_list ply_list resolution grid std).1 in
      rf_path <$> written
      = [output_file]
        ++ (if std && cnt && bool_decide (length layers `mod` 2 = 1)%nat
            then [path_join (dirname output_file) ("cnt/" +:+ basename output_file)]
            else [])
        ++ (if std
            then [path_join (dirname output_file) ("std/" +:+ basename output_file)]
            else []).
Proof.
  unfold run_plyflatten.
  destruct (compute_roi bbx resolution) as [grid| |]; [|done..].
  intros H. exists grid. split; [done|]. revert H.
  destruct (plyflatten_from_plyfiles_list _ _ _ _) as [r prof]. cbn [fst].
  destruct (os_makedirs (dirname output_file)); [|done..].
  destruct (layer (r_layers r) 0) as [dsm| |]; [|done..].
  destruct std; [|by intros [= <-]].
  destruct (if _ && cnt then _ else _); [|done..].
  destruct (os_makedirs (dirname (path_join _ ("std/" +:+ _)))); [|by case_bool_decide..].
  case_bool_decide as Hodd.
  - case_bool_decide; [|done].
    destruct (layer (removelast (r_layers r)) _) as [s| |]; [|done..].
    destruct cnt; intros [= <-]; by rewrite ?fmap_app.
  - case_bool_decide; [|done].
    destruct (layer (r_layers r) _) as [s| |]; [|done..].
    intros [= <-]. rewrite andb_false_r. by rewrite ?fmap_app.
Qed.

End Outcome.

Lemma run_plyflatten_bare_file_name_witness :
  has_char "/" "dsm.tif" = false
  ∧ run_plyflatten (mask := unit) (aoi := unit)
      (λ _ _ _ _, (example_raster, example_profile)) (λ im _, im)
      (λ _ _ _, ()) (λ _, ())
      ["a.ply"]%string (float_of_decimal 1 1) example_bbx "dsm.tif" None true true
    = ([], Raise FileNotFoundError).
Proof.
  split; [reflexivity|].
  apply (run_plyflatten_bare_file_name (mask := unit) (aoi := unit)
           (λ _ _ _ _, (example_raster, example_profile)) (λ im _, im)
           (λ _ _ _, ()) (λ _, ())
           ["a.ply"]%string (float_of_decimal 1 1) example_bbx "dsm.tif" None true true
           (Roi (float_of_decimal 0 1) (float_of_decimal 5 1) 10 5));
    [vm_compute; reflexivity|reflexivity].
Defined.


Lemma run_plyflatten_files_witness :
  ∃ written,
    run_plyflatten (mask := unit) (aoi := unit)
      (λ _ _ _ _, (example_raster, example_profile)) (λ im _, im)
      (λ _ _ _, ()) (λ _, ())
      ["a.ply"]%string (float_of_decimal 1 1) example_bbx "out/dsm.tif" None true true
    = (written, Ok ())
    ∧ ∃ grid, compute_roi example_bbx (float_of_decimal 1 1) = Ok grid
        ∧ rf_path <$> written
          = ["out/dsm.tif"; "out/cnt/dsm.tif"; "out/std/dsm.tif"]%string.
Proof.
  eexists. split; [vm_compute; reflexivity|].
  apply (run_plyflatten_files (mask := unit) (aoi := unit)
           (λ _ _ _ _, (example_raster, example_profile)) (λ im _, im)
           (λ _ _ _, ()) (λ _, ())
           ["a.ply"]%string (float_of_decimal 1 1) example_bbx "out/dsm.tif" None true true).
  vm_compute. reflexivity.
Defined.

(* --------------------------------------------------------------------- *)
(** ** get_predefined_pairs: the pairs returned                            *)
(* --------------------------------------------------------------------- *)

Lemma index_loop_ok (f rest : file) (pairs : list pair) :
  Forall (λ l, index_ok l = true) f →
  ∃ pqs, index_loop (length f) (f ++ rest) pairs = Ok (pairs ++ pqs)
         ∧ Forall2 (λ line pq, index_line line = Ok pq) f pqs.
Proof.
  revert pairs. induction f as [|l f IH]; intros pairs Hok.
  - exists []. rewrite app_nil_r. split; [done|constructor].
  - apply Forall_cons in Hok as [Hl Hf]. unfold index_ok in Hl.
    destruct (index_line l) as [pq| |] eqn:El; [|done..].
    destruct (IH (pairs ++ [pq]) Hf) as (pqs & Hrun & Hall).
    exists (pq :: pqs). split; [|by constructor].
    cbn [length app index_loop readline]. rewrite El. cbn [mbind result_bind].
    rewrite Hrun. by rewrite <- app_assoc.
Qed.

(** X10. In the modes 'oracle' and 'sift', when the first 50 lines of the
    file each hold two numbers, the call returns 50 pairs, the [k]-th read
    from line [k]; what follows line 50 is not read. *)
Theorem get_predefined_pairs_index_mode (f rest : file) (site order : string)
    (myimages : list string) :
  py_in order ["oracle"; "sift"]%string = true →
  length f = n_pairs →
  Forall (λ l, index_ok l = true) f →
  ∃ ps, get_predefined_pairs (f ++ rest) site order myimages = Ok ps
        ∧ Forall2 (λ line pq, index_line line = Ok pq) f ps.
Proof.
  intros Horder Hlen Hok. unfold get_predefined_pairs. rewrite Horder, <- Hlen.
  destruct (index_loop_ok f rest [] Hok) as (pqs & -> & Hall). by exists pqs.
Qed.

Lemma get_predefined_pairs_index_mode_witness :
  ∃ ps, get_predefined_pairs (file_fifty_indices ++ ["not a pair"]%string)
          "JAX" "sift" [] = Ok ps
        ∧ Forall2 (λ line pq, index_line line = Ok pq) file_fifty_indices ps.
Proof.
  apply (get_predefined_pairs_index_mode file_fifty_indices ["not a pair"]%string
           "JAX" "sift" []); [reflexivity|reflexivity|].
  apply Forall_replicate. reflexivity.
Defined.

(** [xs.index(x)] is the first position of [x]. *)
Lemma py_index_first (x : string) (xs : list string) (i : nat) :
  py_index x xs = Ok i →
  xs !! i = Some x ∧ ∀ j, (j < i)%nat → xs !! j ≠ Some x.
Proof.
  revert i. induction xs as [|y ys IH]; intros i; simpl; [done|].
  destruct (String.eqb_spec x y) as [->|Hne].
  - intros [= <-]. split; [done|]. intros j Hj. lia.
  - destruct (py_index x ys) as [i'| |]; simpl; [|done..].
    intros [= <-]. destruct (IH i' eq_refl) as [Hi Hfirst]. split; [done|].
    intros [|j] Hj; simpl; [congruence|]. apply Hfirst. lia.
Qed.

Lemma filename_line_read_from (suffix : string) (fns : list string)
    (line : string) (pq : pair) :
  filename_line suffix fns line = Ok (Some pq) → read_from suffix fns [line] pq.
Proof.
  unfold filename_line, py_getitem.
  destruct (py_split_on " " line) as [|s0 [|s1 tl]] eqn:Hs; simpl; [done..|].
  destruct (py_in _ fns && py_in _ fns); [|done].
  destruct (py_index (basename (s0 +:+ suffix)) fns) as [p| |] eqn:Hp; simpl; [|done..].
  destruct (py_index (basename (s1 +:+ suffix)) fns) as [q| |] eqn:Hq; simpl; [|done..].
  intros [= <-]. apply py_index_first in Hp as [Hp1 Hp2], Hq as [Hq1 Hq2].
  exists line, s0, s1, tl, p, q. split; [by left|]. done.
Qed.

Lemma read_from_mono (suffix : string) (fns : list string) (f f' : file) (pq : pair) :
  f ⊆ f' → read_from suffix fns f pq → read_from suffix fns f' pq.
Proof.
  intros Hsub (line & s0 & s1 & tl & p & q & Hin & H).
  exists line, s0, s1, tl, p, q. split; [by apply Hsub|done].
Qed.

Lemma filename_loop_read_from (suffix : string) (fns : list string)
    (fuel : nat) (f all : file) (pairs ps : list pair) :
  f ⊆ all →
  Forall (read_from suffix fns all) pairs →
  filename_loop suffix fns fuel f pairs = Ok ps →
  Forall (read_from suffix fns all) ps.
Proof.
  revert f pairs. induction fuel as [|fuel IH]; intros f pairs Hsub Hpairs;
    cbn [filename_loop]; [done|].
  case_bool_decide; [|by intros [= <-]].
  destruct f as [|l f]; cbn [readline].
  { by rewrite filename_line_eof. }
  assert (f ⊆ all) as Hsub' by (intros x Hx; apply Hsub; by right).
  destruct (filename_line suffix fns l) as [[pq|]| |] eqn:El; cbn [mbind result_bind];
    [|by apply IH|done..].
  apply IH; [done|]. apply Forall_app. split; [done|]. constructor; [|done].
  apply (read_from_mono suffix fns [l]).
  - intros x Hx. apply list_elem_of_singleton in Hx as ->. apply Hsub. by left.
  - by apply filename_line_read_from.
Qed.

(** X11. In the filename modes every pair returned indexes [myimages]:
    both members are positions of the list, the first positions whose base
    name is the one formed from the first, and the second, field of some
    line of the file ('.tif' being appended unless the site is 'IARPA'). *)
Theorem get_predefined_pairs_filename_mode (f : file) (site order : string)
    (myimages : list string) (ps : list pair) :
  py_in order ["oracle"; "sift"]%string = false →
  get_predefined_pairs f site order myimages = Ok ps →
  length ps = n_pairs
  ∧ Forall (read_from (if String.eqb site "IARPA" then "" else ".tif")
              (basename <$> myimages) f) ps
  ∧ Forall (λ pq, 0 ≤ pq.1 < Z.of_nat (length myimages)
                  ∧ 0 ≤ pq.2 < Z.of_nat (length myimages)) ps.
Proof.
  intros Horder Hps.
  pose proof (get_predefined_pairs_length f site order myimages ps Hps) as Hlen.
  assert (Forall (read_from (if String.eqb site "IARPA" then "" else ".tif")
                    (basename <$> myimages) f) ps) as Hread.
  { unfold get_predefined_pairs in Hps. rewrite Horder in Hps.
    destruct (String.eqb site "IARPA");
      by apply (filename_loop_read_from _ _ _ f f [] ps) in Hps. }
  split; [done|]. split; [done|].
  eapply Forall_impl; [exact Hread|].
  intros pq (line & s0 & s1 & tl & p & q & _ & _ & -> & Hp & Hq & _).
  apply lookup_lt_Some in Hp, Hq. rewrite length_fmap in Hp, Hq. simpl. lia.
Qed.

Lemma get_predefined_pairs_filename_mode_witness :
  ∃ ps, get_predefined_pairs file_fifty_names "IARPA" "heuristic"
          ["/data/a.tif"; "/data/b.tif"] = Ok ps
        ∧ length ps = n_pairs
        ∧ Forall (read_from "" (basename <$> ["/data/a.tif"; "/data/b.tif"]%string)
                    file_fifty_names) ps
        ∧ Forall (λ pq, 0 ≤ pq.1 < 2 ∧ 0 ≤ pq.2 < 2) ps.
Proof.
  eexists. split; [vm_compute; reflexivity|].
  apply (get_predefined_pairs_filename_mode file_fifty_names "IARPA" "heuristic"
           ["/data/a.tif"; "/data/b.tif"]); [reflexivity|].
  vm_compute. reflexivity.
Defined.

(* --------------------------------------------------------------------- *)
(** ** get_predefined_pairs: lines of two fields                           *)
(* --------------------------------------------------------------------- *)

(** The field before the first separator. *)
Lemma split_on_from_first (sep : ascii) (cur a rest : string) :
  has_char sep a = false →
  split_on_from sep cur (a +:+ String sep rest)
  = (cur +:+ a)%string :: split_on_from sep "" rest.
Proof.
  revert cur. induction a as [|c a IH]; intros cur.
  - intros _. rewrite append_nil_l, append_nil_r. simpl. by rewrite Ascii.eqb_refl.
  - simpl. intros H. apply orb_false_iff in H as [Hc Hs].
    rewrite ?append_cons. simpl. rewrite Hc.
    rewrite IH by done. unfold snoc_char. by rewrite append_assoc, append_cons.
Qed.

Lemma last_cons_nonempty {A : Type} (x d : A) (l : list A) :
  l ≠ [] → List.last (x :: l) d = List.last l d.
Proof. by destruct l. Qed.

(** What follows the last slash goes into the base name. *)
Lemma last_split_on_from_append (cur s t d : string) :
  has_char "/" t = false →
  List.last (split_on_from "/" cur (s +:+ t)) d
  = (List.last (split_on_from "/" cur s) d +:+ t)%string.
Proof.
  intros Ht. revert cur. induction s as [|c s IH]; intros cur.
  - rewrite append_nil_l. simpl. by rewrite split_on_from_nosep.
  - rewrite append_cons. simpl. destruct (Ascii.eqb c "/").
    + rewrite !last_cons_nonempty by apply split_on_from_nonempty. apply IH.
    + apply IH.
Qed.

Lemma basename_append (s t : string) :
  has_char "/" t = false → basename (s +:+ t) = (basename s +:+ t)%string.
Proof. apply last_split_on_from_append. Qed.

Lemma py_in_elem_of (x : string) (xs : list string) :
  py_in x xs = true → x ∈ xs.
Proof.
  unfold py_in. induction xs as [|y ys IH]; simpl; [done|].
  destruct (String.eqb_spec x y) as [->|_]; simpl; [by left|].
  intros H. right. by apply IH.
Qed.

(** A line of two fields, the second one ended by the line feed, names no
    known image: the line feed is part of the second name. *)
Lemma filename_ok_two_fields (suffix : string) (fns : list string) (a b : string) :
  has_char "/" suffix = false →
  Forall (λ n, has_char LF n = false) fns →
  has_char " " a = false → has_char " " b = false →
  filename_ok suffix fns (a +:+ " " +:+ b +:+ String LF "") = false.
Proof.
  intros Hsuffix Hfns Ha Hb. unfold filename_ok, filename_line, py_split_on.
  rewrite (append_cons " " "" (b +:+ String LF "")), append_nil_l.
  rewrite (split_on_from_first " " "" a) by done.
  rewrite split_on_from_nosep by (rewrite has_char_append, Hb; done).
  cbn [py_getitem lookup list_lookup mbind result_bind].
  destruct (py_in (basename (("" +:+ b +:+ String LF "") +:+ suffix)) fns) eqn:Hin.
  2: { by rewrite andb_false_r. }
  exfalso. apply py_in_elem_of in Hin.
  apply (proj1 (Forall_forall _ _) Hfns) in Hin.
  rewrite append_nil_l, append_assoc, append_cons, append_nil_l in Hin.
  rewrite basename_append in Hin.
  2: { simpl. by rewrite Hsuffix. }
  rewrite has_char_append in Hin. simpl in Hin.
  by rewrite orb_true_r in Hin.
Qed.

(** X12. In the filename modes a line counts only if its second field is
    followed by a space: in a line of two fields the second name keeps
    the line feed and is not found among the known names (that hold no
    line feed).  A file made of such lines, however many, raises
    [IndexError]. *)
Theorem get_predefined_pairs_two_columns (f : file) (site order : string)
    (myimages : list string) :
  py_in order ["oracle"; "sift"]%string = false →
  Forall (λ n, has_char LF (basename n) = false) myimages →
  Forall (λ line, ∃ a b, line = (a +:+ " " +:+ b +:+ String LF "")%string
                         ∧ has_char " " a = false ∧ has_char " " b = false) f →
  count_valid site order myimages f = 0%nat
  ∧ get_predefined_pairs f site order myimages = Raise IndexError.
Proof.
  intros Horder Hnames Hlines.
  assert (Forall (λ n, has_char LF n = false) (basename <$> myimages)) as Hfns.
  { by apply Forall_fmap. }
  assert (∀ suffix, has_char "/" suffix = false →
            filter (λ l, filename_ok suffix (basename <$> myimages) l = true) f = [])
    as Hnone.
  { intros suffix Hsuffix. induction Hlines as [|l f (a & b & -> & Ha & Hb) _ IH];
      [done|].
    rewrite filter_cons, decide_False; [done|].
    by rewrite filename_ok_two_fields. }
  unfold count_valid, valid_pair_line, get_predefined_pairs. rewrite Horder.
  destruct (String.eqb site "IARPA");
    (split; [by rewrite Hnone|]);
    apply filename_loop_short; rewrite ?Hnone; unfold n_pairs; simpl; done || lia.
Qed.

Lemma get_predefined_pairs_two_columns_witness :
  count_valid "IARPA" "heuristic" ["/data/a.tif"; "/data/b.tif"] file_two_columns
  = 0%nat
  ∧ get_predefined_pairs file_two_columns "IARPA" "heuristic"
      ["/data/a.tif"; "/data/b.tif"] = Raise IndexError.
Proof.
  apply (get_predefined_pairs_two_columns file_two_columns "IARPA" "heuristic"
           ["/data/a.tif"; "/data/b.tif"]); [reflexivity| |].
  - repeat constructor.
  - repeat constructor.
    + by exists "a.tif"%string, "b.tif"%string.
    + by exists "b.tif"%string, "a.tif"%string.
Defined.

(* --------------------------------------------------------------------- *)
(** ** read_point_cloud_txt                                                *)
(* --------------------------------------------------------------------- *)

Lemma txt_rows_loop_spec (content : list string) (k i : nat) (pts : list point3) :
  length content = (i + k)%nat →
  length pts = i →
  txt_rows_loop content (seq i k) (pts ++ replicate k (0%Q, 0%Q, 0%Q))
  = (ps ← parse_rows (drop i content); Ok (pts ++ ps)).
Proof.
  revert i pts. induction k as [|k IH]; intros i pts Hlen Hpts.
  - rewrite drop_ge by lia. simpl. done.
  - cbn [seq txt_rows_loop].
    destruct (lookup_lt_is_Some_2 content i) as [line Hline]; [lia|].
    rewrite (drop_S _ _ _ Hline). unfold py_getitem at 1. rewrite Hline.
    cbn [parse_rows]. simpl mbind at 1.
    destruct (parse_point_cases line) as [[p Hp]|Hp]; rewrite Hp; [|done].
    simpl mbind at 1.
    replace (<[i:=p]> (pts ++ replicate (S k) (0%Q, 0%Q, 0%Q)))
      with ((pts ++ [p]) ++ replicate k (0%Q, 0%Q, 0%Q)).
    2: { rewrite insert_app_r_alt by lia. rewrite Hpts, Nat.sub_diag.
         simpl. by rewrite <- app_assoc. }
    rewrite IH by (rewrite ?length_app; simpl; lia).
    destruct (parse_rows _) as [ps| |]; simpl; [|done..].
    by rewrite <- app_assoc.
Qed.

Lemma read_point_cloud_txt_rows (lines : list string) :
  read_point_cloud_txt lines = parse_rows (py_strip <$> lines).
Proof.
  unfold read_point_cloud_txt.
  pose proof (txt_rows_loop_spec (py_strip <$> lines)
                (length (py_strip <$> lines)) 0 [] eq_refl eq_refl) as H.
  cbn [app drop] in H. cbv zeta. rewrite H. by destruct (parse_rows _).
Qed.

Lemma parse_rows_points (rows : list string) :
  (∃ pts, parse_rows rows = Ok pts
          ∧ Forall2 (λ row pt, parse_point row = Ok pt) rows pts)
  ∨ (parse_rows rows = Raise IndexError
     ∧ ∃ row, row ∈ rows ∧ parse_point row = Raise IndexError).
Proof.
  induction rows as [|r rows IH]; simpl.
  - left. exists []. by split.
  - destruct (parse_point_cases r) as [[p Hp]|Hp]; rewrite Hp; simpl.
    2: { right. split; [done|]. exists r. split; [left|done]. }
    destruct IH as [(pts & -> & HF)|(-> & row & Hin & Hrow)]; simpl.
    + left. exists (p :: pts). split; [done|]. by constructor.
    + right. split; [done|]. exists row. split; [by right|done].
Qed.

(** X13. read_point_cloud_txt returns one point per line of the file, the
    point read from that line after stripping, in the order of the lines;
    or it raises IndexError, and then some line holds fewer than three
    numbers.  No other outcome exists; an empty file gives an empty cloud. *)
Theorem read_point_cloud_txt_points (lines : list string) :
  (∃ pts, read_point_cloud_txt lines = Ok pts
          ∧ Forall2 (λ line pt, parse_point (py_strip line) = Ok pt) lines pts)
  ∨ (read_point_cloud_txt lines = Raise IndexError
     ∧ ∃ line, line ∈ lines ∧ parse_point (py_strip line) = Raise IndexError).
Proof.
  rewrite read_point_cloud_txt_rows.
  destruct (parse_rows_points (py_strip <$> lines))
    as [(pts & H & HF)|(H & row & Hin & Hrow)].
  - left. exists pts. split; [done|]. by apply Forall2_fmap_l in HF.
  - right. split; [done|]. apply list_elem_of_fmap in Hin as (line & -> & Hin).
    by exists line.
Qed.

(** X14. A ply file is read as its first seven lines dropped and the rest
    read as a text point cloud: the two readers agree on the data rows. *)
Theorem read_point_cloud_ply_as_txt (header rows : list string) :
  length header = ply_header_lines →
  read_point_cloud_ply (header ++ rows) = read_point_cloud_txt rows.
Proof.
  intros Hh. rewrite read_point_cloud_txt_rows.
  by apply read_point_cloud_ply_rows.
Qed.

Lemma read_point_cloud_ply_as_txt_witness :
  length (take 7 ply_six_line_header) = ply_header_lines
  ∧ read_point_cloud_ply (take 7 ply_six_line_header ++ drop 7 ply_six_line_header)
    = read_point_cloud_txt (drop 7 ply_six_line_header).
Proof.
  split; [reflexivity|].
  apply (read_point_cloud_ply_as_txt (take 7 ply_six_line_header)
           (drop 7 ply_six_line_header)).
  reflexivity.
Defined.

(* --------------------------------------------------------------------- *)
(** ** The pattern of the point cloud readers                              *)
(* --------------------------------------------------------------------- *)

Lemma is_digit_not_sign (c : ascii) : is_digit c = true → is_sign c = false.
Proof.
  unfold is_sign. intros H.
  destruct (Ascii.eqb_spec c "-") as [->|_]; [by vm_compute in H|].
  destruct (Ascii.eqb_spec c "+") as [->|_]; [by vm_compute in H|]. done.
Qed.

Lemma is_digit_not_dot (c : ascii) : is_digit c = true → Ascii.eqb c "." = false.
Proof.
  intros H. destruct (Ascii.eqb_spec c ".") as [->|_]; [by vm_compute in H|done].
Qed.

Lemma span_digits_append (d rest : string) :
  all_chars is_digit d = true →
  match rest with String c _ => is_digit c = false | EmptyString => True end →
  span_digits (d +:+ rest) = (d, rest).
Proof.
  intros Hd Hr. induction d as [|c d IH].
  - rewrite append_nil_l. destruct rest as [|c r]; [done|]. simpl. by rewrite Hr.
  - rewrite append_cons. simpl in Hd. apply andb_true_iff in Hd as [Hc Hd].
    simpl. rewrite Hc, IH by done. done.
Qed.

Lemma number_ends_digit (rest : string) :
  number_ends rest = true →
  match rest with String c _ => is_digit c = false | EmptyString => True end.
Proof.
  destruct rest as [|c r]; [done|]. simpl. intros H.
  apply andb_true_iff in H as [H _]. by apply negb_true_iff in H.
Qed.

(** A run of digits that is not followed by a decimal point is matched by
    the second alternative. *)
Lemma match_number_integer (d rest : string) :
  is_decimal d = true → number_ends rest = true →
  match_number (d +:+ rest) = Some (d, rest).
Proof.
  intros Hd Hr. apply andb_true_iff in Hd as [Hne Hd].
  pose proof (span_digits_append d rest Hd (number_ends_digit _ Hr)) as Hspan.
  destruct d as [|c d]; [done|]. simpl in Hd.
  apply andb_true_iff in Hd as [Hc Hd].
  unfold match_number, match_decimal, match_integer.
  rewrite append_cons in *. rewrite (is_digit_not_sign c Hc).
  rewrite Hspan. simpl String.eqb.
  destruct rest as [|x r]; [done|].
  simpl in Hr. apply andb_true_iff in Hr as [_ Hx]. apply negb_true_iff in Hx.
  destruct (Ascii.eqb_spec x ".") as [->|Hne']; [done|].
  destruct x as [[] [] [] [] [] [] [] []]; try done.
Qed.

(** A sign in front of such a run is matched by neither alternative. *)
Lemma match_number_sign (c : ascii) (d rest : string) :
  is_sign c = true → is_decimal d = true → number_ends rest = true →
  match_number (String c (d +:+ rest)) = None.
Proof.
  intros Hc Hd Hr. apply andb_true_iff in Hd as [Hne Hd].
  pose proof (span_digits_append d rest Hd (number_ends_digit _ Hr)) as Hspan.
  unfold match_number, match_decimal, match_integer.
  rewrite Hc, Hspan.
  assert (is_digit c = false) as Hnd.
  { destruct (is_digit c) eqn:E; [|done].
    apply is_digit_not_sign in E. congruence. }
  cbn [span_digits]. rewrite Hnd. simpl String.eqb.
  destruct rest as [|x r]; [done|].
  simpl in Hr. apply andb_true_iff in Hr as [_ Hx]. apply negb_true_iff in Hx.
  destruct (Ascii.eqb_spec x ".") as [->|Hne']; [done|].
  destruct x as [[] [] [] [] [] [] [] []]; try done.
Qed.

Lemma length_append (a b : string) :
  String.length (a +:+ b) = (String.length a + String.length b)%nat.
Proof. induction a as [|x a IH]; [done|]. rewrite append_cons. simpl. by rewrite IH. Qed.

Lemma findall_numbers_match (c : ascii) (s m rest : string) :
  match_number (String c s) = Some (m, rest) →
  findall_numbers (String c s) = m :: findall_numbers rest.
Proof.
  intros Hm. unfold findall_numbers at 1.
  pose proof (match_number_shorter _ _ _ Hm) as Hlt.
  set (n := String.length (String c s)) in *.
  cbn [findall_from]. rewrite Hm. f_equal. by apply findall_from_fuel.
Qed.

Lemma findall_numbers_nomatch (c : ascii) (s : string) :
  match_number (String c s) = None →
  findall_numbers (String c s) = findall_numbers s.
Proof.
  intros Hm. unfold findall_numbers at 1.
  assert (String.length s < String.length (String c s))%nat as Hlt by (simpl; lia).
  set (n := String.length (String c s)) in *.
  cbn [findall_from]. rewrite Hm. by apply findall_from_fuel.
Qed.

Lemma findall_numbers_integer (d rest : string) :
  is_decimal d = true → number_ends rest = true →
  findall_numbers (d +:+ rest) = d :: findall_numbers rest.
Proof.
  intros Hd Hr. pose proof (match_number_integer d rest Hd Hr) as Hm.
  destruct d as [|c d]; [done|]. rewrite append_cons in *.
  by apply findall_numbers_match.
Qed.

Lemma findall_numbers_signed_integer (c : ascii) (d rest : string) :
  is_sign c = true → is_decimal d = true → number_ends rest = true →
  findall_numbers (String c (d +:+ rest)) = d :: findall_numbers rest.
Proof.
  intros Hc Hd Hr.
  rewrite findall_numbers_nomatch by (by apply match_number_sign).
  by apply findall_numbers_integer.
Qed.

Lemma findall_numbers_space (rest : string) :
  findall_numbers (String " " rest) = findall_numbers rest.
Proof. by apply findall_numbers_nomatch. Qed.

(** X15. The readers drop the minus sign of a coordinate written without a
    decimal point: in a line of three negative integers the pattern matches
    the digits only, and the line is read as the line without the signs. *)
Theorem parse_point_integer_sign (d0 d1 d2 : string) :
  is_decimal d0 = true → is_decimal d1 = true → is_decimal d2 = true →
  findall_numbers ("-" +:+ d0 +:+ " -" +:+ d1 +:+ " -" +:+ d2) = [d0; d1; d2]
  ∧ parse_point ("-" +:+ d0 +:+ " -" +:+ d1 +:+ " -" +:+ d2)
    = parse_point (d0 +:+ " " +:+ d1 +:+ " " +:+ d2).
Proof.
  intros H0 H1 H2.
  assert (findall_numbers ("-" +:+ d0 +:+ " -" +:+ d1 +:+ " -" +:+ d2) = [d0; d1; d2])
    as Hsigned.
  { rewrite !append_cons, !append_nil_l.
    rewrite findall_numbers_signed_integer by done.
    rewrite findall_numbers_space.
    rewrite findall_numbers_signed_integer by done.
    rewrite findall_numbers_space.
    rewrite <- (append_nil_r d2) at 1.
    rewrite findall_numbers_signed_integer by done. done. }
  assert (findall_numbers (d0 +:+ " " +:+ d1 +:+ " " +:+ d2) = [d0; d1; d2]) as Hplain.
  { rewrite !append_cons, !append_nil_l.
    rewrite findall_numbers_integer by done.
    rewrite findall_numbers_space.
    rewrite findall_numbers_integer by done.
    rewrite findall_numbers_space.
    rewrite <- (append_nil_r d2) at 1.
    rewrite findall_numbers_integer by done. done. }
  split; [done|]. unfold parse_point. by rewrite Hsigned, Hplain.
Qed.

Lemma parse_point_integer_sign_witness :
  (is_decimal "5" = true ∧ is_decimal "30" = true ∧ is_decimal "2" = true)
  ∧ findall_numbers "-5 -30 -2" = ["5"; "30"; "2"]%string
  ∧ parse_point "-5 -30 -2" = parse_point "5 30 2".
Proof.
  split; [done|].
  exact (parse_point_integer_sign "5" "30" "2" eq_refl eq_refl eq_refl).
Defined.

(* --------------------------------------------------------------------- *)
(** ** write_point_cloud_ply                                               *)
(* --------------------------------------------------------------------- *)

Lemma one_line_spec (s : string) :
  one_line s = true → has_char LF s = false ∧ has_char CR s = false.
Proof.
  unfold one_line. intros H. apply andb_true_iff in H as [H1 H2].
  by rewrite negb_true_iff in H1, H2.
Qed.

Lemma one_line_append (a b : string) :
  one_line (a +:+ b) = one_line a && one_line b.
Proof.
  unfold one_line. rewrite !has_char_append.
  destruct (has_char LF a), (has_char LF b), (has_char CR a), (has_char CR b); done.
Qed.

Lemma readlines_from_line (cur body rest : string) :
  one_line body = true →
  readlines_from cur (body +:+ String LF rest)
  = (cur +:+ body +:+ String LF "")%string :: readlines_from "" rest.
Proof.
  revert cur. induction body as [|c body IH]; intros cur Hb.
  - rewrite !append_nil_l. simpl. done.
  - apply one_line_spec in Hb as [H1 H2]. simpl in H1, H2.
    apply orb_false_iff in H1 as [Hc1 H1]. apply orb_false_iff in H2 as [Hc2 H2].
    rewrite !append_cons. cbn [readlines_from]. rewrite Hc1, Hc2.
    rewrite IH by (unfold one_line; by rewrite H1, H2).
    unfold snoc_char. by rewrite append_assoc, append_cons, append_nil_l.
Qed.

Lemma written_app (a b : list string) :
  written (a ++ b) = (written a +:+ written b)%string.
Proof.
  induction a as [|x a IH]; [done|]. cbn [app written foldr].
  fold (written (a ++ b)). fold (written a). by rewrite IH, append_assoc.
Qed.

Lemma readlines_written_app (lines : list string) (rest : string) :
  Forall is_line lines →
  py_readlines (written lines +:+ rest) = lines ++ py_readlines rest.
Proof.
  unfold py_readlines. induction 1 as [|l lines (body & -> & Hb) _ IH]; [done|].
  cbn [written foldr]. fold (written lines).
  rewrite !append_assoc, append_cons, append_nil_l.
  rewrite readlines_from_line by done. rewrite append_nil_l.
  cbn [app]. by rewrite IH.
Qed.

Lemma readlines_written (lines : list string) :
  Forall is_line lines → py_readlines (written lines) = lines.
Proof.
  intros H. rewrite <- (append_nil_r (written lines)).
  rewrite readlines_written_app by done. apply app_nil_r.
Qed.

Lemma is_digit_digit_char (n : nat) : is_digit (digit_char (n `mod` 10)) = true.
Proof.
  pose proof (Nat.mod_upper_bound n 10 ltac:(lia)) as H.
  unfold is_digit, digit_char. rewrite nat_ascii_embedding by lia.
  apply andb_true_iff. split; apply Nat.leb_le; lia.
Qed.

Lemma is_digit_one_line (c : ascii) :
  is_digit c = true → Ascii.eqb c LF = false ∧ Ascii.eqb c CR = false.
Proof.
  intros H. split.
  - destruct (Ascii.eqb_spec c LF) as [->|_]; [by vm_compute in H|done].
  - destruct (Ascii.eqb_spec c CR) as [->|_]; [by vm_compute in H|done].
Qed.

Lemma all_digits_one_line (s : string) :
  all_chars is_digit s = true → one_line s = true.
Proof.
  induction s as [|c s IH]; [done|]. simpl. intros H.
  apply andb_true_iff in H as [Hc Hs]. apply is_digit_one_line in Hc as [H1 H2].
  specialize (IH Hs). apply one_line_spec in IH as [H3 H4].
  unfold one_line. simpl. by rewrite H1, H2, H3, H4.
Qed.

Lemma str_digits_all_digits (fuel n : nat) (acc : string) :
  all_chars is_digit acc = true → all_chars is_digit (str_digits fuel n acc) = true.
Proof.
  revert n acc. induction fuel as [|fuel IH]; intros n acc Hacc; [done|].
  cbn [str_digits]. cbv zeta.
  assert (all_chars is_digit (String (digit_char (n `mod` 10)) acc) = true) as H.
  { cbn [all_chars]. by rewrite is_digit_digit_char, Hacc. }
  destruct (n `div` 10 =? 0)%nat; [done|by apply IH].
Qed.

Lemma py_str_nat_all_digits (n : nat) : all_chars is_digit (py_str_nat n) = true.
Proof. by apply str_digits_all_digits. Qed.

Ltac literal_line :=
  match goal with
  | |- is_line ?l =>
      let b := eval vm_compute in (String.substring 0 (String.length l - 1) l) in
      exists b; split; reflexivity
  end.

Lemma header_lines_are_lines (n : nat) (white : bool) :
  Forall is_line (header_lines n white).
Proof.
  assert (∀ body : string, one_line body = true →
            is_line (body +:+ String LF "")) as Hline.
  { intros body Hb. by exists body. }
  assert (is_line ("element vertex " +:+ py_str_nat n +:+ String LF "")) as Hn.
  { exists ("element vertex " +:+ py_str_nat n)%string. split.
    - by rewrite append_assoc.
    - rewrite one_line_append. apply andb_true_iff. split; [done|].
      apply all_digits_one_line, py_str_nat_all_digits. }
  unfold header_lines.
  destruct white; cbn [app]; repeat (apply Forall_cons; split); try apply Forall_nil_2;
    try exact Hn; literal_line.
Qed.

Section WriterProperties.

Variable format_float : Q → string.

Lemma write_point_cloud_ply_written (point_cloud : list point3) (color : Z * Z * Z) :
  write_point_cloud_ply format_float point_cloud color
  = (written (header_lines (length point_cloud) (is_white color))
     +:+ written (point_text format_float color <$> point_cloud))%string.
Proof.
  unfold write_point_cloud_ply. cbv zeta.
  rewrite !app_assoc, written_app, <- !app_assoc. f_equal.
  unfold header_lines. by destruct (is_white color).
Qed.

Lemma py_str_int_one_line (z : Z) : one_line (py_str_int z) = true.
Proof.
  unfold py_str_int. destruct (bool_decide (z < 0)).
  - rewrite one_line_append. apply andb_true_iff. split; [done|].
    apply all_digits_one_line, py_str_nat_all_digits.
  - apply all_digits_one_line, py_str_nat_all_digits.
Qed.

Lemma point_text_is_line (color : Z * Z * Z) (p : point3) :
  one_line (format_float p.1.1 +:+ " " +:+ format_float p.1.2 +:+ " "
            +:+ format_float p.2) = true →
  is_line (point_text format_float color p).
Proof.
  intros Hp. unfold point_text. destruct (is_white color); cbn [negb app written foldr].
  - eexists. split; [|exact Hp]. by rewrite append_nil_r.
  - eexists. split.
    + rewrite append_nil_r. rewrite <- append_assoc. reflexivity.
    + rewrite one_line_append, Hp. cbn [andb].
      rewrite !one_line_append, !py_str_int_one_line. done.
Qed.

(** X16. The file written by write_point_cloud_ply, read back line by
    line: the header (7 lines for the white colour, 13 otherwise, its third
    line holding the number of points), then one line per point, in order,
    provided no formatted coordinate holds a line break. *)
Theorem write_point_cloud_ply_lines (point_cloud : list point3) (color : Z * Z * Z) :
  Forall (λ p, one_line (format_float p.1.1 +:+ " " +:+ format_float p.1.2 +:+ " "
                         +:+ format_float p.2) = true) point_cloud →
  py_readlines (write_point_cloud_ply format_float point_cloud color)
  = header_lines (length point_cloud) (is_white color)
    ++ (point_text format_float color <$> point_cloud)
  ∧ length (header_lines (length point_cloud) (is_white color))
    = (if is_white color then 7 else 13)%nat
  ∧ header_lines (length point_cloud) (is_white color) !! 2%nat
    = Some ("element vertex " +:+ py_str_nat (length point_cloud) +:+ String LF "")%string.
Proof.
  intros Hpc. split; [|split].
  - rewrite write_point_cloud_ply_written.
    rewrite readlines_written_app by apply header_lines_are_lines.
    f_equal. apply readlines_written.
    apply Forall_fmap. eapply Forall_impl; [exact Hpc|].
    intros p Hp. by apply point_text_is_line.
  - by destruct (is_white color).
  - done.
Qed.

Lemma parse_rows_ok (rows : list string) (pts : list point3) :
  Forall2 (λ row pt, parse_point row = Ok pt) rows pts → parse_rows rows = Ok pts.
Proof.
  induction 1 as [|r p rows pts Hp _ IH]; [done|].
  cbn [parse_rows]. rewrite Hp. simpl. rewrite IH. done.
Qed.

(** X17. A cloud written with the default, white, colour is read back by
    read_point_cloud_ply as the same cloud, when each written line is read
    back as its point: the header that the writer puts is the one that the
    reader skips. *)
Theorem write_point_cloud_ply_read_back (point_cloud : list point3)
    (color : Z * Z * Z) :
  is_white color = true →
  Forall (λ p, one_line (format_float p.1.1 +:+ " " +:+ format_float p.1.2 +:+ " "
                         +:+ format_float p.2) = true
               ∧ parse_point (py_strip (point_text format_float color p)) = Ok p)
         point_cloud →
  read_point_cloud_ply
    (py_readlines (write_point_cloud_ply format_float point_cloud color))
  = Ok point_cloud.
Proof.
  intros Hw Hpc.
  rewrite write_point_cloud_ply_written.
  rewrite readlines_written_app by apply header_lines_are_lines.
  rewrite readlines_written.
  2: { apply Forall_fmap. eapply Forall_impl; [exact Hpc|].
       intros p [Hp _]. by apply point_text_is_line. }
  rewrite read_point_cloud_ply_rows by (by rewrite Hw).
  apply parse_rows_ok. rewrite <- list_fmap_compose.
  apply Forall2_fmap_l. apply Forall_Forall2_diag.
  eapply Forall_impl; [exact Hpc|]. by intros p [_ Hp].
Qed.

(** X18. A cloud written with any other colour cannot be read back:
    read_point_cloud_ply takes the eighth line of the longer header,
    [property uchar green], for the first point and raises IndexError. *)
Theorem write_point_cloud_ply_colour_unreadable (point_cloud : list point3)
    (color : Z * Z * Z) :
  is_white color = false →
  read_point_cloud_ply
    (py_readlines (write_point_cloud_ply format_float point_cloud color))
  = Raise IndexError.
Proof.
  intros Hw.
  rewrite write_point_cloud_ply_written.
  rewrite readlines_written_app by apply header_lines_are_lines.
  rewrite Hw. set (R := py_readlines _).
  unfold read_point_cloud_ply, header_lines. cbv zeta.
  set (l2 := ("element vertex " +:+ _ +:+ _)%string).
  cbn [app fmap list_fmap length].
  rewrite bool_decide_eq_false_2 by lia.
  replace (Z.to_nat _) with (S (5 + length (py_strip <$> R))) by lia.
  cbn [seq ply_rows_loop].
  done.
Qed.

End WriterProperties.

Lemma write_point_cloud_ply_lines_witness :
  py_readlines (write_point_cloud_ply format_example example_cloud (255, 0, 0))
  !! 13%nat = Some "1.5 -2.25 1.5 255 0 0 255
"%string.
Proof.
  rewrite (proj1 (write_point_cloud_ply_lines format_example example_cloud (255, 0, 0)
                    ltac:(repeat constructor))).
  reflexivity.
Defined.

Lemma write_point_cloud_ply_read_back_witness :
  is_white (255, 255, 255) = true
  ∧ read_point_cloud_ply
      (py_readlines (write_point_cloud_ply format_example example_cloud (255, 255, 255)))
    = Ok example_cloud.
Proof.
  split; [reflexivity|].
  apply (write_point_cloud_ply_read_back format_example example_cloud (255, 255, 255)).
  - reflexivity.
  - repeat constructor.
Defined.

Lemma write_point_cloud_ply_colour_unreadable_witness :
  is_white (255, 0, 0) = false
  ∧ read_point_cloud_ply
      (py_readlines (write_point_cloud_ply format_example example_cloud (255, 0, 0)))
    = Raise IndexError.
Proof.
  split; [reflexivity|].
  by apply (write_point_cloud_ply_colour_unreadable format_example example_cloud (255, 0, 0)).
Defined.

(* --------------------------------------------------------------------- *)
(** ** compute_sift_order                                                  *)
(* --------------------------------------------------------------------- *)

(** The count of [compute_sift_order] is the count of
    [build_connectivity_graph]. *)
Lemma sift_n_matches_n_matches (C : matrix) (im1 im2 : nat) :
  sift_n_matches C im1 im2 = n_matches C im1 im2.
Proof.
  unfold sift_n_matches, n_matches, np_logical_and, observed. cbv zeta.
  generalize (row C (2 * im1)) (row C (2 * im2)). intros r1.
  induction r1 as [|c1 r1 IH]; intros [|c2 r2]; try done.
  cbn [fmap list_fmap zip_with np_sum foldr]. f_equal; [|apply IH].
  by destruct c1, c2.
Qed.

Lemma sift_loop_flat (C : matrix) :
  sift_loop C
  = foldl (λ st p, sift_body C p.1 p.2 st) ([], []) (camera_pairs (n_cam C)).
Proof.
  unfold sift_loop, camera_pairs. cbv zeta. rewrite foldl_bind.
  generalize (@nil Z, @nil (nat * nat)).
  generalize (py_range 0 (n_cam C)). intros l.
  induction l as [|i l IH]; intros st; [done|].
  simpl. rewrite foldl_fmap. apply IH.
Qed.

Lemma sift_fold_lists (C : matrix) (l : list (nat * nat))
    (st : list Z * list (nat * nat)) :
  foldl (λ st p, sift_body C p.1 p.2 st) st l
  = (st.1 ++ ((λ p, n_matches C p.1 p.2) <$> l), st.2 ++ l).
Proof.
  revert st. induction l as [|[i j] l IH]; intros [cs ps]; simpl.
  - by rewrite !app_nil_r.
  - rewrite IH. unfold sift_body. simpl.
    by rewrite sift_n_matches_n_matches, <- !app_assoc.
Qed.

(** X19. compute_sift_order and build_connectivity_graph agree on their
    first step: the same camera pairs in the same order, with the same
    match counts, although the counts are computed differently. *)
Theorem sift_loop_matches_loop (C : matrix) :
  sift_loop C
  = (st_n_correspondences_filt (matches_loop C), st_tmp_pairs (matches_loop C))
  ∧ (sift_loop C).2 = camera_pairs (n_cam C)
  ∧ (sift_loop C).1 = (λ p, n_matches C p.1 p.2) <$> camera_pairs (n_cam C).
Proof.
  rewrite sift_loop_flat, sift_fold_lists.
  by rewrite matches_loop_counts, matches_loop_tmp_pairs.
Qed.

Lemma sift_loop_eq (C : matrix) :
  sift_loop C
  = ((λ p, n_matches C p.1 p.2) <$> camera_pairs (n_cam C), camera_pairs (n_cam C)).
Proof. by rewrite sift_loop_flat, sift_fold_lists. Qed.

(** [str(n)] *)
Lemma digit_val_digit_char (d : nat) :
  (d < 10)%nat → digit_val (digit_char d) = Z.of_nat d.
Proof.
  intros H. unfold digit_val, digit_char. rewrite nat_ascii_embedding by lia. lia.
Qed.

Lemma str_digits_value (fuel n : nat) :
  (n < fuel)%nat →
  ∃ k : Z, 0 ≤ k ∧ ∀ v acc,
    digits_value v (str_digits fuel n acc) = digits_value (v * 10 ^ k + Z.of_nat n) acc.
Proof.
  revert n. induction fuel as [|fuel IH]; intros n Hn; [lia|].
  pose proof (Nat.mod_upper_bound n 10 ltac:(lia)) as Hmod.
  pose proof (Nat.div_mod_eq n 10) as Hdm.
  cbn [str_digits]. cbv zeta.
  destruct (Nat.eqb_spec (n `div` 10) 0) as [Hz|Hnz].
  - exists 1. split; [lia|]. intros v acc. cbn [digits_value].
    rewrite digit_val_digit_char by done. f_equal. lia.
  - destruct (IH (n `div` 10)%nat) as (k & Hk0 & Hk); [lia|].
    exists (k + 1). split; [lia|]. intros v acc. rewrite Hk. cbn [digits_value].
    rewrite digit_val_digit_char by done. f_equal.
    rewrite Z.pow_add_r by lia. rewrite Z.pow_1_r.
    replace (Z.of_nat n) with (10 * Z.of_nat (n `div` 10) + Z.of_nat (n `mod` 10))
      by lia.
    ring.
Qed.

Lemma str_digits_nonempty (fuel n : nat) (acc : string) :
  acc ≠ EmptyString → str_digits fuel n acc ≠ EmptyString.
Proof.
  revert n acc. induction fuel as [|fuel IH]; intros n acc Hacc; [done|].
  cbn [str_digits]. cbv zeta. destruct (_ =? _)%nat; [done|by apply IH].
Qed.

Lemma py_str_nat_nonempty (n : nat) : String.eqb (py_str_nat n) "" = false.
Proof.
  apply String.eqb_neq. unfold py_str_nat. cbn [str_digits]. cbv zeta.
  destruct (_ =? _)%nat; [done|by apply str_digits_nonempty].
Qed.

Lemma py_str_nat_is_decimal (n : nat) : is_decimal (py_str_nat n) = true.
Proof.
  unfold is_decimal. by rewrite py_str_nat_nonempty, py_str_nat_all_digits.
Qed.

(** [int(str(n)) == n] *)
Lemma py_int_py_str_nat (n : nat) : py_int (py_str_nat n) = Ok (Z.of_nat n).
Proof.
  unfold py_int. fold (is_decimal (py_str_nat n)). rewrite py_str_nat_is_decimal.
  destruct (str_digits_value (S n) n ltac:(lia)) as (k & _ & Hk).
  unfold py_str_nat. rewrite Hk. simpl. f_equal.
Qed.

Lemma all_chars_impl (P Q : ascii → bool) (s : string) :
  (∀ c, P c = true → Q c = true) → all_chars P s = true → all_chars Q s = true.
Proof.
  intros HPQ. induction s as [|c s IH]; [done|]. simpl. intros H.
  apply andb_true_iff in H as [Hc Hs]. by rewrite (HPQ c Hc), IH.
Qed.

Lemma is_digit_is_digit_char (c : ascii) : is_digit c = true → is_digit_char c = true.
Proof. unfold is_digit_char. by intros ->. Qed.

Lemma is_digit_not_space (c : ascii) : is_digit c = true → is_space c = false.
Proof. destruct c as [[] [] [] [] [] [] [] []]; by vm_compute. Qed.

Lemma py_isdigit_py_str_nat (n : nat) : py_isdigit (py_str_nat n) = true.
Proof.
  unfold py_isdigit. rewrite py_str_nat_nonempty.
  apply (all_chars_impl is_digit); [apply is_digit_is_digit_char|].
  apply py_str_nat_all_digits.
Qed.

(** A field and the white space after it. *)
Lemma split_ws_from_field (cur d : string) (c : ascii) (rest : string) :
  all_chars is_digit d = true → is_space c = true →
  String.eqb (cur +:+ d) "" = false →
  split_ws_from cur (d +:+ String c rest) = (cur +:+ d)%string :: split_ws_from "" rest.
Proof.
  revert cur. induction d as [|x d IH]; intros cur Hd Hc Hne.
  - rewrite append_nil_l. rewrite append_nil_r in *. cbn [split_ws_from].
    by rewrite Hc, Hne.
  - simpl in Hd. apply andb_true_iff in Hd as [Hx Hd].
    rewrite append_cons. cbn [split_ws_from]. rewrite (is_digit_not_space x Hx).
    unfold snoc_char. rewrite IH; [|done|done|].
    + by rewrite append_assoc, append_cons, append_nil_l.
    + by rewrite append_assoc, append_cons, append_nil_l.
Qed.

Lemma py_split_sift_line (p : nat * nat) :
  py_split (sift_line p) = [py_str_nat (p.1 + 1); py_str_nat (p.2 + 1)].
Proof.
  unfold py_split, sift_line.
  rewrite (append_cons " " "" (py_str_nat (p.2 + 1) +:+ String LF "")), append_nil_l.
  rewrite split_ws_from_field;
    [|apply py_str_nat_all_digits|done|rewrite append_nil_l; apply py_str_nat_nonempty].
  rewrite append_nil_l.
  rewrite split_ws_from_field;
    [|apply py_str_nat_all_digits|done|rewrite append_nil_l; apply py_str_nat_nonempty].
  done.
Qed.

(** A line written by [compute_sift_order] is read by
    [get_predefined_pairs] as the pair it was written from. *)
Lemma index_line_sift_line (p : nat * nat) :
  index_line (sift_line p) = Ok (pair_of_cameras p).
Proof.
  unfold index_line. rewrite py_split_sift_line.
  rewrite !filter_cons, !py_isdigit_py_str_nat, filter_nil.
  rewrite !decide_True by done.
  cbn [ints_of]. rewrite !py_int_py_str_nat. simpl.
  unfold pair_of_cameras. f_equal. f_equal; lia.
Qed.

Lemma sift_line_is_line (p : nat * nat) : is_line (sift_line p).
Proof.
  exists (py_str_nat (p.1 + 1) +:+ " " +:+ py_str_nat (p.2 + 1))%string. split.
  - unfold sift_line. by rewrite !append_assoc.
  - rewrite !one_line_append.
    by rewrite !(all_digits_one_line _ (py_str_nat_all_digits _)).
Qed.

Lemma sift_write_loop_ok (tmp_pairs : list (nat * nat)) (idxs : list nat) :
  Forall (λ i, i < length tmp_pairs)%nat idxs →
  ∃ ps, sift_write_loop tmp_pairs idxs = Ok (sift_line <$> ps)
        ∧ Forall2 (λ i p, tmp_pairs !! i = Some p) idxs ps.
Proof.
  induction 1 as [|i idxs Hi _ (ps & IH & HF)].
  - exists []. by split.
  - destruct (lookup_lt_is_Some_2 _ _ Hi) as [p Hp].
    exists (p :: ps). split; [|by constructor].
    cbn [sift_write_loop]. unfold py_getitem. rewrite Hp. simpl. by rewrite IH.
Qed.

Lemma fmap_lookup_seq {A : Type} (d : A) (l : list A) :
  (λ i, default d (l !! i)) <$> seq 0 (length l) = l.
Proof.
  apply list_eq. intros i. rewrite list_lookup_fmap.
  destruct (l !! i) as [x|] eqn:E.
  - rewrite (lookup_seq_lt _ _ _ (lookup_lt_Some _ _ _ E)). simpl. by rewrite E.
  - rewrite lookup_seq_ge; [done|]. by apply lookup_ge_None.
Qed.

Lemma Forall2_lookup_fmap {A : Type} (d : A) (l : list A) (idxs : list nat)
    (ps : list A) :
  Forall2 (λ i p, l !! i = Some p) idxs ps →
  ps = (λ i, default d (l !! i)) <$> idxs.
Proof.
  induction 1 as [|i p idxs ps Hp _ IH]; [done|]. simpl. by rewrite Hp, IH.
Qed.

(** The number of camera pairs. *)
Lemma length_camera_pairs (n : nat) :
  (2 * length (camera_pairs n) = n * (n - 1))%nat.
Proof.
  unfold camera_pairs, py_range. rewrite Nat.sub_0_r.
  assert (∀ m k, 2 * length (i ← seq k m; (λ j, (i, j)) <$> seq (i + 1) (k + m - (i + 1)))
                 = m * (m - 1))%nat as H.
  { induction m as [|m IH]; intros k; [done|].
    cbn [seq]. rewrite bind_cons, length_app, length_fmap, length_seq.
    specialize (IH (S k)).
    replace (S k + m)%nat with (k + S m)%nat in IH by lia. nia. }
  apply (H n 0%nat).
Qed.

Section SiftProperties.

Variable np_argsort : list Z → list nat.

(** X20. When np.argsort behaves as an argsort, compute_sift_order writes
    to sift_order.txt in the output directory one line per camera pair
    [i < j], each pair once (n_cam (n_cam - 1) / 2 lines), as the two
    indices plus one, in an order along which the match counts do not
    increase. *)
Theorem compute_sift_order_file (C : matrix) (output_dir : string) :
  is_argsort ((λ p, n_matches C p.1 p.2) <$> camera_pairs (n_cam C))
             (np_argsort ((λ p, n_matches C p.1 p.2) <$> camera_pairs (n_cam C))) →
  ∃ order,
    compute_sift_order np_argsort C output_dir
    = Ok (path_join output_dir "sift_order.txt", written (sift_line <$> order))
    ∧ py_readlines (written (sift_line <$> order)) = sift_line <$> order
    ∧ order ≡ₚ camera_pairs (n_cam C)
    ∧ (2 * length order = n_cam C * (n_cam C - 1))%nat
    ∧ ∀ a b p q, (a ≤ b)%nat → order !! a = Some p → order !! b = Some q →
        n_matches C q.1 q.2 ≤ n_matches C p.1 p.2.
Proof.
  set (tmp := camera_pairs (n_cam C)). set (xs := _ <$> tmp).
  intros [Hperm Hsorted].
  assert (length xs = length tmp) as Hlen by (unfold xs; by rewrite length_fmap).
  set (idxs := reverse (np_argsort xs)).
  assert (idxs ≡ₚ seq 0 (length tmp)) as Hperm'.
  { unfold idxs. rewrite reverse_Permutation, Hperm. by rewrite Hlen. }
  assert (Forall (λ i, i < length tmp)%nat idxs) as Hrange.
  { rewrite Hperm'. apply Forall_forall. intros i Hi.
    apply elem_of_seq in Hi. lia. }
  destruct (sift_write_loop_ok tmp idxs Hrange) as (ps & Hrun & HF).
  assert (ps ≡ₚ tmp) as Hps.
  { rewrite (Forall2_lookup_fmap (0%nat, 0%nat) _ _ _ HF), Hperm'.
    by rewrite fmap_lookup_seq. }
  exists ps. split; [|split; [|split; [|split]]].
  - unfold compute_sift_order. rewrite sift_loop_eq. fold tmp xs idxs.
    rewrite Hrun. done.
  - apply readlines_written. apply Forall_fmap, Forall_forall.
    intros p _. apply sift_line_is_line.
  - done.
  - rewrite Hps. apply length_camera_pairs.
  - intros a b p q Hab Hp Hq.
    destruct (Forall2_lookup_r _ _ _ _ _ HF Hp) as (ia & Hia & Hpa).
    destruct (Forall2_lookup_r _ _ _ _ _ HF Hq) as (ib & Hib & Hqb).
    pose proof (lookup_lt_Some _ _ _ Hia) as Ha.
    pose proof (lookup_lt_Some _ _ _ Hib) as Hb.
    unfold idxs in Hia, Hib, Ha, Hb. rewrite length_reverse in Ha, Hb.
    rewrite reverse_lookup in Hia by done. rewrite reverse_lookup in Hib by done.
    assert (length (np_argsort xs) - S b ≤ length (np_argsort xs) - S a)%nat
      as Hle by lia.
    apply (Hsorted _ _ ib ia _ _ Hle Hib Hia).
    + unfold xs. rewrite list_lookup_fmap, Hqb. done.
    + unfold xs. rewrite list_lookup_fmap, Hpa. done.
Qed.

(** X21. With at least 11 cameras, the file written by compute_sift_order
    is read by get_predefined_pairs in the mode 'sift' as the first 50 pairs
    of the file, as indices from 0: the added one and the subtracted one
    cancel. *)
Theorem compute_sift_order_read_back (C : matrix) (output_dir site : string)
    (myimages : list string) :
  is_argsort ((λ p, n_matches C p.1 p.2) <$> camera_pairs (n_cam C))
             (np_argsort ((λ p, n_matches C p.1 p.2) <$> camera_pairs (n_cam C))) →
  (11 ≤ n_cam C)%nat →
  ∃ order fname text,
    order ≡ₚ camera_pairs (n_cam C)
    ∧ compute_sift_order np_argsort C output_dir = Ok (fname, text)
    ∧ py_readlines text = sift_line <$> order
    ∧ get_predefined_pairs (py_readlines text) site "sift" myimages
      = Ok (pair_of_cameras <$> take n_pairs order).
Proof.
  set (tmp := camera_pairs (n_cam C)). set (xs := _ <$> tmp).
  intros [Hperm _] Hn.
  assert (length xs = length tmp) as Hlen by (unfold xs; by rewrite length_fmap).
  set (idxs := reverse (np_argsort xs)).
  assert (idxs ≡ₚ seq 0 (length tmp)) as Hperm'.
  { unfold idxs. rewrite reverse_Permutation, Hperm. by rewrite Hlen. }
  assert (Forall (λ i, i < length tmp)%nat idxs) as Hrange.
  { rewrite Hperm'. apply Forall_forall. intros i Hi.
    apply elem_of_seq in Hi. lia. }
  destruct (sift_write_loop_ok tmp idxs Hrange) as (ps & Hrun & HF).
  assert (ps ≡ₚ tmp) as Hps.
  { rewrite (Forall2_lookup_fmap (0%nat, 0%nat) _ _ _ HF), Hperm'.
    by rewrite fmap_lookup_seq. }
  assert (py_readlines (written (sift_line <$> ps)) = sift_line <$> ps) as Hread.
  { apply readlines_written. apply Forall_fmap, Forall_forall.
    intros p _. apply sift_line_is_line. }
  exists ps, (path_join output_dir "sift_order.txt"), (written (sift_line <$> ps)).
  split; [done|]. split; [|split; [done|]].
  - unfold compute_sift_order. rewrite sift_loop_eq. fold tmp xs idxs.
    rewrite Hrun. done.
  - rewrite Hread. unfold get_predefined_pairs.
    replace (py_in "sift" ["oracle"; "sift"]%string) with true by reflexivity.
    assert (n_pairs ≤ length ps)%nat as Hlong.
    { rewrite Hps. pose proof (length_camera_pairs (n_cam C)) as H.
      fold tmp in H. unfold n_pairs. nia. }
    rewrite <- (take_drop n_pairs ps) at 1. rewrite fmap_app.
    destruct (index_loop_ok (sift_line <$> take n_pairs ps)
                (sift_line <$> drop n_pairs ps) []) as (pqs & Hloop & Hall).
    { apply Forall_fmap, Forall_forall. intros p _. simpl. unfold index_ok.
      by rewrite index_line_sift_line. }
    rewrite length_fmap, length_take, Nat.min_l in Hloop by done.
    rewrite Hloop. f_equal. simpl.
    apply Forall2_fmap_l in Hall.
    clear -Hall. induction Hall as [|p pq l pqs Hp _ IH]; [done|].
    simpl in Hp. rewrite index_line_sift_line in Hp. injection Hp as <-. simpl. by rewrite IH.
Qed.

End SiftProperties.

Lemma twelve_blind_cameras_argsort :
  is_argsort ((λ p, n_matches twelve_blind_cameras p.1 p.2)
              <$> camera_pairs (n_cam twelve_blind_cameras))
    (argsort_of_equal ((λ p, n_matches twelve_blind_cameras p.1 p.2)
                       <$> camera_pairs (n_cam twelve_blind_cameras))).
Proof.
  split; [done|]. intros a b ia ib va vb _ _ _ Ha Hb.
  assert (∀ i v, ((λ p, n_matches twelve_blind_cameras p.1 p.2)
                  <$> camera_pairs (n_cam twelve_blind_cameras)) !! i = Some v → v = 0)
    as Hzero.
  { intros i v Hi. apply list_elem_of_lookup_2 in Hi. revert v Hi.
    apply Forall_forall. vm_compute. repeat constructor. }
  rewrite (Hzero _ _ Ha), (Hzero _ _ Hb). done.
Qed.

Lemma compute_sift_order_file_witness :
  ∃ order,
    compute_sift_order argsort_of_equal twelve_blind_cameras "out"
    = Ok ("out/sift_order.txt"%string, written (sift_line <$> order))
    ∧ length order = 66%nat.
Proof.
  destruct (compute_sift_order_file argsort_of_equal twelve_blind_cameras "out"
              twelve_blind_cameras_argsort) as (order & H1 & _ & _ & H2 & _).
  exists order. split; [exact H1|].
  change (n_cam twelve_blind_cameras) with 12%nat in H2. lia.
Defined.

Lemma compute_sift_order_read_back_witness :
  (11 ≤ n_cam twelve_blind_cameras)%nat
  ∧ ∃ order fname text,
      order ≡ₚ camera_pairs (n_cam twelve_blind_cameras)
      ∧ compute_sift_order argsort_of_equal twelve_blind_cameras "out" = Ok (fname, text)
      ∧ py_readlines text = sift_line <$> order
      ∧ get_predefined_pairs (py_readlines text) "JAX" "sift" []
        = Ok (pair_of_cameras <$> take n_pairs order).
Proof.
  assert (11 ≤ n_cam twelve_blind_cameras)%nat as H by (vm_compute; lia).
  split; [exact H|].
  exact (compute_sift_order_read_back argsort_of_equal twelve_blind_cameras "out"
           "JAX" [] twelve_blind_cameras_argsort H).
Defined.

(* --------------------------------------------------------------------- *)
(** ** The connected components and their number                           *)
(* --------------------------------------------------------------------- *)

Lemma rtc_symmetric {A : Type} (R : relation A) (a b : A) :
  (∀ x y, R x y → R y x) → rtc R a b → rtc R b a.
Proof.
  intros Hsym. induction 1 as [|x y z Hxy _ IH]; [done|].
  eapply rtc_r; [exact IH|]. by apply Hsym.
Qed.

Section Components.

Variable G : Graph.
Hypothesis G_wf : graph_wf G.
Hypothesis G_sym : ∀ a b, adjacent G a b → adjacent G b a.

(** The components listed avoid what was seen, are the classes of nodes
    not seen before, do not overlap, and cover the nodes not seen. *)
Lemma components_from_spec (nodes : list nat) (seen : gset nat) :
  (∀ v, v ∈ nodes → v ∈ g_nodes G) →
  (∀ a b, a ∈ seen → adjacent G a b → b ∈ seen) →
  ∃ cs, components_from G nodes seen = Ok cs
    ∧ Forall (λ c, c ## seen
                   ∧ ∃ v, v ∈ nodes ∧ ∀ w, w ∈ c ↔ rtc (adjacent G) v w) cs
    ∧ (∀ v, v ∈ nodes → v ∈ seen ∨ ∃ c, c ∈ cs ∧ v ∈ c)
    ∧ (∀ i j ci cj, i ≠ j → cs !! i = Some ci → cs !! j = Some cj → ci ## cj)
    ∧ (cs = [] ↔ ∀ v, v ∈ nodes → v ∈ seen).
Proof.
  revert seen. induction nodes as [|v nodes IH]; intros seen Hin Hclosed.
  - exists []. split; [done|]. split; [constructor|].
    split; [intros v Hv; by apply elem_of_nil in Hv|].
    split; [intros i j ci cj _ Hi; by rewrite lookup_nil in Hi|].
    split; [intros _ v Hv; by apply elem_of_nil in Hv|done].
  - assert (∀ v', v' ∈ nodes → v' ∈ g_nodes G) as Hin'.
    { intros v' Hv'. apply Hin. by right. }
    cbn [components_from]. case_decide as Hv.
    + destruct (IH seen Hin' Hclosed) as (cs & Hrun & Hall & Hcover & Hdisj & Hnil).
      exists cs. split; [done|]. split; [|split; [|split; [done|]]].
      * eapply Forall_impl; [exact Hall|]. intros c (Hc & w & Hw & Hcw).
        split; [done|]. exists w. split; [by right|done].
      * intros v' Hv'. apply elem_of_cons in Hv' as [->|Hv']; [by left|by apply Hcover].
      * rewrite Hnil. split.
        -- intros H v' Hv'. apply elem_of_cons in Hv' as [->|Hv']; [done|by apply H].
        -- intros H v' Hv'. apply H. by right.
    + destruct (plain_bfs_spec G G_wf v) as (c & Hbfs & Hc); [apply Hin; by left|].
      rewrite Hbfs. cbn [mbind result_bind].
      assert (c ## seen) as Hcseen.
      { intros w Hwc Hws. apply Hv. apply Hc in Hwc.
        apply (rtc_symmetric _ _ _ G_sym) in Hwc.
        clear -Hwc Hws Hclosed. induction Hwc as [|x y z Hxy _ IH]; [done|].
        apply IH. by apply (Hclosed x). }
      destruct (IH (seen ∪ c) Hin') as (cs & Hrun & Hall & Hcover & Hdisj & Hnil).
      { intros a b Ha Hab. apply elem_of_union in Ha as [Ha|Ha].
        - apply elem_of_union. left. by apply (Hclosed a).
        - apply elem_of_union. right. apply Hc. eapply rtc_r; [by apply Hc|done]. }
      rewrite Hrun. cbn [mbind result_bind].
      exists (c :: cs). split; [done|]. split; [|split; [|split]].
      * constructor.
        -- split; [done|]. exists v. split; [by left|done].
        -- eapply Forall_impl; [exact Hall|]. intros c' (Hc' & w & Hw & Hcw). split.
           ++ intros x Hx1 Hx2. apply (Hc' x Hx1). apply elem_of_union. by left.
           ++ exists w. split; [by right|done].
      * intros v' Hv'. apply elem_of_cons in Hv' as [->|Hv'].
        -- right. exists c. split; [by left|]. by apply Hc.
        -- destruct (Hcover v' Hv') as [Hs|(c' & Hc' & Hvc')].
           ++ apply elem_of_union in Hs as [Hs|Hs]; [by left|].
              right. exists c. split; [by left|done].
           ++ right. exists c'. split; [by right|done].
      * assert (∀ c', c' ∈ cs → c ## c') as Hcc.
        { intros c' Hc' x Hx1 Hx2.
          destruct (proj1 (Forall_forall _ _) Hall c' Hc') as [Hd _].
          apply (Hd x Hx2). apply elem_of_union. by right. }
        intros [|i] [|j] ci cj Hij Hi Hj; simpl in Hi, Hj.
        -- done.
        -- injection Hi as <-. apply Hcc. by apply list_elem_of_lookup_2 in Hj.
        -- injection Hj as <-. symmetry. apply Hcc.
           by apply list_elem_of_lookup_2 in Hi.
        -- apply (Hdisj i j); [congruence|done|done].
      * split; [done|]. intros H. exfalso. apply Hv, H. by left.
Qed.

Lemma connected_components_spec :
  ∃ cs, connected_components G = Ok cs
    ∧ Forall (λ c, ∃ v, v ∈ g_nodes G ∧ ∀ w, w ∈ c ↔ rtc (adjacent G) v w) cs
    ∧ (∀ v, v ∈ g_nodes G → ∃ c, c ∈ cs ∧ v ∈ c)
    ∧ (∀ i j ci cj, i ≠ j → cs !! i = Some ci → cs !! j = Some cj → ci ## cj).
Proof.
  destruct (components_from_spec (g_nodes G) ∅)
    as (cs & Hrun & Hall & Hcover & Hdisj & _); [done| |].
  { intros a b Ha. by apply not_elem_of_empty in Ha. }
  exists cs. split; [done|]. split; [|split; [|done]].
  - eapply Forall_impl; [exact Hall|]. by intros c [_ H].
  - intros v Hv. destruct (Hcover v Hv) as [H|H]; [|done].
    by apply not_elem_of_empty in H.
Qed.

(** One component is listed exactly when every node is reached from the
    first. *)
Lemma connected_components_one (v0 : nat) :
  head (g_nodes G) = Some v0 →
  ∃ cs, connected_components G = Ok cs
    ∧ (1 ≤ length cs)%nat
    ∧ (length cs = 1%nat ↔ ∀ v, v ∈ g_nodes G → rtc (adjacent G) v0 v).
Proof.
  intros Hhead. unfold connected_components.
  destruct (g_nodes G) as [|v nodes] eqn:Hnodes; [done|].
  injection Hhead as ->. cbn [components_from].
  rewrite decide_False by apply not_elem_of_empty.
  destruct (plain_bfs_spec G G_wf v0) as (c & Hbfs & Hc); [rewrite Hnodes; by left|].
  rewrite Hbfs. cbn [mbind result_bind].
  destruct (components_from_spec nodes (∅ ∪ c)) as (cs & Hrun & _ & _ & _ & Hnil).
  { intros v Hv. rewrite Hnodes. by right. }
  { intros a b Ha Hab. rewrite union_empty_l_L in *. apply Hc.
    eapply rtc_r; [by apply Hc|done]. }
  rewrite Hrun. cbn [mbind result_bind]. exists (c :: cs).
  split; [done|]. split; [simpl; lia|].
  rewrite union_empty_l_L in Hnil. split.
  - intros Hlen. assert (cs = []) as Hcs by (destruct cs; [done|simpl in Hlen; lia]).
    intros v Hv. apply elem_of_cons in Hv as [->|Hv]; [done|].
    apply Hc. by apply Hnil.
  - intros Hall. assert (cs = []) as ->; [|done].
    apply Hnil. intros v Hv. apply Hc, Hall. by right.
Qed.

End Components.

Lemma linked_symmetric (C : matrix) (min_matches : Z) (a b : nat) :
  linked C min_matches a b → linked C min_matches b a.
Proof. unfold linked. tauto. Qed.

Lemma graph_of_pairs_symmetric (l : list (nat * nat)) (a b : nat) :
  adjacent (graph_of_pairs l) a b → adjacent (graph_of_pairs l) b a.
Proof.
  destruct (graph_of_pairs_spec l) as (_ & Hadj & _). rewrite !Hadj. tauto.
Qed.

(** The nodes of the graph are the cameras that have an edge. *)
Lemma graph_of_kept_pairs_nodes (C : matrix) (min_matches : Z) (w : nat) :
  w ∈ g_nodes (graph_of_pairs (kept_pairs C min_matches))
  ↔ ∃ b, linked C min_matches w b.
Proof.
  destruct (graph_of_pairs_spec (kept_pairs C min_matches)) as (_ & _ & Hnodes).
  rewrite Hnodes. split.
  - intros ([a b] & Hp & [->| ->]); simpl.
    + exists b. left. by apply elem_of_kept_pairs.
    + exists a. right. by apply elem_of_kept_pairs.
  - intros (b & [H|H]); apply elem_of_kept_pairs in H.
    + exists (w, b). split; [done|by left].
    + exists (b, w). split; [done|by right].
Qed.

Lemma build_connectivity_graph_ok_graph (C : matrix) (min_matches : Z)
    (verbose : bool) (r : connectivity) :
  build_connectivity_graph C min_matches verbose = Ok r →
  c_G r = graph_of_pairs (kept_pairs C min_matches)
  ∧ ∃ cs, connected_components (c_G r) = Ok cs ∧ c_n_cc r = length cs.
Proof.
  unfold build_connectivity_graph. rewrite filter_edges_spec.
  cbn [mbind result_bind].
  destruct (connected_components _) as [cs| |] eqn:Hcc; [|done..].
  cbn [mbind result_bind].
  destruct (py_getitem cs 0) as [c| |]; [|done..].
  cbn [mbind result_bind].
  destruct (if verbose then _ else _) as [m| |]; [|done..].
  cbn [mbind result_bind]. intros [= <-]. cbn [c_G c_n_cc]. eauto.
Qed.

(** X22. The graph returned by build_connectivity_graph has as connected
    components the classes of cameras joined by paths of surviving pairs:
    each component listed is the class of one of its cameras, a camera with
    a surviving pair is in exactly one component, a camera without one is
    in none, and n_cc is their number. *)
Theorem build_connectivity_graph_components (C : matrix) (min_matches : Z)
    (verbose : bool) (r : connectivity) :
  build_connectivity_graph C min_matches verbose = Ok r →
  ∃ cs, connected_components (c_G r) = Ok cs
    ∧ c_n_cc r = length cs
    ∧ (∀ c a, c ∈ cs → a ∈ c →
         (∃ b, linked C min_matches a b) ∧ ∀ w, w ∈ c ↔ connected C min_matches a w)
    ∧ (∀ a b, linked C min_matches a b → ∃ c, c ∈ cs ∧ a ∈ c)
    ∧ (∀ i j ci cj, i ≠ j → cs !! i = Some ci → cs !! j = Some cj → ci ## cj).
Proof.
  intros Hr. destruct (build_connectivity_graph_ok_graph _ _ _ _ Hr)
    as (HG & cs0 & Hcc0 & Hncc).
  destruct (graph_of_pairs_spec (kept_pairs C min_matches)) as (Hwf & _ & _).
  destruct (connected_components_spec _ Hwf (graph_of_pairs_symmetric _))
    as (cs & Hcc & Hall & Hcover & Hdisj).
  rewrite HG in *. rewrite Hcc in Hcc0. injection Hcc0 as <-.
  exists cs. split; [done|]. split; [done|]. split; [|split; [|done]].
  - intros c a Hc Ha.
    destruct (proj1 (Forall_forall _ _) Hall c Hc) as (v & Hv & Hcv).
    assert (connected C min_matches v a) as Hva.
    { apply rtc_adjacent_connected. by apply Hcv. }
    assert (connected C min_matches a v) as Hav.
    { apply rtc_symmetric; [apply linked_symmetric|done]. }
    split.
    + apply graph_of_kept_pairs_nodes in Hv as [b Hb].
      destruct Hav as [|x y z Hxy _]; [by exists b|by exists y].
    + intros w. rewrite Hcv, rtc_adjacent_connected. split; intros H.
      * by etrans.
      * by etrans.
  - intros a b Hab. apply Hcover. apply graph_of_kept_pairs_nodes. by exists b.
Qed.

(** X23. n_cc is at least 1 when build_connectivity_graph returns, and it
    is 1 exactly when every two cameras that have a surviving pair are
    joined by a path of surviving pairs. *)
Theorem build_connectivity_graph_n_cc_one (C : matrix) (min_matches : Z)
    (verbose : bool) (r : connectivity) :
  build_connectivity_graph C min_matches verbose = Ok r →
  (1 ≤ c_n_cc r)%nat
  ∧ (c_n_cc r = 1%nat
     ↔ ∀ a a' b b', linked C min_matches a a' → linked C min_matches b b' →
         connected C min_matches a b).
Proof.
  intros Hr. destruct (build_connectivity_graph_ok_graph _ _ _ _ Hr)
    as (HG & cs0 & Hcc0 & Hncc).
  destruct (graph_of_pairs_spec (kept_pairs C min_matches)) as (Hwf & _ & _).
  destruct (build_connectivity_graph_ok_inv _ _ _ _ Hr) as (i & j & Hij).
  apply elem_of_kept_pairs in Hij.
  destruct (kept_pairs C min_matches) as [|[u v] l] eqn:E;
    [by apply elem_of_nil in Hij|].
  destruct (connected_components_one _ Hwf (graph_of_pairs_symmetric _) u
              (graph_of_pairs_head u v l)) as (cs & Hcc & Hone & Hiff).
  rewrite HG, Hcc in Hcc0. injection Hcc0 as <-. rewrite Hncc.
  split; [done|]. rewrite Hiff. rewrite <- E.
  assert (∃ u', linked C min_matches u u') as [u' Hu].
  { apply graph_of_kept_pairs_nodes. rewrite E.
    destruct (graph_of_pairs_spec ((u, v) :: l)) as (_ & _ & Hnodes).
    apply Hnodes. exists (u, v). split; [by left|by left]. }
  split.
  - intros H a a' b b' Ha Hb.
    assert (connected C min_matches u a) as Hua.
    { apply rtc_adjacent_connected, H, graph_of_kept_pairs_nodes. by exists a'. }
    assert (connected C min_matches u b) as Hub.
    { apply rtc_adjacent_connected, H, graph_of_kept_pairs_nodes. by exists b'. }
    etrans; [|exact Hub]. apply rtc_symmetric; [apply linked_symmetric|done].
  - intros H w Hw. apply graph_of_kept_pairs_nodes in Hw as [w' Hw].
    apply rtc_adjacent_connected. by apply (H u u' w w').
Qed.

Lemma build_connectivity_graph_components_witness :
  ∃ r cs, build_connectivity_graph two_groups_C 0 true = Ok r
    ∧ connected_components (c_G r) = Ok cs
    ∧ c_n_cc r = length cs
    ∧ (∀ a b, linked two_groups_C 0 a b → ∃ c, c ∈ cs ∧ a ∈ c).
Proof.
  destruct (build_connectivity_graph two_groups_C 0 true) as [r| |] eqn:E;
    [|by vm_compute in E..].
  destruct (build_connectivity_graph_components two_groups_C 0 true r E)
    as (cs & H1 & H2 & _ & H3 & _).
  by exists r, cs.
Defined.

Lemma build_connectivity_graph_n_cc_one_witness :
  ∃ r, build_connectivity_graph example_C 2 true = Ok r
    ∧ (1 ≤ c_n_cc r)%nat.
Proof.
  destruct (build_connectivity_graph example_C 2 true) as [r| |] eqn:E;
    [|by vm_compute in E..].
  exists r. split; [done|].
  exact (proj1 (build_connectivity_graph_n_cc_one example_C 2 true r E)).
Defined.

(* --------------------------------------------------------------------- *)
(** ** rpc_rpcm_to_geotiff_format                                          *)
(* --------------------------------------------------------------------- *)

Lemma remove_commas_no_comma (s : string) : has_char "," (remove_commas s) = false.
Proof.
  induction s as [|c s IH]; [done|]. simpl.
  destruct (Ascii.eqb c ",") eqn:E; [done|]. simpl. by rewrite E, IH.
Qed.

Section RpcProperties.

Variable value : Type.
Variable py_str : value → string.

Ltac read_key input :=
  match goal with
  | |- context [input !! ?k] => destruct (input !! k) eqn:?
  end;
  cbn [mbind keyed_bind find negb bool_decide decide_rel decide is_Some_dec
       option_rect option_rec].

(** X24. rpc_rpcm_to_geotiff_format reads 14 keys of its input, and 4 more
    when the key lon_num is present; it raises KeyError for the first of
    them, in the order of reading, that is missing, and returns otherwise.
    Other keys are not needed. *)
Theorem rpc_rpcm_to_geotiff_format_key_error (input_dict : gmap string value) :
  match find (λ k, negb (bool_decide (is_Some (input_dict !! k))))
             (rpc_keys_read (bool_decide (is_Some (input_dict !! "lon_num"%string)))) with
  | Some k => rpc_rpcm_to_geotiff_format value py_str input_dict = KeyError k
  | None => ∃ output_dict,
      rpc_rpcm_to_geotiff_format value py_str input_dict = Got output_dict
  end.
Proof.
  unfold rpc_rpcm_to_geotiff_format, copy_scalar, copy_coeffs, dict_get, rpc_keys_read.
  cbv zeta.
  destruct (input_dict !! "lon_num"%string) eqn:Hlon;
    cbn [bool_decide decide_rel decide is_Some_dec app find negb];
    repeat (read_key input_dict; try done); eauto.
Qed.

Lemma keyed_bind_Got {A B : Type} (m : keyed A) (f : A → keyed B) (y : B) :
  (x ← m; f x) = Got y → ∃ x, m = Got x ∧ f x = Got y.
Proof. destruct m as [x|k]; [|done]. intros H. by exists x. Qed.

Lemma copy_scalar_Got (input_dict : gmap string value) (k_out k_in : string)
    (out out' : gmap string string) :
  copy_scalar value py_str input_dict k_out k_in out = Got out' →
  ∃ v, input_dict !! k_in = Some v ∧ out' = <[k_out := py_str v]> out.
Proof.
  unfold copy_scalar, dict_get. destruct (input_dict !! k_in) as [v|]; [|done].
  intros [= <-]. by exists v.
Qed.

Lemma copy_coeffs_Got (input_dict : gmap string value) (k_out k_in : string)
    (out out' : gmap string string) :
  copy_coeffs value py_str input_dict k_out k_in out = Got out' →
  ∃ v, input_dict !! k_in = Some v
       ∧ out' = <[k_out := remove_commas (slice_1_m1 (py_str v))]> out.
Proof.
  unfold copy_coeffs, dict_get. destruct (input_dict !! k_in) as [v|]; [|done].
  intros [= <-]. by exists v.
Qed.

Ltac invert_step H :=
  let o := fresh "o" in let Ho := fresh "Ho" in let v := fresh "v" in
  let Hv := fresh "Hv" in
  apply keyed_bind_Got in H as (o & Ho & H);
  first [ apply copy_scalar_Got in Ho as (v & Hv & ->)
        | apply copy_coeffs_Got in Ho as (v & Hv & ->) ].

Ltac not_coeff_key H :=
  exfalso;
  repeat (apply elem_of_cons in H as [H|H]; [discriminate H|]);
  by apply elem_of_nil in H.

Ltac keys_written :=
  apply set_eq; intros ?; rewrite elem_of_list_to_set;
  rewrite !dom_insert, dom_empty;
  unfold rpc_keys_written; cbn [app];
  rewrite !elem_of_union, !elem_of_singleton, !elem_of_cons, elem_of_nil, elem_of_empty;
  tauto.

Lemma comma_free_empty : comma_free ∅.
Proof. intros k s _ H. by rewrite lookup_empty in H. Qed.

Lemma comma_free_scalar (out : gmap string string) (k_out x : string) :
  k_out ∉ rpc_coeff_keys → comma_free out → comma_free (<[k_out := x]> out).
Proof.
  intros Hout Hfree k s Hk Hs. apply lookup_insert_Some in Hs as [[<- <-]|[_ Hs]].
  - done.
  - by apply (Hfree k).
Qed.

Lemma comma_free_coeffs (out : gmap string string) (k_out x : string) :
  comma_free out → comma_free (<[k_out := remove_commas x]> out).
Proof.
  intros Hfree k s Hk Hs. apply lookup_insert_Some in Hs as [[<- <-]|[_ Hs]].
  - apply remove_commas_no_comma.
  - by apply (Hfree k).
Qed.

Ltac no_comma :=
  repeat first
    [ apply comma_free_coeffs
    | apply comma_free_scalar;
      [ let H := fresh in intros H; not_coeff_key H | ]
    | apply comma_free_empty ].

(** X25. What rpc_rpcm_to_geotiff_format returns has the 14 keys of the
    geotiff format, and the 4 keys of the inverse model when lon_num is
    present, and no others; the texts of the coefficients hold no comma. *)
Theorem rpc_rpcm_to_geotiff_format_keys (input_dict : gmap string value)
    (output_dict : gmap string string) :
  rpc_rpcm_to_geotiff_format value py_str input_dict = Got output_dict →
  dom output_dict
  = list_to_set (rpc_keys_written (bool_decide (is_Some (input_dict !! "lon_num"%string))))
  ∧ ∀ k s, k ∈ rpc_coeff_keys → output_dict !! k = Some s → has_char "," s = false.
Proof.
  unfold rpc_rpcm_to_geotiff_format. cbv zeta. intros H.
  do 14 invert_step H.
  destruct (bool_decide (is_Some (input_dict !! "lon_num"%string))).
  - do 4 invert_step H. injection H as <-. split; [keys_written|].
    change (comma_free
      (<["LAT_DEN_COEFF":=remove_commas (slice_1_m1 (py_str v16))]>
         (<["LAT_NUM_COEFF":=remove_commas (slice_1_m1 (py_str v15))]>
            (<["LON_DEN_COEFF":=remove_commas (slice_1_m1 (py_str v14))]>
               (<["LON_NUM_COEFF":=remove_commas (slice_1_m1 (py_str v13))]>
                  (<["SAMP_DEN_COEFF":=remove_commas (slice_1_m1 (py_str v12))]>
                     (<["SAMP_NUM_COEFF":=remove_commas (slice_1_m1 (py_str v11))]>
                        (<["LINE_DEN_COEFF":=remove_commas (slice_1_m1 (py_str v10))]>
                           (<["LINE_NUM_COEFF":=remove_commas (slice_1_m1 (py_str v9))]>
                              (<["HEIGHT_SCALE":=py_str v8]>
                                 (<["LONG_SCALE":=py_str v7]>
                                    (<["LAT_SCALE":=py_str v6]>
                                       (<["SAMP_SCALE":=py_str v5]>
                                          (<["LINE_SCALE":=py_str v4]>
                                             (<["HEIGHT_OFF":=py_str v3]>
                                                (<["LONG_OFF":=py_str v2]>
                                                   (<["LAT_OFF":=py_str v1]>
                                                      (<["SAMP_OFF":=py_str v0]>
                                                         (<["LINE_OFF":=py_str v]> ∅))))))))))))))))))).
    no_comma.
  - injection H as <-. split; [keys_written|].
    change (comma_free
      (<["SAMP_DEN_COEFF":=remove_commas (slice_1_m1 (py_str v12))]>
         (<["SAMP_NUM_COEFF":=remove_commas (slice_1_m1 (py_str v11))]>
            (<["LINE_DEN_COEFF":=remove_commas (slice_1_m1 (py_str v10))]>
               (<["LINE_NUM_COEFF":=remove_commas (slice_1_m1 (py_str v9))]>
                  (<["HEIGHT_SCALE":=py_str v8]>
                     (<["LONG_SCALE":=py_str v7]>
                        (<["LAT_SCALE":=py_str v6]>
                           (<["SAMP_SCALE":=py_str v5]>
                              (<["LINE_SCALE":=py_str v4]>
                                 (<["HEIGHT_OFF":=py_str v3]>
                                    (<["LONG_OFF":=py_str v2]>
                                       (<["LAT_OFF":=py_str v1]>
                                          (<["SAMP_OFF":=py_str v0]>
                                             (<["LINE_OFF":=py_str v]> ∅))))))))))))))).
    no_comma.
Qed.

End RpcProperties.

Lemma rpc_rpcm_to_geotiff_format_keys_witness :
  ∃ output_dict,
    rpc_rpcm_to_geotiff_format string id example_rpc = Got output_dict
    ∧ dom output_dict
      = list_to_set
          (rpc_keys_written (bool_decide (is_Some (example_rpc !! "lon_num"%string))))
    ∧ ∀ k s, k ∈ rpc_coeff_keys → output_dict !! k = Some s → has_char "," s = false.
Proof.
  destruct (rpc_rpcm_to_geotiff_format string id example_rpc) as [out|k] eqn:E.
  - exists out. split; [reflexivity|].
    exact (rpc_rpcm_to_geotiff_format_keys string id example_rpc out E).
  - exfalso. vm_compute in E. discriminate E.
Defined.
